(** * Lot accounting of the Tastytrade tax tool: a shallow embedding

    The definitions below follow [app.py], [services/portfolio_service.py]
    and [services/tax_service.py] function by function.

    Numbers.  Python floats are modelled by exact rationals in canonical
    form ([Qc]), so that two numbers are equal exactly when they denote the
    same value.  Every division of the modelled code is guarded by the code
    itself (a positive quantity, a truthy rate), so the total division of
    [Qc] is never used at zero on a path the code can take.

    Rows.  A [sqlite3.Row] is a record; a nullable numeric column is an
    [option Qc] and [x or 0] is [or0 x].

    Mutable lots.  The matchers shrink the dictionary at the head of a list
    in place.  Every lot dictionary is created once and stored in one list
    only, so the update is modelled by replacing the head of the list. *)

From Stdlib Require Import QArith Qcanon Qcabs Qround Lqa Lia OrderedTypeEx.
From stdpp Require Import gmap strings list fin_maps.

Open Scope Qc_scope.

(* The bracket notation of [Qcabs] would capture one-element lists. *)
Disable Notation "[ q ]" : Qc_scope.

(** ** Numbers *)

Module Num.

Definition ltb (a b : Qc) : bool :=
  match a ?= b with Lt => true | _ => false end.

Definition leb (a b : Qc) : bool :=
  match a ?= b with Gt => false | _ => true end.

Definition eqb (a b : Qc) : bool :=
  match a ?= b with Eq => true | _ => false end.

(** [x or 0] on a nullable number. *)
Definition or0 (x : option Qc) : Qc :=
  match x with Some v => v | None => 0 end.

(** Truthiness of a nullable number: [None] and [0.0] are falsy. *)
Definition truthy (x : option Qc) : bool :=
  match x with Some v => negb (eqb v 0) | None => false end.

(** [round(x, 2)]: the nearest multiple of 1/100, ties to the even one
    (on the exact value, where Python rounds the binary float). *)
Definition round_half_even (x : Q) : Z :=
  let f := Qfloor x in
  match Qcompare (x - inject_Z f) (1 # 2) with
  | Lt => f
  | Gt => (f + 1)%Z
  | Eq => if Z.even f then f else (f + 1)%Z
  end.

Definition round2 (x : Qc) : Qc :=
  Q2Qc (inject_Z (round_half_even (this x * 100)) / 100).

(** [sum(...)]; the order of the additions does not matter for exact
    numbers. *)
Fixpoint sum (l : list Qc) : Qc :=
  match l with
  | [] => 0
  | x :: r => x + sum r
  end.

End Num.

(** ** The exchange-rate table and [get_exchange_rate]

    [exchange_rates] has [date TEXT UNIQUE]: the table is a finite map from
    the date text to the rate, and the import stores a number under every
    date it writes.  Text is compared as SQLite's BINARY collation does,
    byte by byte, which is [String.compare].  The table is taken to be
    readable: the [except] branch, which returns [None], is not modelled. *)

Definition date_le (a b : string) : Prop := String.leb a b = true.
Definition date_lt (a b : string) : Prop := String.ltb a b = true.

(** [ORDER BY date DESC LIMIT 1] over the selected rows. *)
Fixpoint latest_row (rows : list (string * Qc)) : option (string * Qc) :=
  match rows with
  | [] => None
  | r :: rest =>
      match latest_row rest with
      | None => Some r
      | Some b => if String.ltb (fst b) (fst r) then Some r else Some b
      end
  end.

(** [SELECT usd_to_eur_rate FROM exchange_rates WHERE date <= ?
     ORDER BY date DESC LIMIT 1] *)
Definition closest_previous (tbl : gmap string Qc) (date_str : string)
  : option (string * Qc) :=
  latest_row
    (List.filter (fun r => String.leb (fst r) date_str) (map_to_list tbl)).

Definition get_exchange_rate (tbl : gmap string Qc) (date_str : string)
  : option Qc :=
  match tbl !! date_str with
  | Some r => Some r
  | None => snd <$> closest_previous tbl date_str
  end.

(** [convert_usd_to_eur]: [None] for a falsy amount or a falsy rate. *)
Definition convert_usd_to_eur (tbl : gmap string Qc)
    (usd_amount : option Qc) (date_str : string) : option Qc :=
  if negb (Num.truthy usd_amount) then None
  else
    let rate := get_exchange_rate tbl date_str in
    if Num.truthy rate then Some (Num.round2 (Num.or0 usd_amount / Num.or0 rate))
    else None.

Definition rates_2024 : gmap string Qc :=
  <["2024-01-01" := Q2Qc (110 # 100)]>
    (<["2024-01-10" := Q2Qc (108 # 100)]> ∅).

(** ** Rows of the [transactions] table *)

Record Transaction := {
  Date : string;
  Type_ : string;
  Sub_Type : option string;
  Symbol : string;
  Action : option string;
  Quantity : option Qc;
  Average_Price : option Qc;
  Total : option Qc;
  Value : option Qc;
  Fees : option Qc;
  Commissions : option Qc;
  Asset_Category : option string
}.

(** [x == 'text'] and [x in ['a', 'b']] on a nullable text column. *)
Definition is_text (x : option string) (s : string) : bool :=
  match x with Some v => String.eqb v s | None => false end.

Definition text_in (x : option string) (l : list string) : bool :=
  existsb (is_text x) l.

(** [abs(x or 0)] *)
Definition abs_or0 (x : option Qc) : Qc := Qcabs (Num.or0 x).

(** ** Insertion-ordered dictionaries keyed by symbol *)

Section Dict.
Context {V : Type}.

Fixpoint dict_get (k : string) (d : list (string * V)) : option V :=
  match d with
  | [] => None
  | (k', v) :: r => if String.eqb k k' then Some v else dict_get k r
  end.

Definition dict_mem (k : string) (d : list (string * V)) : bool :=
  match dict_get k d with Some _ => true | None => false end.

(** [d[k] = f(d[k])] for a key that is present; nothing otherwise. *)
Fixpoint dict_update (k : string) (f : V -> V) (d : list (string * V))
  : list (string * V) :=
  match d with
  | [] => []
  | (k', v) :: r =>
      if String.eqb k k' then (k', f v) :: r else (k', v) :: dict_update k f r
  end.

(** [if k not in d: d[k] = v] *)
Definition dict_setdefault (k : string) (v : V) (d : list (string * V))
  : list (string * V) :=
  if dict_mem k d then d else d ++ [(k, v)].

End Dict.

(** ** Lots, closing records and matches of the realized-gains matcher *)

Module Buy.
Record t := {
  date : string;
  quantity : Qc;
  price : Qc;
  total_cost : Qc;
  fees : Qc;
  asset_category : option string
}.
End Buy.

Module Sell.
Record t := {
  date : string;
  quantity : Qc;
  price : Qc;
  total_proceeds : Qc;
  fees : Qc;
  asset_category : option string
}.
End Sell.

Module SymbolData.
Record t := {
  buys : list Buy.t;
  sells : list Sell.t;
  asset_category : option string
}.
End SymbolData.

Definition buy_of_row (trans : Transaction) : Buy.t :=
  {| Buy.date := Date trans;
     Buy.quantity := abs_or0 (Quantity trans);
     Buy.price := abs_or0 (Average_Price trans);
     Buy.total_cost := abs_or0 (Total trans);
     Buy.fees := abs_or0 (Fees trans) + abs_or0 (Commissions trans);
     Buy.asset_category := Asset_Category trans |}.

Definition sell_of_row (trans : Transaction) : Sell.t :=
  {| Sell.date := Date trans;
     Sell.quantity := abs_or0 (Quantity trans);
     Sell.price := abs_or0 (Average_Price trans);
     Sell.total_proceeds := abs_or0 (Total trans);
     Sell.fees := abs_or0 (Fees trans) + abs_or0 (Commissions trans);
     Sell.asset_category := Asset_Category trans |}.

Definition append_buy (b : Buy.t) (d : SymbolData.t) : SymbolData.t :=
  {| SymbolData.buys := SymbolData.buys d ++ [b];
     SymbolData.sells := SymbolData.sells d;
     SymbolData.asset_category := SymbolData.asset_category d |}.

Definition append_sell (s : Sell.t) (d : SymbolData.t) : SymbolData.t :=
  {| SymbolData.buys := SymbolData.buys d;
     SymbolData.sells := SymbolData.sells d ++ [s];
     SymbolData.asset_category := SymbolData.asset_category d |}.

(** One iteration of the loop of [_group_transactions_by_symbol]. *)
Definition group_step (symbol_transactions : list (string * SymbolData.t))
    (trans : Transaction) : list (string * SymbolData.t) :=
  let symbol_key := Symbol trans in
  let d :=
    dict_setdefault symbol_key
      {| SymbolData.buys := []; SymbolData.sells := [];
         SymbolData.asset_category := Asset_Category trans |}
      symbol_transactions in
  if text_in (Action trans) ["BUY_TO_OPEN"; "BUY_TO_CLOSE"]%string then
    dict_update symbol_key (append_buy (buy_of_row trans)) d
  else if text_in (Action trans) ["SELL_TO_CLOSE"; "SELL_TO_OPEN"]%string then
    dict_update symbol_key (append_sell (sell_of_row trans)) d
  else d.

Definition _group_transactions_by_symbol (transactions : list Transaction)
  : list (string * SymbolData.t) :=
  fold_left group_step transactions [].

Module MatchResult.
Record t := { cost_basis : Qc; proceeds : Qc; gain_loss : Qc }.
End MatchResult.

Definition _calculate_fifo_match (buy : Buy.t) (sell : Sell.t)
    (matched_qty sell_qty : Qc) : MatchResult.t :=
  let cost_basis :=
    if Num.ltb 0 (Buy.quantity buy)
    then (matched_qty / Buy.quantity buy) * (Buy.total_cost buy + Buy.fees buy)
    else 0 in
  let proceeds :=
    if Num.ltb 0 sell_qty
    then (matched_qty / sell_qty) * Sell.total_proceeds sell
    else 0 in
  {| MatchResult.cost_basis := cost_basis;
     MatchResult.proceeds := proceeds;
     MatchResult.gain_loss := proceeds - cost_basis |}.

Module Match.
Record t := {
  symbol : string;
  buy_date : string;
  sell_date : string;
  quantity : Qc;
  buy_price : Qc;
  sell_price : Qc;
  cost_basis : Qc;
  proceeds : Qc;
  gain_loss : Qc;
  asset_category : option string;
  buy_price_eur : Qc;
  sell_price_eur : Qc;
  cost_basis_eur : Qc;
  proceeds_eur : Qc;
  gain_loss_eur : Qc
}.
End Match.

(** [get_exchange_rate(d[:10]) or 1.0] *)
Definition rate_or_one (tbl : gmap string Qc) (date : string) : Qc :=
  let r := get_exchange_rate tbl (String.substring 0 10 date) in
  if Num.truthy r then Num.or0 r else 1.

(** The dictionary appended to [detailed_transactions]. *)
Definition make_match (tbl : gmap string Qc) (symbol_key : string)
    (buy : Buy.t) (sell : Sell.t) (matched_qty : Qc) : Match.t :=
  let match_result := _calculate_fifo_match buy sell matched_qty (Sell.quantity sell) in
  let buy_rate := rate_or_one tbl (Buy.date buy) in
  let sell_rate := rate_or_one tbl (Sell.date sell) in
  {| Match.symbol := symbol_key;
     Match.buy_date := Buy.date buy;
     Match.sell_date := Sell.date sell;
     Match.quantity := matched_qty;
     Match.buy_price := Buy.price buy;
     Match.sell_price := Sell.price sell;
     Match.cost_basis := MatchResult.cost_basis match_result;
     Match.proceeds := MatchResult.proceeds match_result;
     Match.gain_loss := MatchResult.gain_loss match_result;
     Match.asset_category := Buy.asset_category buy;
     Match.buy_price_eur := Buy.price buy / buy_rate;
     Match.sell_price_eur := Sell.price sell / sell_rate;
     Match.cost_basis_eur := MatchResult.cost_basis match_result / buy_rate;
     Match.proceeds_eur := MatchResult.proceeds match_result / sell_rate;
     Match.gain_loss_eur :=
       MatchResult.proceeds match_result / sell_rate
       - MatchResult.cost_basis match_result / buy_rate |}.

(** The running totals of [_process_fifo_gains_by_category]. *)
Module Acc.
Record t := {
  total_gains : Qc;
  total_losses : Qc;
  stock_gains : Qc;
  stock_losses : Qc;
  option_gains : Qc;
  option_losses : Qc;
  other_gains : Qc;
  other_losses : Qc;
  detailed_transactions : list Match.t
}.

Definition init : t :=
  {| total_gains := 0; total_losses := 0; stock_gains := 0; stock_losses := 0;
     option_gains := 0; option_losses := 0; other_gains := 0; other_losses := 0;
     detailed_transactions := [] |}.
End Acc.

(** Append the match and book its gain or loss under its category. *)
Definition record_match (m : Match.t) (acc : Acc.t) : Acc.t :=
  let g := Match.gain_loss m in
  let cat := Match.asset_category m in
  let stock := is_text cat "Stock" in
  let opt := negb stock && is_text cat "Option" in
  let other := negb stock && negb opt in
  let detailed := Acc.detailed_transactions acc ++ [m] in
  if Num.ltb 0 g then
    {| Acc.total_gains := Acc.total_gains acc + g;
       Acc.total_losses := Acc.total_losses acc;
       Acc.stock_gains := if stock then Acc.stock_gains acc + g else Acc.stock_gains acc;
       Acc.stock_losses := Acc.stock_losses acc;
       Acc.option_gains := if opt then Acc.option_gains acc + g else Acc.option_gains acc;
       Acc.option_losses := Acc.option_losses acc;
       Acc.other_gains := if other then Acc.other_gains acc + g else Acc.other_gains acc;
       Acc.other_losses := Acc.other_losses acc;
       Acc.detailed_transactions := detailed |}
  else
    let loss_amount := Qcabs g in
    {| Acc.total_gains := Acc.total_gains acc;
       Acc.total_losses := Acc.total_losses acc + loss_amount;
       Acc.stock_gains := Acc.stock_gains acc;
       Acc.stock_losses :=
         if stock then Acc.stock_losses acc + loss_amount else Acc.stock_losses acc;
       Acc.option_gains := Acc.option_gains acc;
       Acc.option_losses :=
         if opt then Acc.option_losses acc + loss_amount else Acc.option_losses acc;
       Acc.other_gains := Acc.other_gains acc;
       Acc.other_losses :=
         if other then Acc.other_losses acc + loss_amount else Acc.other_losses acc;
       Acc.detailed_transactions := detailed |}.

(** The lot left at the head of the queue by a partial match. *)
Definition shrink_buy (buy : Buy.t) (matched_qty : Qc) : Buy.t :=
  let q := Buy.quantity buy - matched_qty in
  if Num.ltb 0 q then
    let ratio := q / (q + matched_qty) in
    {| Buy.date := Buy.date buy; Buy.quantity := q; Buy.price := Buy.price buy;
       Buy.total_cost := Buy.total_cost buy * ratio;
       Buy.fees := Buy.fees buy * ratio;
       Buy.asset_category := Buy.asset_category buy |}
  else
    {| Buy.date := Buy.date buy; Buy.quantity := q; Buy.price := Buy.price buy;
       Buy.total_cost := Buy.total_cost buy; Buy.fees := Buy.fees buy;
       Buy.asset_category := Buy.asset_category buy |}.

(** [while remaining_sell_qty > 0 and buys:] for one [sell].  Each turn
    either pops the head of [buys] or ends the loop, so the recursion is on
    the queue. *)
Fixpoint match_sell (tbl : gmap string Qc) (symbol_key : string) (sell : Sell.t)
    (remaining_sell_qty : Qc) (buys : list Buy.t) (acc : Acc.t)
  : list Buy.t * Acc.t :=
  match buys with
  | [] => (buys, acc)
  | buy :: rest =>
      if Num.ltb 0 remaining_sell_qty then
        if Num.leb (Buy.quantity buy) remaining_sell_qty then
          let matched_qty := Buy.quantity buy in
          let acc' := record_match (make_match tbl symbol_key buy sell matched_qty) acc in
          match_sell tbl symbol_key sell (remaining_sell_qty - matched_qty) rest acc'
        else
          let matched_qty := remaining_sell_qty in
          let acc' := record_match (make_match tbl symbol_key buy sell matched_qty) acc in
          (shrink_buy buy matched_qty :: rest, acc')
      else (buys, acc)
  end.

(** [for sell in sells:] over one symbol, from a given queue. *)
Definition match_sells (tbl : gmap string Qc) (symbol_key : string)
    (sells : list Sell.t) (buys : list Buy.t) (acc : Acc.t) : list Buy.t * Acc.t :=
  fold_left
    (fun st sell => match_sell tbl symbol_key sell (Sell.quantity sell) (fst st) (snd st))
    sells (buys, acc).

(** The body of [for symbol_key, data in symbol_transactions.items():];
    the queue is local to the symbol and is returned here to be observed. *)
Definition process_symbol (tbl : gmap string Qc) (symbol_key : string)
    (data : SymbolData.t) (acc : Acc.t) : list Buy.t * Acc.t :=
  match_sells tbl symbol_key (SymbolData.sells data) (SymbolData.buys data) acc.

Module Gains.
Record t := {
  total_gains : Qc;
  total_losses : Qc;
  stock_gains : Qc;
  stock_losses : Qc;
  option_gains : Qc;
  option_losses : Qc;
  other_gains : Qc;
  other_losses : Qc;
  detailed_transactions : list Match.t;
  stock_gains_eur : Qc;
  stock_losses_eur : Qc;
  option_gains_eur : Qc;
  option_losses_eur : Qc;
  other_gains_eur : Qc;
  other_losses_eur : Qc
}.
End Gains.

(** [sum(f(tx) for tx in detailed_transactions if p(tx))] *)
Definition sum_where (p : Match.t -> bool) (f : Match.t -> Qc)
    (l : list Match.t) : Qc :=
  Num.sum (map f (List.filter p l)).

Definition is_other (m : Match.t) : bool :=
  negb (is_text (Match.asset_category m) "Stock"
        || is_text (Match.asset_category m) "Option").

Definition _process_fifo_gains_by_category (tbl : gmap string Qc)
    (symbol_transactions : list (string * SymbolData.t)) : Gains.t :=
  let acc :=
    fold_left (fun acc kd => snd (process_symbol tbl (fst kd) (snd kd) acc))
      symbol_transactions Acc.init in
  let dt := Acc.detailed_transactions acc in
  let eur := Match.gain_loss_eur in
  let cat m s := is_text (Match.asset_category m) s in
  {| Gains.total_gains := Acc.total_gains acc;
     Gains.total_losses := Acc.total_losses acc;
     Gains.stock_gains := Acc.stock_gains acc;
     Gains.stock_losses := Acc.stock_losses acc;
     Gains.option_gains := Acc.option_gains acc;
     Gains.option_losses := Acc.option_losses acc;
     Gains.other_gains := Acc.other_gains acc;
     Gains.other_losses := Acc.other_losses acc;
     Gains.detailed_transactions := dt;
     Gains.stock_gains_eur :=
       sum_where (fun m => cat m "Stock" && Num.ltb 0 (eur m)) eur dt;
     Gains.stock_losses_eur :=
       sum_where (fun m => cat m "Stock" && Num.ltb (eur m) 0) (fun m => Qcabs (eur m)) dt;
     Gains.option_gains_eur :=
       sum_where (fun m => cat m "Option" && Num.ltb 0 (eur m)) eur dt;
     Gains.option_losses_eur :=
       sum_where (fun m => cat m "Option" && Num.ltb (eur m) 0) (fun m => Qcabs (eur m)) dt;
     Gains.other_gains_eur :=
       sum_where (fun m => is_other m && Num.ltb 0 (eur m)) eur dt;
     Gains.other_losses_eur :=
       sum_where (fun m => is_other m && Num.ltb (eur m) 0) (fun m => Qcabs (eur m)) dt |}.

(** [_process_fifo_gains] runs the same loops, line for line, and keeps
    the two overall totals and the matches only. *)
Definition _process_fifo_gains (tbl : gmap string Qc)
    (symbol_transactions : list (string * SymbolData.t))
  : Qc * Qc * list Match.t :=
  let acc :=
    fold_left (fun acc kd => snd (process_symbol tbl (fst kd) (snd kd) acc))
      symbol_transactions Acc.init in
  (Acc.total_gains acc, Acc.total_losses acc, Acc.detailed_transactions acc).

(** ** [calculate_realized_gains_losses]

    The query is modelled on the table as a list of rows: the [WHERE]
    clause is a filter and [ORDER BY Date ASC] a sort on the date text that
    keeps rows of equal date in table order. *)

(** The value bound to [substr(Date, 1, 4) = ?], if the condition is added. *)
Definition year_param (year : option string) (current_year : string)
  : option string :=
  match year with
  | None => None
  | Some y =>
      if String.eqb y "" then None
      else if String.eqb y "ytd" then Some current_year
      else Some y
  end.

Definition _build_gains_query_conditions (symbol year : option string)
    (current_year : string) (trans : Transaction) : bool :=
  (String.eqb (Type_ trans) "Trade" || String.eqb (Type_ trans) "Receive Deliver")
  && match symbol with
     | Some s => if String.eqb s "" then true else String.eqb (Symbol trans) s
     | None => true
     end
  && match year_param year current_year with
     | Some y => String.eqb (String.substring 0 4 (Date trans)) y
     | None => true
     end.

Fixpoint insert_by_date (t : Transaction) (l : list Transaction)
  : list Transaction :=
  match l with
  | [] => [t]
  | x :: r =>
      if String.leb (Date t) (Date x) then t :: l else x :: insert_by_date t r
  end.

Definition order_by_date (l : list Transaction) : list Transaction :=
  fold_right insert_by_date [] l.

Module Report.
Record t := {
  total_gains : Qc;
  total_losses : Qc;
  net_gain_loss : Qc;
  detailed_transactions : list Match.t;
  stock_gains : Qc;
  stock_losses : Qc;
  stock_net_gain_loss : Qc;
  option_gains : Qc;
  option_losses : Qc;
  option_net_gain_loss : Qc;
  other_gains : Qc;
  other_losses : Qc;
  other_net_gain_loss : Qc;
  stock_gains_eur : Qc;
  stock_losses_eur : Qc;
  option_gains_eur : Qc;
  option_losses_eur : Qc;
  other_gains_eur : Qc;
  other_losses_eur : Qc
}.
End Report.

Definition calculate_realized_gains_losses (tbl : gmap string Qc)
    (db : list Transaction) (current_year : string)
    (symbol year : option string) : Report.t :=
  let transactions :=
    order_by_date
      (List.filter (_build_gains_query_conditions symbol year current_year) db) in
  let symbol_transactions := _group_transactions_by_symbol transactions in
  let r := _process_fifo_gains_by_category tbl symbol_transactions in
  {| Report.total_gains := Gains.total_gains r;
     Report.total_losses := Gains.total_losses r;
     Report.net_gain_loss := Gains.total_gains r - Gains.total_losses r;
     Report.detailed_transactions := Gains.detailed_transactions r;
     Report.stock_gains := Gains.stock_gains r;
     Report.stock_losses := Gains.stock_losses r;
     Report.stock_net_gain_loss := Gains.stock_gains r - Gains.stock_losses r;
     Report.option_gains := Gains.option_gains r;
     Report.option_losses := Gains.option_losses r;
     Report.option_net_gain_loss := Gains.option_gains r - Gains.option_losses r;
     Report.other_gains := Gains.other_gains r;
     Report.other_losses := Gains.other_losses r;
     Report.other_net_gain_loss := Gains.other_gains r - Gains.other_losses r;
     Report.stock_gains_eur := Gains.stock_gains_eur r;
     Report.stock_losses_eur := Gains.stock_losses_eur r;
     Report.option_gains_eur := Gains.option_gains_eur r;
     Report.option_losses_eur := Gains.option_losses_eur r;
     Report.other_gains_eur := Gains.other_gains_eur r;
     Report.other_losses_eur := Gains.other_losses_eur r |}.

(** ** The wire-funds total of the dashboard: per-transaction conversion *)

(** [transaction[0][:10] if transaction[0] else current_date] *)
Definition wire_date (current_date : string) (transaction : Transaction) : string :=
  if String.eqb (Date transaction) "" then current_date
  else String.substring 0 10 (Date transaction).

Definition wire_funds_step (tbl : gmap string Qc) (current_date : string)
    (totals : Qc * Qc) (transaction : Transaction) : Qc * Qc :=
  let date_str := wire_date current_date transaction in
  let usd_amount := Num.or0 (Value transaction) in
  let eur_amount := Num.or0 (convert_usd_to_eur tbl (Some usd_amount) date_str) in
  (fst totals + usd_amount, snd totals + eur_amount).

(** [(wire_funds_total_usd, wire_funds_total_eur)] *)
Definition wire_funds_totals (tbl : gmap string Qc) (current_date : string)
    (wire_funds_transactions : list Transaction) : Qc * Qc :=
  fold_left (wire_funds_step tbl current_date) wire_funds_transactions (0, 0).

(** ** [get_net_dividends_by_symbol] *)

Module ShareLot.
Record t := {
  date : string;
  quantity : Qc;
  gross_dividends : Qc;
  source_tax : Qc
}.
End ShareLot.

(** [while remaining_to_sell > 0 and share_lots:] *)
Fixpoint sell_shares (remaining_to_sell : Qc) (share_lots : list ShareLot.t)
  : list ShareLot.t :=
  match share_lots with
  | [] => []
  | lot :: rest =>
      if Num.ltb 0 remaining_to_sell then
        if Num.leb (ShareLot.quantity lot) remaining_to_sell then
          sell_shares (remaining_to_sell - ShareLot.quantity lot) rest
        else
          let sold_ratio := remaining_to_sell / ShareLot.quantity lot in
          {| ShareLot.date := ShareLot.date lot;
             ShareLot.quantity := ShareLot.quantity lot - remaining_to_sell;
             ShareLot.gross_dividends := ShareLot.gross_dividends lot * (1 - sold_ratio);
             ShareLot.source_tax := ShareLot.source_tax lot * (1 - sold_ratio) |}
          :: rest
      else share_lots
  end.

Definition credit_lot (dividend_value total_shares : Qc) (lot : ShareLot.t)
  : ShareLot.t :=
  let lot_ratio := ShareLot.quantity lot / total_shares in
  let lot_dividend := dividend_value * lot_ratio in
  if Num.ltb 0 dividend_value then
    {| ShareLot.date := ShareLot.date lot;
       ShareLot.quantity := ShareLot.quantity lot;
       ShareLot.gross_dividends := ShareLot.gross_dividends lot + lot_dividend;
       ShareLot.source_tax := ShareLot.source_tax lot |}
  else
    {| ShareLot.date := ShareLot.date lot;
       ShareLot.quantity := ShareLot.quantity lot;
       ShareLot.gross_dividends := ShareLot.gross_dividends lot;
       ShareLot.source_tax := ShareLot.source_tax lot + Qcabs lot_dividend |}.

Definition pay_dividend (dividend_value : Qc) (share_lots : list ShareLot.t)
  : list ShareLot.t :=
  let total_shares := Num.sum (map ShareLot.quantity share_lots) in
  if Num.ltb 0 total_shares
  then map (credit_lot dividend_value total_shares) share_lots
  else share_lots.

(** One turn of [for trans in transactions:]. *)
Definition dividend_step (share_lots : list ShareLot.t) (trans : Transaction)
  : list ShareLot.t :=
  if String.eqb (Type_ trans) "Trade" then
    if is_text (Action trans) "BUY_TO_OPEN" then
      share_lots ++
        [{| ShareLot.date := Date trans;
            ShareLot.quantity := abs_or0 (Quantity trans);
            ShareLot.gross_dividends := 0;
            ShareLot.source_tax := 0 |}]
    else if is_text (Action trans) "SELL_TO_CLOSE" then
      sell_shares (abs_or0 (Quantity trans)) share_lots
    else share_lots
  else if String.eqb (Type_ trans) "Money Movement"
          && (is_text (Sub_Type trans) "Dividend"
              || match Sub_Type trans with None => true | Some _ => false end) then
    pay_dividend (Num.or0 (Value trans)) share_lots
  else share_lots.

Definition open_share_lots (transactions : list Transaction) : list ShareLot.t :=
  fold_left dividend_step transactions [].

Module DividendEntry.
Record t := { gross_dividends : Qc; source_tax : Qc; net_dividends : Qc }.
End DividendEntry.

(** The entry stored for one symbol, if any. *)
Definition symbol_dividends (transactions : list Transaction)
  : option DividendEntry.t :=
  let share_lots := open_share_lots transactions in
  let remaining_gross_dividends := Num.sum (map ShareLot.gross_dividends share_lots) in
  let remaining_source_tax := Num.sum (map ShareLot.source_tax share_lots) in
  let remaining_net_dividends := remaining_gross_dividends - remaining_source_tax in
  if Num.ltb 0 remaining_gross_dividends || Num.ltb 0 remaining_source_tax then
    Some {| DividendEntry.gross_dividends := remaining_gross_dividends;
            DividendEntry.source_tax := remaining_source_tax;
            DividendEntry.net_dividends := remaining_net_dividends |}
  else None.

(** [SELECT DISTINCT Symbol], in order of first occurrence. *)
Fixpoint distinct (l : list string) : list string :=
  match l with
  | [] => []
  | x :: r => x :: List.filter (fun y => negb (String.eqb x y)) (distinct r)
  end.

Definition get_net_dividends_by_symbol (db : list Transaction)
  : list (string * DividendEntry.t) :=
  let symbols :=
    distinct (map Symbol (List.filter (fun t => String.eqb (Type_ t) "Trade") db)) in
  flat_map
    (fun symbol =>
       match symbol_dividends
               (order_by_date (List.filter (fun t => String.eqb (Symbol t) symbol) db)) with
       | Some e => [(symbol, e)]
       | None => []
       end)
    symbols.

(** ** Open lots: the single pass of [calculate_unrealized_gains_losses]
    and the sell-by-sell pass of [PortfolioService._process_fifo_matching]

    Both passes run on the lot dictionaries with the keys [date],
    [quantity], [price], [total_cost] and [fees]; the dictionaries of
    [app.py] carry [asset_category] as well, which the loop neither reads
    nor changes. *)

Module Lot.
Record t := {
  date : string;
  quantity : Qc;
  price : Qc;
  total_cost : Qc;
  fees : Qc
}.
End Lot.

(** The head lot after [remaining_to_sell] units of it are sold. *)
Definition reduce_lot (buy : Lot.t) (remaining_to_sell : Qc) : Lot.t :=
  let q := Lot.quantity buy - remaining_to_sell in
  {| Lot.date := Lot.date buy;
     Lot.quantity := q;
     Lot.price := Lot.price buy;
     Lot.total_cost := (q / (q + remaining_to_sell)) * Lot.total_cost buy;
     Lot.fees := (q / (q + remaining_to_sell)) * Lot.fees buy |}.

(** [while remaining_to_sell > 0 and buys:], the same loop in both files. *)
Fixpoint remove_sold (remaining_to_sell : Qc) (buys : list Lot.t) : list Lot.t :=
  match buys with
  | [] => []
  | buy :: rest =>
      if Num.ltb 0 remaining_to_sell then
        if Num.leb (Lot.quantity buy) remaining_to_sell then
          remove_sold (remaining_to_sell - Lot.quantity buy) rest
        else reduce_lot buy remaining_to_sell :: rest
      else buys
  end.

(** [PortfolioService._process_fifo_matching(buys, sells)]: [sells] are the
    sell dictionaries, of which only [quantity] is read. *)
Definition _process_fifo_matching (buys : list Lot.t) (sells : list Lot.t)
  : list Lot.t :=
  fold_left (fun remaining_buys sell => remove_sold (Lot.quantity sell) remaining_buys)
    sells buys.

(** [calculate_unrealized_gains_losses] in [app.py]:
    [total_sold += abs(Quantity or 0)] over the closing rows, then one pass
    over the lots of the symbol. *)
Definition total_sold (sold : list (option Qc)) : Qc :=
  fold_left (fun acc q => acc + abs_or0 q) sold 0.


(** ** The realized EUR figures of the tax summary ([tax])

    [realized_gains_eur] and [realized_losses_eur] are [sum([...])] of the
    three category totals of the report, and the EUR net realized gain is
    their difference. *)

Definition realized_gains_eur (r : Report.t) : Qc :=
  Num.sum [Report.stock_gains_eur r; Report.option_gains_eur r; Report.other_gains_eur r].

Definition realized_losses_eur (r : Report.t) : Qc :=
  Num.sum [Report.stock_losses_eur r; Report.option_losses_eur r;
           Report.other_losses_eur r].

Definition net_realized_gain_loss_eur (r : Report.t) : Qc :=
  realized_gains_eur r - realized_losses_eur r.

(** ** [calculate_unrealized_gains_losses] of [app.py]

    The price of a symbol comes from outside the table: [market] stands for
    the usable result of [get_current_stock_price] (absent when it returns
    [None] or ['N/A']), [stored] for the cached price that is still fresh
    or else the last downloaded price of the database.  The dividend figures
    are those of [get_net_dividends_by_symbol]. *)

Module Holding.
Record t := {
  buys : list Lot.t;
  total_sold : Qc;
  asset_category : option string
}.
End Holding.

Definition lot_of_row (trans : Transaction) : Lot.t :=
  {| Lot.date := Date trans;
     Lot.quantity := abs_or0 (Quantity trans);
     Lot.price := abs_or0 (Average_Price trans);
     Lot.total_cost := abs_or0 (Total trans);
     Lot.fees := abs_or0 (Fees trans) + abs_or0 (Commissions trans) |}.

Definition add_lot (b : Lot.t) (h : Holding.t) : Holding.t :=
  {| Holding.buys := Holding.buys h ++ [b];
     Holding.total_sold := Holding.total_sold h;
     Holding.asset_category := Holding.asset_category h |}.

Definition add_sold (q : Qc) (h : Holding.t) : Holding.t :=
  {| Holding.buys := Holding.buys h;
     Holding.total_sold := Holding.total_sold h + q;
     Holding.asset_category := Holding.asset_category h |}.

(** One turn of [for trans in transactions:]. *)
Definition holdings_step (symbol_holdings : list (string * Holding.t))
    (trans : Transaction) : list (string * Holding.t) :=
  let symbol_key := Symbol trans in
  let d :=
    dict_setdefault symbol_key
      {| Holding.buys := []; Holding.total_sold := 0;
         Holding.asset_category := Asset_Category trans |}
      symbol_holdings in
  if is_text (Action trans) "BUY_TO_OPEN" then
    dict_update symbol_key (add_lot (lot_of_row trans)) d
  else if is_text (Action trans) "SELL_TO_CLOSE" then
    dict_update symbol_key (add_sold (abs_or0 (Quantity trans))) d
  else d.

Definition symbol_holdings (transactions : list Transaction)
  : list (string * Holding.t) :=
  fold_left holdings_step transactions [].

Module Position.
Record t := {
  symbol : string;
  quantity : Qc;
  avg_cost : Qc;
  current_price : Qc;
  cost_basis : Qc;
  current_value : Qc;
  unrealized_gain_loss : Qc;
  buy_date : string;
  net_dividends : Qc;
  adjusted_avg_cost : Qc;
  asset_category : option string
}.
End Position.

(** [min(...)] over a first date and the others. *)
Definition earliest (d : string) (l : list string) : string :=
  fold_left (fun m x => if String.ltb x m then x else m) l d.

(** The body of [for symbol_key, data in symbol_holdings.items():]: the
    position appended for the symbol, if any. *)
Definition position_of (price : string -> option Qc)
    (dividend_data : list (string * DividendEntry.t))
    (symbol_key : string) (data : Holding.t) : option Position.t :=
  let buys := remove_sold (Holding.total_sold data) (Holding.buys data) in
  match buys with
  | [] => None
  | first :: others =>
      let total_quantity := Num.sum (map Lot.quantity buys) in
      let total_symbol_cost_basis :=
        Num.sum (map (fun buy => Lot.total_cost buy + Lot.fees buy) buys) in
      if Num.ltb 0 total_quantity then
        let weighted_avg_cost := total_symbol_cost_basis / total_quantity in
        let current_price :=
          match price symbol_key with
          | Some p => p
          | None => weighted_avg_cost
          end in
        let current_value := total_quantity * current_price in
        let net_dividends :=
          match dict_get symbol_key dividend_data with
          | Some e => DividendEntry.net_dividends e
          | None => 0
          end in
        let dividends_per_share := net_dividends / total_quantity in
        Some {| Position.symbol := symbol_key;
                Position.quantity := total_quantity;
                Position.avg_cost := weighted_avg_cost;
                Position.current_price := current_price;
                Position.cost_basis := total_symbol_cost_basis;
                Position.current_value := current_value;
                Position.unrealized_gain_loss := current_value - total_symbol_cost_basis;
                Position.buy_date := earliest (Lot.date first) (map Lot.date others);
                Position.net_dividends := net_dividends;
                Position.adjusted_avg_cost := weighted_avg_cost - dividends_per_share;
                Position.asset_category := Holding.asset_category data |}
      else None
  end.

(** [(unrealized_positions, total_unrealized_value, total_cost_basis)]
    after one symbol. *)
Definition unrealized_step (price : string -> option Qc)
    (dividend_data : list (string * DividendEntry.t))
    (st : list Position.t * Qc * Qc) (kd : string * Holding.t)
  : list Position.t * Qc * Qc :=
  let '(unrealized_positions, total_unrealized_value, total_cost_basis) := st in
  match position_of price dividend_data (fst kd) (snd kd) with
  | Some p =>
      (unrealized_positions ++ [p],
       total_unrealized_value + Position.current_value p,
       total_cost_basis + Position.cost_basis p)
  | None => st
  end.

Module Unrealized.
Record t := {
  total_unrealized_gain_loss : Qc;
  total_cost_basis : Qc;
  total_current_value : Qc;
  positions : list Position.t
}.
End Unrealized.

(** The rows read by the query: trades, of the symbol if one is given. *)
Definition unrealized_query (symbol : option string) (trans : Transaction) : bool :=
  String.eqb (Type_ trans) "Trade"
  && match symbol with
     | Some s => if String.eqb s "" then true else String.eqb (Symbol trans) s
     | None => true
     end.

Definition calculate_unrealized_gains_losses (market stored : string -> option Qc)
    (db : list Transaction) (symbol : option string) (fetch_current_prices : bool)
  : Unrealized.t :=
  let transactions := order_by_date (List.filter (unrealized_query symbol) db) in
  let dividend_data := get_net_dividends_by_symbol db in
  let price := if fetch_current_prices then market else stored in
  let '(unrealized_positions, total_unrealized_value, total_cost_basis) :=
    fold_left (unrealized_step price dividend_data)
      (symbol_holdings transactions) ([], 0, 0) in
  {| Unrealized.total_unrealized_gain_loss := total_unrealized_value - total_cost_basis;
     Unrealized.total_cost_basis := total_cost_basis;
     Unrealized.total_current_value := total_unrealized_value;
     Unrealized.positions := unrealized_positions |}.

(** ** The service classes: [TaxService] and [PortfolioService]

    Both services read the trade rows into dictionaries with
    [float(x) if x else 0], group them by symbol and split them with
    [action.upper()].  [upper] stands for [str.upper]; a row whose [Action]
    is NULL makes [.upper()] raise, which ends the whole call: the results
    are [option]s, [None] for the exception. *)

Module Service.

(** [transaction_data] of [_separate_buy_sell_transactions], on the row
    read by [_get_trade_transactions]. *)
Definition transaction_data (trans : Transaction) : Lot.t :=
  {| Lot.date := Date trans;
     Lot.quantity := Num.or0 (Quantity trans);
     Lot.price := Num.or0 (Average_Price trans);
     Lot.total_cost := Qcabs (Num.or0 (Total trans));
     Lot.fees := Num.or0 (Fees trans) + Num.or0 (Commissions trans) |}.

Definition group_step (positions_by_symbol : list (string * list Transaction))
    (transaction : Transaction) : list (string * list Transaction) :=
  dict_update (Symbol transaction) (fun l => l ++ [transaction])
    (dict_setdefault (Symbol transaction) [] positions_by_symbol).

Definition _group_transactions_by_symbol (transactions : list Transaction)
  : list (string * list Transaction) :=
  fold_left group_step transactions [].

Fixpoint _separate_buy_sell_transactions (upper : string -> string)
    (transactions : list Transaction) : option (list Lot.t * list Lot.t) :=
  match transactions with
  | [] => Some ([], [])
  | transaction :: rest =>
      match Action transaction with
      | None => None
      | Some action =>
          match _separate_buy_sell_transactions upper rest with
          | None => None
          | Some (buys, sells) =>
              if existsb (String.eqb (upper action)) ["BUY"; "DEPOSIT"]%string then
                Some (transaction_data transaction :: buys, sells)
              else if existsb (String.eqb (upper action)) ["SELL"; "WITHDRAWAL"]%string then
                Some (buys, transaction_data transaction :: sells)
              else Some (buys, sells)
          end
      end
  end.

(** [WHERE Type = 'Trade'], with [AND substr(Date, 1, 4) = ?] for a year. *)
Definition trade_query (year : option string) (current_year : string)
    (trans : Transaction) : bool :=
  String.eqb (Type_ trans) "Trade"
  && match year_param year current_year with
     | Some y => String.eqb (String.substring 0 4 (Date trans)) y
     | None => true
     end.

End Service.

Module Realized.
Record t := {
  symbol : string;
  buy_date : string;
  sell_date : string;
  quantity : Qc;
  buy_price : Qc;
  sell_price : Qc;
  cost_basis : Qc;
  proceeds : Qc;
  gain_loss_eur : Qc;
  gain_loss_usd : Qc
}.
End Realized.

Module SymbolRealized.
Record t := {
  transactions : list Realized.t;
  gains_eur : Qc;
  gains_usd : Qc;
  losses_eur : Qc;
  losses_usd : Qc
}.

Definition init : t :=
  {| transactions := []; gains_eur := 0; gains_usd := 0;
     losses_eur := 0; losses_usd := 0 |}.
End SymbolRealized.

Module TaxReport.
Record t := {
  realized_gains_eur : Qc;
  realized_gains_usd : Qc;
  realized_losses_eur : Qc;
  realized_losses_usd : Qc;
  net_realized_eur : Qc;
  net_realized_usd : Qc;
  transactions : list Realized.t
}.
End TaxReport.

Module TaxService.

(** Truthiness of [year]: [None] and the empty text are falsy. *)
Definition year_given (year : option string) : bool :=
  match year with
  | None => false
  | Some y => negb (String.eqb y "")
  end.

Definition _is_transaction_in_period (current_year : string)
    (transaction_date : string) (year : option string) : bool :=
  match year with
  | None => true
  | Some y =>
      if String.eqb y "" then true
      else
        let transaction_year := String.substring 0 4 transaction_date in
        if String.eqb y "ytd" then String.eqb transaction_year current_year
        else String.eqb transaction_year y
  end.

(** The totals and the appended dictionary of one turn of the loop. *)
Definition book (symbol : string) (buy sell : Lot.t)
    (sold_quantity cost_basis : Qc) (acc : SymbolRealized.t) : SymbolRealized.t :=
  let sell_price_per_share := Lot.price sell in
  let proceeds := sold_quantity * sell_price_per_share in
  let gain_loss_eur := proceeds - cost_basis in
  let gain_loss_usd := gain_loss_eur in
  let tx :=
    {| Realized.symbol := symbol;
       Realized.buy_date := Lot.date buy;
       Realized.sell_date := Lot.date sell;
       Realized.quantity := sold_quantity;
       Realized.buy_price := Lot.price buy;
       Realized.sell_price := sell_price_per_share;
       Realized.cost_basis := cost_basis;
       Realized.proceeds := proceeds;
       Realized.gain_loss_eur := gain_loss_eur;
       Realized.gain_loss_usd := gain_loss_usd |} in
  if Num.ltb 0 gain_loss_eur then
    {| SymbolRealized.transactions := SymbolRealized.transactions acc ++ [tx];
       SymbolRealized.gains_eur := SymbolRealized.gains_eur acc + gain_loss_eur;
       SymbolRealized.gains_usd := SymbolRealized.gains_usd acc + gain_loss_usd;
       SymbolRealized.losses_eur := SymbolRealized.losses_eur acc;
       SymbolRealized.losses_usd := SymbolRealized.losses_usd acc |}
  else
    {| SymbolRealized.transactions := SymbolRealized.transactions acc ++ [tx];
       SymbolRealized.gains_eur := SymbolRealized.gains_eur acc;
       SymbolRealized.gains_usd := SymbolRealized.gains_usd acc;
       SymbolRealized.losses_eur := SymbolRealized.losses_eur acc + gain_loss_eur;
       SymbolRealized.losses_usd := SymbolRealized.losses_usd acc + gain_loss_usd |}.

(** [while remaining_to_sell > 0 and buys:] for one [sell]. *)
Fixpoint sell_realized (symbol : string) (sell : Lot.t) (remaining_to_sell : Qc)
    (buys : list Lot.t) (acc : SymbolRealized.t) : list Lot.t * SymbolRealized.t :=
  match buys with
  | [] => (buys, acc)
  | buy :: rest =>
      if Num.ltb 0 remaining_to_sell then
        if Num.leb (Lot.quantity buy) remaining_to_sell then
          let sold_quantity := Lot.quantity buy in
          let cost_basis := Lot.total_cost buy + Lot.fees buy in
          sell_realized symbol sell (remaining_to_sell - Lot.quantity buy) rest
            (book symbol buy sell sold_quantity cost_basis acc)
        else
          let sold_quantity := remaining_to_sell in
          let proportion := sold_quantity / Lot.quantity buy in
          let cost_basis := (Lot.total_cost buy + Lot.fees buy) * proportion in
          ({| Lot.date := Lot.date buy;
              Lot.quantity := Lot.quantity buy - remaining_to_sell;
              Lot.price := Lot.price buy;
              Lot.total_cost := Lot.total_cost buy * (1 - proportion);
              Lot.fees := Lot.fees buy * (1 - proportion) |} :: rest,
           book symbol buy sell sold_quantity cost_basis acc)
      else (buys, acc)
  end.

(** One turn of [for sell in sells:], with its [continue]. *)
Definition sell_step (current_year : string) (symbol : string) (year : option string)
    (st : list Lot.t * SymbolRealized.t) (sell : Lot.t)
  : list Lot.t * SymbolRealized.t :=
  if year_given year
     && negb (_is_transaction_in_period current_year (Lot.date sell) year)
  then st
  else sell_realized symbol sell (Lot.quantity sell) (fst st) (snd st).

Definition _calculate_symbol_realized_gains (upper : string -> string)
    (current_year : string) (symbol : string) (transactions : list Transaction)
    (year : option string) : option SymbolRealized.t :=
  match Service._separate_buy_sell_transactions upper transactions with
  | None => None
  | Some (buys, sells) =>
      Some (snd (fold_left (sell_step current_year symbol year) sells
                   (buys, SymbolRealized.init)))
  end.

(** The running totals of [calculate_realized_gains_losses] after one
    symbol. *)
Definition add_symbol (symbol_realized acc : SymbolRealized.t) : SymbolRealized.t :=
  {| SymbolRealized.transactions :=
       SymbolRealized.transactions acc ++ SymbolRealized.transactions symbol_realized;
     SymbolRealized.gains_eur :=
       SymbolRealized.gains_eur acc + SymbolRealized.gains_eur symbol_realized;
     SymbolRealized.gains_usd :=
       SymbolRealized.gains_usd acc + SymbolRealized.gains_usd symbol_realized;
     SymbolRealized.losses_eur :=
       SymbolRealized.losses_eur acc + SymbolRealized.losses_eur symbol_realized;
     SymbolRealized.losses_usd :=
       SymbolRealized.losses_usd acc + SymbolRealized.losses_usd symbol_realized |}.

Fixpoint over_symbols (upper : string -> string) (current_year : string)
    (year : option string) (positions_by_symbol : list (string * list Transaction))
    (acc : SymbolRealized.t) : option SymbolRealized.t :=
  match positions_by_symbol with
  | [] => Some acc
  | (symbol, symbol_transactions) :: rest =>
      match _calculate_symbol_realized_gains upper current_year symbol
              symbol_transactions year with
      | None => None
      | Some symbol_realized =>
          over_symbols upper current_year year rest (add_symbol symbol_realized acc)
      end
  end.

(** [calculate_realized_gains_losses(year)]; the ['dividend_data'] entry of
    the result, which no total depends on, is left out. *)
Definition calculate_realized_gains_losses (upper : string -> string)
    (current_year : string) (db : list Transaction) (year : option string)
  : option TaxReport.t :=
  let transactions :=
    order_by_date (List.filter (Service.trade_query year current_year) db) in
  let positions_by_symbol := Service._group_transactions_by_symbol transactions in
  match over_symbols upper current_year year positions_by_symbol SymbolRealized.init with
  | None => None
  | Some totals =>
      Some {| TaxReport.realized_gains_eur := SymbolRealized.gains_eur totals;
              TaxReport.realized_gains_usd := SymbolRealized.gains_usd totals;
              TaxReport.realized_losses_eur := Qcabs (SymbolRealized.losses_eur totals);
              TaxReport.realized_losses_usd := Qcabs (SymbolRealized.losses_usd totals);
              TaxReport.net_realized_eur :=
                SymbolRealized.gains_eur totals + SymbolRealized.losses_eur totals;
              TaxReport.net_realized_usd :=
                SymbolRealized.gains_usd totals + SymbolRealized.losses_usd totals;
              TaxReport.transactions := SymbolRealized.transactions totals |}
  end.

End TaxService.

Module PositionData.
Record t := {
  symbol : string;
  quantity : Qc;
  avg_cost : Qc;
  current_price : Qc;
  cost_basis : Qc;
  current_value : Qc;
  unrealized_gain_loss : Qc;
  buy_date : string;
  net_dividends : Qc;
  adjusted_avg_cost : Qc
}.
End PositionData.

Module PortfolioReport.
Record t := {
  total_unrealized_gain_loss : Qc;
  total_cost_basis : Qc;
  total_current_value : Qc;
  positions : list PositionData.t
}.
End PortfolioReport.

Module PortfolioService.

(** [_get_current_price]: [cached] is the price of a cache entry that is
    still fresh, [db_price] the result of [get_last_stock_price]. *)
Definition _get_current_price (cached db_price : string -> option Qc)
    (symbol : string) (fallback_price : Qc) (fetch_current_prices : bool) : Qc :=
  if fetch_current_prices then fallback_price
  else
    match cached symbol with
    | Some price => price
    | None =>
        match db_price symbol with
        | Some price => price
        | None => fallback_price
        end
    end.

(** [_get_dividend_data], read at one symbol:
    [dividend_data.get(symbol, {}).get('net_dividends', 0)]. *)
Definition net_dividends_of (db : list Transaction) (symbol : string) : Qc :=
  Num.sum
    (map (fun t => Num.or0 (Total t))
       (List.filter
          (fun t => String.eqb (Type_ t) "Money Movement"
                    && is_text (Sub_Type t) "Dividend"
                    && String.eqb (Symbol t) symbol)
          db)).

Definition _build_position_data (cached db_price : string -> option Qc)
    (db : list Transaction) (symbol : string) (first : Lot.t) (others : list Lot.t)
    (fetch_current_prices : bool) : option PositionData.t :=
  let buys := first :: others in
  let total_quantity := Num.sum (map Lot.quantity buys) in
  let total_cost_basis :=
    Num.sum (map (fun buy => Lot.total_cost buy + Lot.fees buy) buys) in
  if Num.leb total_quantity 0 then None
  else
    let weighted_avg_cost := total_cost_basis / total_quantity in
    let current_price :=
      _get_current_price cached db_price symbol weighted_avg_cost
        fetch_current_prices in
    let current_value := total_quantity * current_price in
    let net_dividends := net_dividends_of db symbol in
    let dividends_per_share := net_dividends / total_quantity in
    Some {| PositionData.symbol := symbol;
            PositionData.quantity := total_quantity;
            PositionData.avg_cost := weighted_avg_cost;
            PositionData.current_price := current_price;
            PositionData.cost_basis := total_cost_basis;
            PositionData.current_value := current_value;
            PositionData.unrealized_gain_loss := current_value - total_cost_basis;
            PositionData.buy_date := earliest (Lot.date first) (map Lot.date others);
            PositionData.net_dividends := net_dividends;
            PositionData.adjusted_avg_cost := weighted_avg_cost - dividends_per_share |}.

(** [_calculate_symbol_position]: the outer [option] is the exception, the
    inner one the [None] returned for a symbol without position. *)
Definition _calculate_symbol_position (upper : string -> string)
    (cached db_price : string -> option Qc) (db : list Transaction)
    (symbol : string) (transactions : list Transaction)
    (fetch_current_prices : bool) : option (option PositionData.t) :=
  match Service._separate_buy_sell_transactions upper transactions with
  | None => None
  | Some (buys, sells) =>
      match _process_fifo_matching buys sells with
      | [] => Some None
      | first :: others =>
          Some (_build_position_data cached db_price db symbol first others
                  fetch_current_prices)
      end
  end.

Fixpoint over_symbols (upper : string -> string)
    (cached db_price : string -> option Qc) (db : list Transaction)
    (fetch_current_prices : bool)
    (positions_by_symbol : list (string * list Transaction))
    (st : list PositionData.t * Qc * Qc) : option (list PositionData.t * Qc * Qc) :=
  match positions_by_symbol with
  | [] => Some st
  | (symbol, symbol_transactions) :: rest =>
      let '(unrealized_positions, total_cost_basis, total_unrealized_value) := st in
      match _calculate_symbol_position upper cached db_price db symbol
              symbol_transactions fetch_current_prices with
      | None => None
      | Some None =>
          over_symbols upper cached db_price db fetch_current_prices rest st
      | Some (Some position_data) =>
          over_symbols upper cached db_price db fetch_current_prices rest
            (unrealized_positions ++ [position_data],
             total_cost_basis + PositionData.cost_basis position_data,
             total_unrealized_value + PositionData.current_value position_data)
      end
  end.

Definition calculate_unrealized_gains_losses (upper : string -> string)
    (cached db_price : string -> option Qc) (db : list Transaction)
    (fetch_current_prices : bool) : option PortfolioReport.t :=
  let transactions :=
    order_by_date (List.filter (fun t => String.eqb (Type_ t) "Trade") db) in
  let positions_by_symbol := Service._group_transactions_by_symbol transactions in
  match over_symbols upper cached db_price db fetch_current_prices
          positions_by_symbol ([], 0, 0) with
  | None => None
  | Some (unrealized_positions, total_cost_basis, total_unrealized_value) =>
      Some {| PortfolioReport.total_unrealized_gain_loss :=
                total_unrealized_value - total_cost_basis;
              PortfolioReport.total_cost_basis := total_cost_basis;
              PortfolioReport.total_current_value := total_unrealized_value;
              PortfolioReport.positions := unrealized_positions |}
  end.

End PortfolioService.

(** ** [get_fees_data] and [get_dividend_data]

    The totals of the two functions; the per-symbol lists of
    [get_dividend_data], which no total depends on, are left out.  The EUR
    loops look the rate up under the whole [Date] text. *)

(** [substr(Date, 1, 4) = ?], when a year is given. *)
Definition in_year (year : option string) (current_year : string)
    (trans : Transaction) : bool :=
  match year_param year current_year with
  | Some y => String.eqb (String.substring 0 4 (Date trans)) y
  | None => true
  end.

Definition not_null (x : option Qc) : bool :=
  match x with Some _ => true | None => false end.

(** [eur_rate = get_exchange_rate(date)] and, if it is truthy,
    [total += amount / eur_rate]. *)
Definition add_eur (tbl : gmap string Qc) (date : string) (amount total : Qc) : Qc :=
  let eur_rate := get_exchange_rate tbl date in
  if Num.truthy eur_rate then total + amount / Num.or0 eur_rate else total.

Module FeesData.
Record t := { total_fees : Qc; total_fees_eur : Qc }.
End FeesData.

Definition get_fees_data (tbl : gmap string Qc) (current_year : string)
    (db : list Transaction) (year : option string) : FeesData.t :=
  let rows := List.filter (in_year year current_year) db in
  let total_fees := Num.sum (map (fun t => abs_or0 (Fees t)) rows) in
  let total_commissions := Num.sum (map (fun t => abs_or0 (Commissions t)) rows) in
  let fee_transactions :=
    List.filter (fun t => not_null (Fees t) || not_null (Commissions t)) rows in
  {| FeesData.total_fees := total_fees + total_commissions;
     FeesData.total_fees_eur :=
       fold_left
         (fun total_fees_eur transaction =>
            let fees := abs_or0 (Fees transaction) in
            let commissions := abs_or0 (Commissions transaction) in
            add_eur tbl (Date transaction) (fees + commissions) total_fees_eur)
         fee_transactions 0 |}.

Module DividendData.
Record t := {
  total_dividends : Qc;
  total_dividends_eur : Qc;
  total_source_tax : Qc;
  total_source_tax_eur : Qc
}.
End DividendData.

(** [Type = 'Money Movement' AND Sub_Type = 'Dividend'], and the year. *)
Definition dividend_query (year : option string) (current_year : string)
    (trans : Transaction) : bool :=
  String.eqb (Type_ trans) "Money Movement"
  && is_text (Sub_Type trans) "Dividend"
  && in_year year current_year trans.

(** [Value > 0] and [Value < 0]; a NULL value satisfies neither. *)
Definition value_positive (trans : Transaction) : bool :=
  match Value trans with Some v => Num.ltb 0 v | None => false end.

Definition value_negative (trans : Transaction) : bool :=
  match Value trans with Some v => Num.ltb v 0 | None => false end.

Definition get_dividend_data (tbl : gmap string Qc) (current_year : string)
    (db : list Transaction) (year : option string) : DividendData.t :=
  let base := List.filter (dividend_query year current_year) db in
  let positive_transactions := List.filter value_positive base in
  let negative_transactions := List.filter value_negative base in
  {| DividendData.total_dividends :=
       Num.sum (map (fun t => Num.or0 (Value t)) positive_transactions);
     DividendData.total_dividends_eur :=
       fold_left
         (fun total_dividends_eur transaction =>
            add_eur tbl (Date transaction) (Num.or0 (Value transaction))
              total_dividends_eur)
         positive_transactions 0;
     DividendData.total_source_tax :=
       Num.sum (map (fun t => Qcabs (Num.or0 (Value t))) negative_transactions);
     DividendData.total_source_tax_eur :=
       fold_left
         (fun total_source_tax_eur transaction =>
            add_eur tbl (Date transaction) (Qcabs (Num.or0 (Value transaction)))
              total_source_tax_eur)
         negative_transactions 0 |}.

(** ** [get_available_tax_years]

    [transaction_years] is the list built from the table by the list
    comprehension, [current_year] the year of the clock. *)

(** [range(start, stop, -1)] *)
Definition range_down (start stop : Z) : list Z :=
  map (fun i => (start - Z.of_nat i)%Z) (seq 0 (Z.to_nat (start - stop))).

Definition get_available_tax_years (current_year : Z) (transaction_years : list Z)
    (max_years : Z) : list Z :=
  let earliest_year :=
    match transaction_years with
    | [] => current_year
    | y :: others => fold_left Z.min others y
    end in
  let start_year := Z.max earliest_year (current_year - max_years + 1) in
  List.filter
    (fun year => Z.eqb year current_year || existsb (Z.eqb year) transaction_years)
    (range_down current_year (start_year - 1)).

(** ** [sanitize_input]

    A text is the list of its code points; [is_space] stands for the
    characters that [str.strip] removes. *)

Definition dangerous_chars : list N :=
  [60; 62; 34; 39; 38; 59; 123; 125; 91; 93]%N.

Fixpoint lstrip (is_space : N -> bool) (value : list N) : list N :=
  match value with
  | [] => []
  | c :: rest => if is_space c then lstrip is_space rest else value
  end.

Definition strip (is_space : N -> bool) (value : list N) : list N :=
  rev (lstrip is_space (rev (lstrip is_space value))).

(** [value.replace(char, '')] for a one-character [char]. *)
Definition remove_char (value : list N) (char : N) : list N :=
  List.filter (fun c => negb (N.eqb c char)) value.

Definition sanitize_input (is_space : N -> bool) (value : list N) : list N :=
  match value with
  | [] => value
  | _ =>
      let value := strip is_space value in
      let value := fold_left remove_char dangerous_chars value in
      if (500 <? length value)%nat then firstn 500 value else value
  end.

(** ** The pages of [transactions]

    [rows] stands for the rows that the filters select, in the order of the
    query; the count of the page is their number. *)

(** [LIMIT per_page OFFSET (page - 1) * per_page]: SQLite reads a negative
    limit as no limit and a negative offset as zero. *)
Definition page_rows {A : Type} (rows : list A) (page per_page : Z) : list A :=
  let after := skipn (Z.to_nat ((page - 1) * per_page)) rows in
  if (per_page <? 0)%Z then after else firstn (Z.to_nat per_page) after.

Module Pagination.
Record t := { total_pages : Z; has_prev : bool; has_next : bool }.
End Pagination.

(** The pagination info; [None] is the [ZeroDivisionError] of
    [// per_page]. *)
Definition pagination (total_records page per_page : Z) : option Pagination.t :=
  if (per_page =? 0)%Z then None
  else
    let total_pages := ((total_records + per_page - 1) / per_page)%Z in
    Some {| Pagination.total_pages := total_pages;
            Pagination.has_prev := (1 <? page)%Z;
            Pagination.has_next := (page <? total_pages)%Z |}.

(** ** Notions used to state the properties *)

(** What one row does to the entry of its own symbol in
    [_group_transactions_by_symbol]. *)
Definition symbol_step (entry : option SymbolData.t) (trans : Transaction)
  : option SymbolData.t :=
  let d :=
    default {| SymbolData.buys := []; SymbolData.sells := [];
               SymbolData.asset_category := Asset_Category trans |} entry in
  Some (if text_in (Action trans) ["BUY_TO_OPEN"; "BUY_TO_CLOSE"]%string then
          append_buy (buy_of_row trans) d
        else if text_in (Action trans) ["SELL_TO_CLOSE"; "SELL_TO_OPEN"]%string then
          append_sell (sell_of_row trans) d
        else d).

(** The rows of one symbol, in the order of the stream. *)
Definition rows_of (symbol : string) (db : list Transaction) : list Transaction :=
  List.filter (fun t => String.eqb (Symbol t) symbol) db.

(** Dates [t1 < t2 < ...] along a list of rows. *)
Fixpoint increasing_dates (l : list Transaction) : Prop :=
  match l with
  | [] => True
  | t :: r =>
      match r with
      | [] => True
      | t' :: _ => date_lt (Date t) (Date t')
      end /\ increasing_dates r
  end.


(** The first four characters of a date: [substr(Date, 1, 4)]. *)
Definition year_of (date : string) : string := String.substring 0 4 date.

(** Every lot of an entry satisfies [I] and every closing record [J]. *)
Definition data_ok (I : Buy.t -> Prop) (J : Sell.t -> Prop)
    (kd : string * SymbolData.t) : Prop :=
  Forall I (SymbolData.buys (snd kd)) /\ Forall J (SymbolData.sells (snd kd)).


(** The fields of a match that are in USD or carry no amount. *)
Definition usd_view (m : Match.t) :=
  (Match.symbol m, Match.buy_date m, Match.sell_date m, Match.quantity m,
   Match.buy_price m, Match.sell_price m, Match.cost_basis m, Match.proceeds m,
   Match.gain_loss m, Match.asset_category m).

(** What the code does for a match when a date has no rate. *)
Definition falls_back_to_usd (tbl : gmap string Qc) (m : Match.t) : Prop :=
  (get_exchange_rate tbl (String.substring 0 10 (Match.buy_date m)) = None ->
   Match.cost_basis_eur m = Match.cost_basis m /\
   Match.buy_price_eur m = Match.buy_price m) /\
  (get_exchange_rate tbl (String.substring 0 10 (Match.sell_date m)) = None ->
   Match.proceeds_eur m = Match.proceeds m /\
   Match.sell_price_eur m = Match.sell_price m) /\
  (get_exchange_rate tbl (String.substring 0 10 (Match.buy_date m)) = None ->
   get_exchange_rate tbl (String.substring 0 10 (Match.sell_date m)) = None ->
   Match.gain_loss_eur m = Match.gain_loss m).

(** The EUR fields of a match are exact quotients by the rates used. *)
Definition eur_unrounded (tbl : gmap string Qc) (m : Match.t) : Prop :=
  Match.cost_basis_eur m * rate_or_one tbl (Match.buy_date m) = Match.cost_basis m /\
  Match.proceeds_eur m * rate_or_one tbl (Match.sell_date m) = Match.proceeds m /\
  Match.gain_loss_eur m = Match.proceeds_eur m - Match.cost_basis_eur m.








(** The running totals agree with each other and with the matches
    recorded so far. *)
Definition totals_consistent (acc : Acc.t) : Prop :=
  Acc.total_gains acc
  = Acc.stock_gains acc + Acc.option_gains acc + Acc.other_gains acc /\
  Acc.total_losses acc
  = Acc.stock_losses acc + Acc.option_losses acc + Acc.other_losses acc /\
  Acc.total_gains acc - Acc.total_losses acc
  = Num.sum (map Match.gain_loss (Acc.detailed_transactions acc)) /\
  0 <= Acc.stock_gains acc /\ 0 <= Acc.option_gains acc /\ 0 <= Acc.other_gains acc /\
  0 <= Acc.stock_losses acc /\ 0 <= Acc.option_losses acc /\ 0 <= Acc.other_losses acc.

(** The rows that [_group_transactions_by_symbol] keeps as lots and as
    closing records. *)
Definition is_buy_row (t : Transaction) : bool :=
  text_in (Action t) ["BUY_TO_OPEN"; "BUY_TO_CLOSE"]%string.

Definition is_sell_row (t : Transaction) : bool :=
  text_in (Action t) ["SELL_TO_CLOSE"; "SELL_TO_OPEN"]%string.

(** Where a match of the report comes from: an opening and a closing row
    of the table, both read by the query and both of the symbol of the
    match. *)
Definition match_from_rows (db : list Transaction) (cond : Transaction -> bool)
    (m : Match.t) : Prop :=
  exists tb ts,
    In tb db /\ In ts db /\ cond tb = true /\ cond ts = true /\
    Symbol tb = Match.symbol m /\ Symbol ts = Match.symbol m /\
    is_buy_row tb = true /\ is_sell_row ts = true /\
    Match.buy_date m = Date tb /\ Match.sell_date m = Date ts /\
    Match.asset_category m = Asset_Category tb /\
    Match.buy_price m = abs_or0 (Average_Price tb) /\
    Match.sell_price m = abs_or0 (Average_Price ts).

(** A property of the lots and one of the closing records of an entry,
    both knowing the symbol of the entry. *)
Definition keyed_data_ok (I : string -> Buy.t -> Prop) (J : string -> Sell.t -> Prop)
    (kd : string * SymbolData.t) : Prop :=
  Forall (I (fst kd)) (SymbolData.buys (snd kd)) /\
  Forall (J (fst kd)) (SymbolData.sells (snd kd)).

(** The EUR amount of one wire deposit before rounding: the quotient by
    the rate of its day, and nothing when there is no usable rate. *)
Definition wire_eur_exact (tbl : gmap string Qc) (current_date : string)
    (t : Transaction) : Qc :=
  let rate := get_exchange_rate tbl (wire_date current_date t) in
  if Num.truthy rate then Num.or0 (Value t) / Num.or0 rate else 0.

(** [n] times half a cent. *)
Definition half_cents (n : nat) : Qc := Q2Qc (Z.of_nat n # 200).

(** The rows that [get_net_dividends_by_symbol] reads as dividends, what a
    row pays when its value is positive and what it withholds otherwise. *)
Definition is_dividend_row (t : Transaction) : bool :=
  String.eqb (Type_ t) "Money Movement"
  && (is_text (Sub_Type t) "Dividend"
      || match Sub_Type t with None => true | Some _ => false end).

Definition dividend_received (t : Transaction) : Qc :=
  if is_dividend_row t && Num.ltb 0 (Num.or0 (Value t)) then Num.or0 (Value t) else 0.

Definition tax_withheld (t : Transaction) : Qc :=
  if is_dividend_row t && negb (Num.ltb 0 (Num.or0 (Value t)))
  then Qcabs (Num.or0 (Value t)) else 0.

Definition lot_ok (lot : ShareLot.t) : Prop :=
  0 <= ShareLot.quantity lot /\ 0 <= ShareLot.gross_dividends lot /\
  0 <= ShareLot.source_tax lot.





Definition sold (symbol : string) (rows : list Transaction) : Qc :=
  Num.sum (map (fun t => abs_or0 (Quantity t))
             (List.filter (fun t => is_text (Action t) "SELL_TO_CLOSE")
                (rows_of symbol rows))).


(** What [TaxService] records of one match, and of its totals: the EUR
    and USD figures are the same numbers. *)
Definition realized_ok (tx : Realized.t) : Prop :=
  Realized.gain_loss_eur tx = Realized.gain_loss_usd tx /\
  Realized.gain_loss_usd tx = Realized.proceeds tx - Realized.cost_basis tx /\
  Realized.proceeds tx = Realized.quantity tx * Realized.sell_price tx.

Definition symbol_realized_ok (acc : SymbolRealized.t) : Prop :=
  SymbolRealized.gains_eur acc = SymbolRealized.gains_usd acc /\
  SymbolRealized.losses_eur acc = SymbolRealized.losses_usd acc /\
  0 <= SymbolRealized.gains_eur acc /\
  SymbolRealized.losses_eur acc <= 0 /\
  SymbolRealized.gains_eur acc + SymbolRealized.losses_eur acc
  = Num.sum (map Realized.gain_loss_eur (SymbolRealized.transactions acc)) /\
  Forall realized_ok (SymbolRealized.transactions acc).



(** An action that the services read neither as a buy nor as a sell. *)
Definition unread_action (upper : string -> string) (t : Transaction) : bool :=
  match Action t with
  | Some a =>
      negb (existsb (String.eqb (upper a)) ["BUY"; "DEPOSIT"; "SELL"; "WITHDRAWAL"]%string)
  | None => false
  end.

(** The fees and commissions of a row, in absolute value. *)
Definition row_fees (t : Transaction) : Qc :=
  abs_or0 (Fees t) + abs_or0 (Commissions t).

(** An amount in EUR at the rate found for a date; nothing without a
    usable rate. *)
Definition eur_or_nothing (tbl : gmap string Qc) (date : string) (amount : Qc) : Qc :=
  let eur_rate := get_exchange_rate tbl date in
  if Num.truthy eur_rate then amount / Num.or0 eur_rate else 0.

(** The rate found for the date of a row lies between two bounds. *)
Definition rate_between (tbl : gmap string Qc) (lo hi : Qc) (t : Transaction) : Prop :=
  match get_exchange_rate tbl (Date t) with
  | Some r => lo <= r /\ r <= hi
  | None => False
  end.

(** Years in strictly descending order. *)
Fixpoint descending (l : list Z) : Prop :=
  match l with
  | [] => True
  | x :: r => Forall (fun y => (y < x)%Z) r /\ descending r
  end.

(** Rows in ascending order of their date text. *)
Fixpoint sorted_by_date (l : list Transaction) : Prop :=
  match l with
  | [] => True
  | x :: r => Forall (fun y => date_le (Date x) (Date y)) r /\ sorted_by_date r
  end.

(** The matches of one symbol, as the matcher finds them from empty
    totals. *)
Definition symbol_matches (tbl : gmap string Qc) (kd : string * SymbolData.t)
  : list Match.t :=
  Acc.detailed_transactions (snd (process_symbol tbl (fst kd) (snd kd) Acc.init)).

(** The two overall totals as sums over the listed matches. *)
Definition totals_closed (acc : Acc.t) : Prop :=
  Acc.total_gains acc
  = sum_where (fun m => Num.ltb 0 (Match.gain_loss m)) Match.gain_loss
      (Acc.detailed_transactions acc) /\
  Acc.total_losses acc
  = sum_where (fun m => negb (Num.ltb 0 (Match.gain_loss m)))
      (fun m => Qcabs (Match.gain_loss m)) (Acc.detailed_transactions acc).

(** ** Sample rows *)

Definition trade (date symbol action : string) (qty price total : Q) : Transaction :=
  {| Date := date; Type_ := "Trade"; Sub_Type := None; Symbol := symbol;
     Action := Some action; Quantity := Some (Q2Qc qty);
     Average_Price := Some (Q2Qc price); Total := Some (Q2Qc total);
     Value := Some (Q2Qc total); Fees := None; Commissions := None;
     Asset_Category := Some "Stock"%string |}.


(** Two lots of one symbol, then a close of 40, and the same with a close
    of quantity 0. *)
Definition lot_100 : Transaction := trade "2024-01-01" "AAPL" "BUY_TO_OPEN" 100 10 (-1000).
Definition lot_50 : Transaction := trade "2024-01-02" "AAPL" "BUY_TO_OPEN" 50 12 (-600).
Definition close_40 : Transaction := trade "2024-01-03" "AAPL" "SELL_TO_CLOSE" 40 15 600.
Definition close_0 : Transaction := trade "2024-01-03" "AAPL" "SELL_TO_CLOSE" 0 15 0.

(** A row that buys back one short option contract. *)
Definition buy_to_close_row : Transaction :=
  trade "2024-02-01" "AAPL  240216C00150000" "BUY_TO_CLOSE" 1 2 (-200).

(** A lot bought in 2023 and closed in 2024. *)
Definition bought_2023 : Transaction := trade "2023-12-15" "AAPL" "BUY_TO_OPEN" 100 10 (-1000).
Definition sold_2024 : Transaction := trade "2024-01-10" "AAPL" "SELL_TO_CLOSE" 100 15 1500.

(** Ten shares bought; fifteen sold for 300, or ten sold for 200. *)
Definition bought_10 : Transaction := trade "2024-03-01" "MSFT" "BUY_TO_OPEN" 10 10 (-100).
Definition sold_15 : Transaction := trade "2024-03-05" "MSFT" "SELL_TO_CLOSE" 15 20 300.

(** Scenario A: 100 bought at 10 with a fee of 5, sold at 15. *)
Definition scenario_A_buy : Transaction :=
  {| Date := "2024-01-01"; Type_ := "Trade"; Sub_Type := None; Symbol := "AAPL";
     Action := Some "BUY_TO_OPEN"%string; Quantity := Some (Q2Qc 100);
     Average_Price := Some (Q2Qc 10); Total := Some (Q2Qc (-1000));
     Value := Some (Q2Qc (-1000)); Fees := Some (Q2Qc (-5)); Commissions := Some 0;
     Asset_Category := Some "Stock"%string |}.
Definition scenario_A_sell : Transaction :=
  trade "2024-01-05" "AAPL" "SELL_TO_CLOSE" 100 15 1500.



(** Two wire deposits of 1.16 USD on 2024-01-01. *)
Definition deposit (date : string) (value : Q) : Transaction :=
  {| Date := date; Type_ := "Money Movement"; Sub_Type := Some "Deposit"%string;
     Symbol := ""; Action := None; Quantity := None; Average_Price := None;
     Total := Some (Q2Qc value); Value := Some (Q2Qc value); Fees := None;
     Commissions := None; Asset_Category := None |}.

Definition two_deposits : list Transaction :=
  [deposit "2024-01-01" 1.16; deposit "2024-01-01" 1.16].

(** Scenario A with the lot closed on 2024-01-10. *)
Definition scenario_A_sell_later : Transaction :=
  trade "2024-01-10" "AAPL" "SELL_TO_CLOSE" 100 15 1500.




(** Ten bought and four sold of one symbol, five bought and five sold of
    another. *)
Definition two_symbols : list Transaction :=
  [trade "2024-01-02" "AAPL" "BUY_TO_OPEN" 10 100 1000;
   trade "2024-01-03" "MSFT" "BUY_TO_OPEN" 5 200 1000;
   trade "2024-02-01" "AAPL" "SELL_TO_CLOSE" 4 110 440;
   trade "2024-02-02" "MSFT" "SELL_TO_CLOSE" 5 210 1050].

(** Two trades of 2024-01-05 with fees and commissions. *)
Definition fee_rows : list Transaction :=
  [{| Date := "2024-01-05"; Type_ := "Trade"; Sub_Type := None; Symbol := "AAPL";
      Action := Some "BUY_TO_OPEN"%string; Quantity := Some (Q2Qc 10);
      Average_Price := Some (Q2Qc 100); Total := Some (Q2Qc (-1000));
      Value := Some (Q2Qc (-1000)); Fees := Some (Q2Qc (-0.11));
      Commissions := Some (Q2Qc (-1.10)); Asset_Category := Some "Stock"%string |};
   {| Date := "2024-01-05"; Type_ := "Trade"; Sub_Type := None; Symbol := "AAPL";
      Action := Some "SELL_TO_CLOSE"%string; Quantity := Some (Q2Qc 10);
      Average_Price := Some (Q2Qc 110); Total := Some (Q2Qc 1100);
      Value := Some (Q2Qc 1100); Fees := Some (Q2Qc (-0.22));
      Commissions := None; Asset_Category := Some "Stock"%string |}].

(** ** Facts about the order of dates *)

Section DateOrder.

Lemma compare_lt_trans a b c :
  String.compare a b = Lt -> String.compare b c = Lt -> String.compare a c = Lt.
Proof.
  intros H1 H2.
  apply String_as_OT.cmp_lt.
  apply String_as_OT.cmp_lt in H1. apply String_as_OT.cmp_lt in H2.
  exact (String_as_OT.lt_trans _ _ _ H1 H2).
Qed.

Lemma compare_refl a : String.compare a a = Eq.
Proof.
  induction a as [|c a IH]; simpl; [reflexivity|].
  assert (Hc : Ascii.compare c c = Eq) by (apply Ascii_as_OT.cmp_eq; reflexivity).
  rewrite Hc. exact IH.
Qed.

Lemma date_le_refl a : date_le a a.
Proof. unfold date_le, String.leb. now rewrite compare_refl. Qed.

Lemma date_lt_le a b : date_lt a b -> date_le a b.
Proof.
  unfold date_lt, date_le, String.ltb, String.leb.
  destruct (String.compare a b); congruence.
Qed.

Lemma date_lt_neq a b : date_lt a b -> a <> b.
Proof.
  unfold date_lt, String.ltb. intros H ->. now rewrite compare_refl in H.
Qed.

Lemma date_le_lt_or_eq a b : date_le a b -> date_lt a b \/ a = b.
Proof.
  unfold date_lt, date_le, String.ltb, String.leb.
  destruct (String.compare a b) eqn:E; intros H; try discriminate.
  - right. now apply String.compare_eq_iff.
  - now left.
Qed.

Lemma date_le_antisym a b : date_le a b -> date_le b a -> a = b.
Proof. apply String.leb_antisym. Qed.

Lemma date_le_total a b : date_le a b \/ date_le b a.
Proof. apply String.leb_total. Qed.

Lemma date_lt_trans a b c : date_lt a b -> date_lt b c -> date_lt a c.
Proof.
  unfold date_lt, String.ltb. intros H1 H2.
  destruct (String.compare a b) eqn:E1; try discriminate.
  destruct (String.compare b c) eqn:E2; try discriminate.
  now rewrite (compare_lt_trans _ _ _ E1 E2).
Qed.

Lemma date_le_trans a b c : date_le a b -> date_le b c -> date_le a c.
Proof.
  intros H1 H2.
  destruct (date_le_lt_or_eq _ _ H1) as [L1| ->]; [|assumption].
  destruct (date_le_lt_or_eq _ _ H2) as [L2| <-]; [|assumption].
  apply date_lt_le. eapply date_lt_trans; eassumption.
Qed.

Lemma date_not_lt_le a b : String.ltb a b = false -> date_le b a.
Proof.
  unfold date_le, String.ltb, String.leb. rewrite (String.compare_antisym b a).
  destruct (String.compare a b); simpl; congruence.
Qed.

Lemma date_lt_not_le a b : date_lt a b -> ~ date_le b a.
Proof.
  intros L H. apply (date_lt_neq _ _ L).
  apply date_le_antisym; [now apply date_lt_le | assumption].
Qed.

End DateOrder.

(** ** The rate lookup *)

Section RateLookup.

Lemma latest_row_nil rows : latest_row rows = None -> rows = [].
Proof.
  destruct rows as [|r rest]; [reflexivity|]. simpl.
  destruct (latest_row rest) as [b|]; [|discriminate].
  destruct (String.ltb (fst b) (fst r)); discriminate.
Qed.

Lemma latest_row_In rows b : latest_row rows = Some b -> In b rows.
Proof.
  revert b. induction rows as [|r rest IH]; intros b; simpl; [discriminate|].
  destruct (latest_row rest) as [c|].
  - destruct (String.ltb (fst c) (fst r)); intros [= <-]; auto.
  - intros [= <-]. now left.
Qed.

Lemma latest_row_max rows b :
  latest_row rows = Some b -> forall r, In r rows -> date_le (fst r) (fst b).
Proof.
  revert b. induction rows as [|x rest IH]; intros b; simpl; [discriminate|].
  destruct (latest_row rest) as [c|] eqn:E.
  - destruct (String.ltb (fst c) (fst x)) eqn:L; intros [= <-] r [<-|Hr].
    + apply date_le_refl.
    + eapply date_le_trans; [apply (IH c eq_refl r Hr)|]. now apply date_lt_le.
    + now apply date_not_lt_le.
    + apply (IH c eq_refl r Hr).
  - intros [= <-] r [<-|Hr]; [apply date_le_refl|].
    apply latest_row_nil in E. subst rest. destruct Hr.
Qed.

Lemma In_map_to_list (tbl : gmap string Qc) k r :
  In (k, r) (map_to_list tbl) <-> tbl !! k = Some r.
Proof. rewrite <- list_elem_of_In. apply elem_of_map_to_list. Qed.

Lemma closest_previous_Some tbl d b :
  closest_previous tbl d = Some b ->
  tbl !! fst b = Some (snd b) /\ date_le (fst b) d /\
  forall k r, tbl !! k = Some r -> date_le k d -> date_le k (fst b).
Proof.
  unfold closest_previous. intros H.
  pose proof (latest_row_In _ _ H) as Hin.
  apply filter_In in Hin as [Hin Hle].
  destruct b as [kb rb]. simpl in *.
  split; [now apply In_map_to_list|]. split; [exact Hle|].
  intros k r Hk Hkd.
  apply (latest_row_max _ _ H (k, r)).
  apply filter_In. split; [now apply In_map_to_list | exact Hkd].
Qed.

Lemma closest_previous_None tbl d :
  closest_previous tbl d = None ->
  forall k r, tbl !! k = Some r -> ~ date_le k d.
Proof.
  unfold closest_previous. intros H k r Hk Hkd.
  apply latest_row_nil in H.
  assert (Hin : In (k, r) (List.filter (fun r => String.leb (fst r) d) (map_to_list tbl))).
  { apply filter_In. split; [now apply In_map_to_list | exact Hkd]. }
  rewrite H in Hin. destruct Hin.
Qed.

Lemma get_exchange_rate_exact tbl d r :
  tbl !! d = Some r -> get_exchange_rate tbl d = Some r.
Proof. unfold get_exchange_rate. now intros ->. Qed.

Lemma get_exchange_rate_previous tbl d k r :
  tbl !! d = None -> tbl !! k = Some r -> date_lt k d ->
  (forall k', is_Some (tbl !! k') -> date_lt k' d -> date_le k' k) ->
  get_exchange_rate tbl d = Some r.
Proof.
  intros Hd Hk Hkd Hmax. unfold get_exchange_rate. rewrite Hd.
  destruct (closest_previous tbl d) as [[kb rb]|] eqn:E.
  - apply closest_previous_Some in E as (Hb & Hbd & Hbmax). simpl in *.
    assert (kb = k) as ->.
    { apply date_le_antisym.
      - apply Hmax; [eauto|].
        destruct (date_le_lt_or_eq _ _ Hbd) as [L| ->]; [exact L|congruence].
      - apply (Hbmax k r Hk). now apply date_lt_le. }
    simpl. congruence.
  - exfalso. apply (closest_previous_None _ _ E k r Hk). now apply date_lt_le.
Qed.

Lemma get_exchange_rate_absent tbl d :
  (forall k, is_Some (tbl !! k) -> ~ date_le k d) ->
  get_exchange_rate tbl d = None.
Proof.
  intros Hno. unfold get_exchange_rate.
  destruct (tbl !! d) as [r|] eqn:Hd.
  - exfalso. apply (Hno d); [rewrite Hd; eauto | apply date_le_refl].
  - destruct (closest_previous tbl d) as [[kb rb]|] eqn:E; [|reflexivity].
    apply closest_previous_Some in E as (Hb & Hbd & _). simpl in *.
    exfalso. apply (Hno kb); [rewrite Hb; eauto | exact Hbd].
Qed.

Lemma get_exchange_rate_not_after tbl d r :
  get_exchange_rate tbl d = Some r ->
  exists k, tbl !! k = Some r /\ date_le k d.
Proof.
  unfold get_exchange_rate.
  destruct (tbl !! d) as [r'|] eqn:Hd.
  - intros [= <-]. exists d. split; [exact Hd | apply date_le_refl].
  - destruct (closest_previous tbl d) as [[kb rb]|] eqn:E; [|discriminate].
    simpl. intros [= <-].
    apply closest_previous_Some in E as (Hb & Hbd & _). eauto.
Qed.

End RateLookup.

(** C3.  The rate for a date is the rate stored under that date when
    there is one; otherwise the rate stored under the greatest date of the
    table that is strictly before it; it is absent exactly when the table
    has no date at or before the requested one (in particular for the empty
    table), and a rate that is returned is never taken from a later date.
    With 1.10 under 2024-01-01 and 1.08 under 2024-01-10 the rate for
    2024-01-05 is 1.10 and there is none for 2023-12-31. *)
Theorem get_exchange_rate_carry_forward (tbl : gmap string Qc) (d : string) :
  (forall r, tbl !! d = Some r -> get_exchange_rate tbl d = Some r) /\
  (forall k r,
      tbl !! d = None -> tbl !! k = Some r -> date_lt k d ->
      (forall k', is_Some (tbl !! k') -> date_lt k' d -> date_le k' k) ->
      get_exchange_rate tbl d = Some r) /\
  (forall r, get_exchange_rate tbl d = Some r ->
             exists k, tbl !! k = Some r /\ date_le k d) /\
  ((forall k, is_Some (tbl !! k) -> ~ date_le k d) <->
   get_exchange_rate tbl d = None) /\
  get_exchange_rate ∅ d = None /\
  get_exchange_rate rates_2024 "2024-01-05" = Some (Q2Qc 1.10) /\
  get_exchange_rate rates_2024 "2023-12-31" = None.
Proof.
  split; [exact (get_exchange_rate_exact tbl d)|].
  split; [intros k r; apply get_exchange_rate_previous|].
  split; [exact (get_exchange_rate_not_after tbl d)|].
  split.
  { split; [apply get_exchange_rate_absent|].
    intros Hnone k [r Hk] Hkd.
    unfold get_exchange_rate in Hnone.
    destruct (tbl !! d) as [r'|] eqn:Hd; [discriminate|].
    destruct (closest_previous tbl d) as [b|] eqn:E; [discriminate|].
    exact (closest_previous_None _ _ E k r Hk Hkd). }
  split.
  { apply get_exchange_rate_absent. intros k [r Hk].
    rewrite lookup_empty in Hk. discriminate. }
  split; reflexivity.
Qed.

(** The rate of 2024-01-10 itself is the stored 1.08, and 2024-01-05 falls
    back on 2024-01-01. *)
Lemma get_exchange_rate_carry_forward_witness :
  get_exchange_rate rates_2024 "2024-01-10" = Some (Q2Qc 1.08) /\
  get_exchange_rate rates_2024 "2024-01-05" = Some (Q2Qc 1.10).
Proof.
  split.
  - apply (proj1 (get_exchange_rate_carry_forward rates_2024 "2024-01-10")).
    reflexivity.
  - destruct (get_exchange_rate_carry_forward rates_2024 "2024-01-05")
      as (_ & Hprev & _).
    apply (Hprev "2024-01-01"%string); [reflexivity | reflexivity | reflexivity |].
    intros k' [r Hk] Hlt.
    unfold rates_2024 in Hk.
    destruct (decide (k' = "2024-01-01"%string)) as [->|N1]; [apply date_le_refl|].
    rewrite lookup_insert_ne in Hk by congruence.
    destruct (decide (k' = "2024-01-10"%string)) as [->|N2]; [discriminate Hlt|].
    rewrite lookup_insert_ne in Hk by congruence.
    rewrite lookup_empty in Hk. discriminate.
Defined.

(** ** Arithmetic of the number model *)

Lemma this_plus a b : (this (a + b) == this a + this b)%Q.
Proof. unfold Qcplus, Q2Qc; cbn [this]. apply Qred_correct. Qed.

Lemma this_opp a : (this (- a) == - this a)%Q.
Proof. unfold Qcopp, Q2Qc; cbn [this]. apply Qred_correct. Qed.

Lemma this_minus a b : (this (a - b) == this a - this b)%Q.
Proof. unfold Qcminus. rewrite this_plus, this_opp. reflexivity. Qed.

(** Linear goals over [Qc] are sent to [Q], where [lra] decides them. *)
Ltac qc_to_q :=
  repeat match goal with
  | H : @eq Qc ?a ?b |- _ =>
      let H' := fresh in
      assert (H' : (this a == this b)%Q) by (rewrite H; reflexivity); clear H
  | H : ~ @eq Qc ?a ?b |- _ =>
      let H' := fresh in
      assert (H' : ~ (this a == this b)%Q)
        by (intros ?; apply H; apply Qc_is_canon; assumption);
      clear H
  | |- @eq Qc _ _ => apply Qc_is_canon
  | |- ~ @eq Qc _ _ => let E := fresh in intros E
  end;
  unfold Qcle, Qclt in *;
  repeat match goal with
  | H : context [this (_ + _)] |- _ => rewrite this_plus in H
  | H : context [this (_ - _)] |- _ => rewrite this_minus in H
  | H : context [this (- _)] |- _ => rewrite this_opp in H
  | |- context [this (_ + _)] => rewrite this_plus
  | |- context [this (_ - _)] => rewrite this_minus
  | |- context [this (- _)] => rewrite this_opp
  end;
  change (this 0) with 0%Q in *; change (this 1) with 1%Q in *.

Ltac qc_lra := qc_to_q; lra.

Module NumFacts.

Lemma ltb_spec a b : reflect (a < b) (Num.ltb a b).
Proof.
  unfold Num.ltb. destruct (a ?= b) eqn:E; constructor.
  - apply Qceq_alt in E. subst. apply Qclt_irrefl || (intros H; qc_lra).
  - now apply Qclt_alt.
  - apply Qcgt_alt in E. intros H. qc_lra.
Qed.

Lemma leb_spec a b : reflect (a <= b) (Num.leb a b).
Proof.
  unfold Num.leb. destruct (a ?= b) eqn:E; constructor.
  - apply Qceq_alt in E. subst. apply Qcle_refl.
  - apply Qclt_alt in E. qc_lra.
  - apply Qcgt_alt in E. intros H. qc_lra.
Qed.

Lemma eqb_spec a b : reflect (a = b) (Num.eqb a b).
Proof.
  unfold Num.eqb. destruct (a ?= b) eqn:E; constructor.
  - now apply Qceq_alt.
  - apply Qclt_alt in E. intros ->. qc_lra.
  - apply Qcgt_alt in E. intros ->. qc_lra.
Qed.

Lemma ltb_true a b : a < b -> Num.ltb a b = true.
Proof. intros H. now destruct (ltb_spec a b). Qed.

Lemma ltb_false a b : b <= a -> Num.ltb a b = false.
Proof. intros H. destruct (ltb_spec a b); [qc_lra | reflexivity]. Qed.

Lemma leb_true a b : a <= b -> Num.leb a b = true.
Proof. intros H. now destruct (leb_spec a b). Qed.

Lemma leb_false a b : b < a -> Num.leb a b = false.
Proof. intros H. destruct (leb_spec a b); [qc_lra | reflexivity]. Qed.

Lemma abs_or0_nonneg x : 0 <= abs_or0 x.
Proof. apply Qcabs_nonneg. Qed.

End NumFacts.

(** Case analysis on the comparisons of the code. *)
Ltac case_num :=
  match goal with
  | |- context [Num.ltb ?a ?b] => destruct (NumFacts.ltb_spec a b)
  | |- context [Num.leb ?a ?b] => destruct (NumFacts.leb_spec a b)
  | |- context [Num.eqb ?a ?b] => destruct (NumFacts.eqb_spec a b)
  end.

(** ** The matching loop: what it appends and what it keeps *)

Lemma record_match_detailed m acc :
  Acc.detailed_transactions (record_match m acc)
  = Acc.detailed_transactions acc ++ [m].
Proof. unfold record_match. destruct (Num.ltb 0 (Match.gain_loss m)); reflexivity. Qed.

Section MatcherInvariant.

(** [I] holds of the lots, [J] of the closing records, [P] of the matches. *)
Variable tbl : gmap string Qc.
Variable I : Buy.t -> Prop.
Variable J : Sell.t -> Prop.
Variable P : Match.t -> Prop.
Hypothesis P_make : forall key buy sell q, I buy -> J sell -> P (make_match tbl key buy sell q).
Hypothesis I_shrink : forall buy q, I buy -> I (shrink_buy buy q).

Lemma match_sell_inv key sell (Hs : J sell) buys :
  forall r acc,
    Forall I buys -> Forall P (Acc.detailed_transactions acc) ->
    Forall I (fst (match_sell tbl key sell r buys acc)) /\
    Forall P (Acc.detailed_transactions (snd (match_sell tbl key sell r buys acc))).
Proof.
  induction buys as [|buy rest IH]; intros r acc HI HP; simpl; [now split|].
  apply Forall_cons in HI as [Hb Hrest].
  destruct (Num.ltb 0 r); [|split; [now constructor | exact HP]].
  destruct (Num.leb (Buy.quantity buy) r).
  - apply IH; [exact Hrest|].
    rewrite record_match_detailed. apply Forall_app. split; [exact HP|].
    constructor; [now apply P_make | constructor].
  - simpl. split.
    + constructor; [now apply I_shrink | exact Hrest].
    + rewrite record_match_detailed. apply Forall_app. split; [exact HP|].
      constructor; [now apply P_make | constructor].
Qed.

Lemma match_sells_inv key sells :
  forall buys acc,
    Forall J sells -> Forall I buys -> Forall P (Acc.detailed_transactions acc) ->
    Forall I (fst (match_sells tbl key sells buys acc)) /\
    Forall P (Acc.detailed_transactions (snd (match_sells tbl key sells buys acc))).
Proof.
  unfold match_sells.
  induction sells as [|sell rest IH]; intros buys acc HJ HI HP; simpl; [now split|].
  apply Forall_cons in HJ as [Hs Hrest].
  destruct (match_sell_inv key sell Hs buys (Sell.quantity sell) acc HI HP) as [HI' HP'].
  destruct (match_sell tbl key sell (Sell.quantity sell) buys acc) as [buys' acc'].
  now apply IH.
Qed.

Lemma process_all_inv symbol_transactions :
  forall acc,
    Forall (data_ok I J) symbol_transactions ->
    Forall P (Acc.detailed_transactions acc) ->
    Forall P (Acc.detailed_transactions
                (fold_left (fun acc kd => snd (process_symbol tbl (fst kd) (snd kd) acc))
                   symbol_transactions acc)).
Proof.
  induction symbol_transactions as [|kd rest IH]; intros acc Hok HP; simpl; [exact HP|].
  apply Forall_cons in Hok as [[Hb Hs] Hrest].
  apply IH; [exact Hrest|].
  unfold process_symbol. now apply match_sells_inv.
Qed.

Lemma gains_detailed_inv symbol_transactions :
  Forall (data_ok I J) symbol_transactions ->
  Forall P (Gains.detailed_transactions
              (_process_fifo_gains_by_category tbl symbol_transactions)).
Proof.
  intros Hok. unfold _process_fifo_gains_by_category. cbn [Gains.detailed_transactions].
  apply process_all_inv; [exact Hok | constructor].
Qed.

End MatcherInvariant.

(** If the queue holds at least the remaining quantity, the quantities of
    the appended matches add up to it. *)
Lemma match_sell_quantity tbl key sell buys :
  forall r acc,
    0 <= r -> r <= Num.sum (map Buy.quantity buys) ->
    exists ms,
      Acc.detailed_transactions (snd (match_sell tbl key sell r buys acc))
      = Acc.detailed_transactions acc ++ ms
      /\ Num.sum (map Match.quantity ms) = r.
Proof.
  induction buys as [|buy rest IH]; intros r acc Hr Hsum; simpl in *.
  - exists []. split; [now rewrite app_nil_r | simpl; qc_lra].
  - case_num.
    + case_num.
      * destruct (IH (r - Buy.quantity buy)
                    (record_match (make_match tbl key buy sell (Buy.quantity buy)) acc))
          as (ms & E & S); [qc_lra | qc_lra |].
        exists (make_match tbl key buy sell (Buy.quantity buy) :: ms). split.
        -- rewrite E, record_match_detailed, <- app_assoc. reflexivity.
        -- simpl. rewrite S. ring.
      * exists [make_match tbl key buy sell r]. split.
        -- simpl. now rewrite record_match_detailed.
        -- simpl. ring.
    + exists []. split; [simpl; now rewrite app_nil_r | simpl; qc_lra].
Qed.




(** Closed comparisons and equalities of numbers, by evaluation. *)
Ltac qc_closed :=
  lazymatch goal with
  | |- _ < _ => apply Qclt_alt; vm_compute; reflexivity
  | |- _ <= _ => apply Qcle_alt; vm_compute; discriminate
  | |- @eq Qc _ _ => apply Qc_is_canon; vm_compute; reflexivity
  | |- ~ @eq Qc _ _ =>
      let E := fresh in
      intros E; apply (f_equal this) in E; vm_compute in E; discriminate E
  end.


(** ** Grouping by symbol *)

Section DictFacts.
Context {V : Type}.
Implicit Types (d : list (string * V)) (k : string).

Lemma dict_get_app k d d' :
  dict_get k (d ++ d')
  = match dict_get k d with Some v => Some v | None => dict_get k d' end.
Proof.
  induction d as [|[k' v] d IH]; simpl; [reflexivity|].
  destruct (String.eqb k k'); [reflexivity | exact IH].
Qed.

Lemma dict_get_update_eq k f d :
  dict_get k (dict_update k f d) = f <$> dict_get k d.
Proof.
  induction d as [|[k' v] d IH]; simpl; [reflexivity|].
  destruct (String.eqb k k') eqn:E; simpl; rewrite E; [reflexivity | exact IH].
Qed.

Lemma dict_get_update_ne k k' f d :
  k <> k' -> dict_get k' (dict_update k f d) = dict_get k' d.
Proof.
  intros Hne. induction d as [|[k0 v] d IH]; simpl; [reflexivity|].
  destruct (String.eqb_spec k k0) as [->|N]; simpl.
  - destruct (String.eqb_spec k' k0) as [->|N']; [congruence | reflexivity].
  - rewrite IH. reflexivity.
Qed.

Lemma dict_get_setdefault_eq k v d :
  dict_get k (dict_setdefault k v d) = Some (default v (dict_get k d)).
Proof.
  unfold dict_setdefault, dict_mem.
  destruct (dict_get k d) as [w|] eqn:E; [exact E|].
  rewrite dict_get_app, E. simpl. now rewrite String.eqb_refl.
Qed.

Lemma dict_get_setdefault_ne k k' v d :
  k <> k' -> dict_get k' (dict_setdefault k v d) = dict_get k' d.
Proof.
  intros Hne. unfold dict_setdefault.
  destruct (dict_mem k d); [reflexivity|].
  rewrite dict_get_app. destruct (dict_get k' d); [reflexivity|]. simpl.
  destruct (String.eqb_spec k' k); [congruence | reflexivity].
Qed.

End DictFacts.

Lemma group_step_get_eq d t :
  dict_get (Symbol t) (group_step d t) = symbol_step (dict_get (Symbol t) d) t.
Proof.
  unfold group_step, symbol_step.
  destruct (text_in (Action t) _).
  - now rewrite dict_get_update_eq, dict_get_setdefault_eq.
  - destruct (text_in (Action t) _).
    + now rewrite dict_get_update_eq, dict_get_setdefault_eq.
    + now rewrite dict_get_setdefault_eq.
Qed.

Lemma group_step_get_ne d t s :
  Symbol t <> s -> dict_get s (group_step d t) = dict_get s d.
Proof.
  intros Hne. unfold group_step.
  destruct (text_in (Action t) _); [|destruct (text_in (Action t) _)];
    rewrite ?dict_get_update_ne by exact Hne;
    now apply dict_get_setdefault_ne.
Qed.

(** The entry of a symbol is built from the rows of that symbol alone. *)
Lemma group_get s db :
  forall d,
    dict_get s (fold_left group_step db d)
    = fold_left symbol_step (rows_of s db) (dict_get s d).
Proof.
  induction db as [|t db IH]; intros d; simpl; [reflexivity|].
  rewrite IH. destruct (String.eqb_spec (Symbol t) s) as [<-|N]; simpl.
  - now rewrite group_step_get_eq.
  - now rewrite group_step_get_ne.
Qed.

Lemma is_text_eq x s : is_text x s = true <-> x = Some s.
Proof.
  destruct x as [v|]; simpl; [|split; discriminate].
  rewrite String.eqb_eq. split; congruence.
Qed.

(** A run of opening rows appends one lot per row. *)
Lemma symbol_step_opens opens :
  forall d,
    Forall (fun t => is_text (Action t) "BUY_TO_OPEN" = true) opens ->
    fold_left symbol_step opens (Some d)
    = Some {| SymbolData.buys := SymbolData.buys d ++ map buy_of_row opens;
              SymbolData.sells := SymbolData.sells d;
              SymbolData.asset_category := SymbolData.asset_category d |}.
Proof.
  induction opens as [|t opens IH]; intros d Hall; simpl.
  - rewrite app_nil_r. now destruct d.
  - apply Forall_cons in Hall as [Ht Hrest].
    apply is_text_eq in Ht. unfold symbol_step at 2. rewrite Ht. simpl.
    rewrite IH by exact Hrest. simpl. now rewrite <- app_assoc.
Qed.

Lemma sell_action_not_buy x :
  text_in x ["SELL_TO_CLOSE"; "SELL_TO_OPEN"]%string = true ->
  text_in x ["BUY_TO_OPEN"; "BUY_TO_CLOSE"]%string = false.
Proof.
  unfold text_in. simpl. rewrite orb_false_r.
  intros H. apply orb_true_iff in H as [H|H]; apply is_text_eq in H; subst x; reflexivity.
Qed.

Lemma increasing_dates_head t l :
  increasing_dates (t :: l) ->
  Forall (fun t' => date_lt (Date t) (Date t')) l.
Proof.
  revert t. induction l as [|t' l IH]; intros t [Hlt Hrest]; constructor.
  - exact Hlt.
  - specialize (IH t' Hrest).
    eapply Forall_impl; [exact IH|]. simpl.
    intros t'' H. eapply date_lt_trans; eassumption.
Qed.

(** The entry of a symbol whose rows are opening rows followed by one
    closing row. *)
Lemma group_opens_then_close s db first later close :
  rows_of s db = first :: later ++ [close] ->
  Forall (fun t => is_text (Action t) "BUY_TO_OPEN" = true) (first :: later) ->
  text_in (Action close) ["SELL_TO_CLOSE"; "SELL_TO_OPEN"]%string = true ->
  dict_get s (_group_transactions_by_symbol db)
  = Some {| SymbolData.buys := buy_of_row first :: map buy_of_row later;
            SymbolData.sells := [sell_of_row close];
            SymbolData.asset_category := Asset_Category first |}.
Proof.
  intros Hrows Hopens Hclose.
  unfold _group_transactions_by_symbol. rewrite group_get, Hrows. simpl.
  apply Forall_cons in Hopens as [Hfirst Hlater].
  apply is_text_eq in Hfirst. unfold symbol_step at 2. rewrite Hfirst. simpl.
  rewrite fold_left_app, symbol_step_opens by exact Hlater. simpl.
  unfold symbol_step. rewrite (sell_action_not_buy _ Hclose), Hclose. reflexivity.
Qed.

(** One partial match against the head of the queue. *)
Lemma match_sell_partial tbl key sell r buy rest acc :
  0 < r -> r < Buy.quantity buy ->
  match_sell tbl key sell r (buy :: rest) acc
  = (shrink_buy buy r :: rest, record_match (make_match tbl key buy sell r) acc).
Proof.
  intros H0 Hlt. simpl.
  rewrite (NumFacts.ltb_true _ _ H0), (NumFacts.leb_false _ _ Hlt). reflexivity.
Qed.

Lemma shrink_buy_partial buy r :
  0 < r -> r < Buy.quantity buy ->
  shrink_buy buy r
  = {| Buy.date := Buy.date buy;
       Buy.quantity := Buy.quantity buy - r;
       Buy.price := Buy.price buy;
       Buy.total_cost := Buy.total_cost buy * ((Buy.quantity buy - r) / Buy.quantity buy);
       Buy.fees := Buy.fees buy * ((Buy.quantity buy - r) / Buy.quantity buy);
       Buy.asset_category := Buy.asset_category buy |}.
Proof.
  intros H0 Hlt. unfold shrink_buy.
  rewrite NumFacts.ltb_true by qc_lra.
  assert (Hq : Buy.quantity buy <> 0) by qc_lra.
  f_equal; field; exact Hq.
Qed.

(** C1, as the code has it.  When the rows of a symbol are opening rows at
    strictly increasing dates followed by one closing row whose quantity is
    positive and smaller than the first lot's, the matcher appends exactly
    one match; it carries the date of the first lot, which is earlier than
    the date of every other lot, and the closed quantity; the first lot
    keeps the rest of its quantity and the same fraction of its cost and
    fees, and the later lots are left as they were. *)
Theorem fifo_first_lot_only (tbl : gmap string Qc) (db : list Transaction)
    (s : string) (first : Transaction) (later : list Transaction)
    (close : Transaction) (acc : Acc.t) :
  rows_of s db = first :: later ++ [close] ->
  Forall (fun t => is_text (Action t) "BUY_TO_OPEN" = true) (first :: later) ->
  increasing_dates (first :: later) ->
  text_in (Action close) ["SELL_TO_CLOSE"; "SELL_TO_OPEN"]%string = true ->
  0 < abs_or0 (Quantity close) ->
  abs_or0 (Quantity close) < abs_or0 (Quantity first) ->
  exists data m,
    dict_get s (_group_transactions_by_symbol db) = Some data /\
    Acc.detailed_transactions (snd (process_symbol tbl s data acc))
    = Acc.detailed_transactions acc ++ [m] /\
    Match.buy_date m = Date first /\
    Match.sell_date m = Date close /\
    Match.quantity m = abs_or0 (Quantity close) /\
    Forall (fun t => date_lt (Match.buy_date m) (Date t)) later /\
    fst (process_symbol tbl s data acc)
    = {| Buy.date := Date first;
         Buy.quantity := abs_or0 (Quantity first) - abs_or0 (Quantity close);
         Buy.price := abs_or0 (Average_Price first);
         Buy.total_cost :=
           abs_or0 (Total first)
           * ((abs_or0 (Quantity first) - abs_or0 (Quantity close))
              / abs_or0 (Quantity first));
         Buy.fees :=
           (abs_or0 (Fees first) + abs_or0 (Commissions first))
           * ((abs_or0 (Quantity first) - abs_or0 (Quantity close))
              / abs_or0 (Quantity first));
         Buy.asset_category := Asset_Category first |}
      :: map buy_of_row later.
Proof.
  intros Hrows Hopens Hinc Hclose Hpos Hlt.
  eexists. eexists. split.
  { apply (group_opens_then_close s db first later close Hrows Hopens Hclose). }
  unfold process_symbol, match_sells. cbn [SymbolData.buys SymbolData.sells fold_left fst snd].
  cbn [sell_of_row Sell.quantity].
  rewrite match_sell_partial by assumption.
  cbn [fst snd]. rewrite record_match_detailed.
  split; [reflexivity|].
  split; [reflexivity|].
  split; [reflexivity|].
  split; [reflexivity|].
  split; [exact (increasing_dates_head _ _ Hinc)|].
  rewrite shrink_buy_partial by assumption. reflexivity.
Qed.

(** A close of 40 against lots of 100 and 50. *)
Lemma fifo_first_lot_only_witness :
  exists data m,
    dict_get "AAPL" (_group_transactions_by_symbol [lot_100; lot_50; close_40])
    = Some data /\
    Acc.detailed_transactions (snd (process_symbol ∅ "AAPL" data Acc.init)) = [] ++ [m] /\
    Match.buy_date m = Date lot_100 /\
    Match.sell_date m = Date close_40 /\
    Match.quantity m = abs_or0 (Quantity close_40) /\
    Forall (fun t => date_lt (Match.buy_date m) (Date t)) [lot_50] /\
    fst (process_symbol ∅ "AAPL" data Acc.init)
    = {| Buy.date := Date lot_100;
         Buy.quantity := abs_or0 (Quantity lot_100) - abs_or0 (Quantity close_40);
         Buy.price := abs_or0 (Average_Price lot_100);
         Buy.total_cost :=
           abs_or0 (Total lot_100)
           * ((abs_or0 (Quantity lot_100) - abs_or0 (Quantity close_40))
              / abs_or0 (Quantity lot_100));
         Buy.fees :=
           (abs_or0 (Fees lot_100) + abs_or0 (Commissions lot_100))
           * ((abs_or0 (Quantity lot_100) - abs_or0 (Quantity close_40))
              / abs_or0 (Quantity lot_100));
         Buy.asset_category := Asset_Category lot_100 |}
      :: map buy_of_row [lot_50].
Proof.
  apply (fifo_first_lot_only ∅ [lot_100; lot_50; close_40] "AAPL"
           lot_100 [lot_50] close_40 Acc.init).
  - reflexivity.
  - repeat constructor.
  - simpl. repeat split; reflexivity.
  - reflexivity.
  - qc_closed.
  - qc_closed.
Defined.

(** C1 as stated fails for a closing row of quantity 0: it is smaller than
    the first lot, and no match is appended at all. *)
Lemma fifo_zero_close_emits_nothing :
  rows_of "AAPL" [lot_100; lot_50; close_0] = lot_100 :: [lot_50] ++ [close_0] /\
  increasing_dates [lot_100; lot_50] /\
  abs_or0 (Quantity close_0) < abs_or0 (Quantity lot_100) /\
  Gains.detailed_transactions
    (_process_fifo_gains_by_category ∅
       (_group_transactions_by_symbol [lot_100; lot_50; close_0])) = [].
Proof.
  split; [reflexivity|]. split; [simpl; repeat split; reflexivity|].
  split; [qc_closed | reflexivity].
Qed.

(** The queue never grows while closing records are matched. *)
Lemma match_sell_length tbl key sell buys :
  forall r acc, (length (fst (match_sell tbl key sell r buys acc)) <= length buys)%nat.
Proof.
  induction buys as [|buy rest IH]; intros r acc; simpl; [lia|].
  destruct (Num.ltb 0 r); [|simpl; lia].
  destruct (Num.leb (Buy.quantity buy) r); [|simpl; lia].
  specialize (IH (r - Buy.quantity buy)
                (record_match (make_match tbl key buy sell (Buy.quantity buy)) acc)).
  lia.
Qed.

Lemma match_sells_length tbl key sells :
  forall buys acc, (length (fst (match_sells tbl key sells buys acc)) <= length buys)%nat.
Proof.
  unfold match_sells.
  induction sells as [|sell rest IH]; intros buys acc; simpl; [lia|].
  pose proof (match_sell_length tbl key sell buys (Sell.quantity sell) acc) as H1.
  destruct (match_sell tbl key sell (Sell.quantity sell) buys acc) as [buys' acc'].
  specialize (IH buys' acc'). simpl in *. lia.
Qed.

(** One closing record takes lots from the front: what is left is a tail of
    the queue, with its first lot possibly shrunk. *)
Lemma match_sell_front tbl key sell buys :
  forall r acc,
    exists k,
      fst (match_sell tbl key sell r buys acc) = drop k buys \/
      exists b q,
        buys !! k = Some b /\
        fst (match_sell tbl key sell r buys acc) = shrink_buy b q :: drop (S k) buys.
Proof.
  induction buys as [|buy rest IH]; intros r acc; simpl.
  - exists 0%nat. now left.
  - destruct (Num.ltb 0 r); [|exists 0%nat; now left].
    destruct (Num.leb (Buy.quantity buy) r).
    + destruct (IH (r - Buy.quantity buy)
                  (record_match (make_match tbl key buy sell (Buy.quantity buy)) acc))
        as (k & [E | (b & q & Hb & E)]).
      * exists (S k). now left.
      * exists (S k). right. exists b, q. now split.
    + exists 0%nat. right. exists buy, r. now split.
Qed.

(** C4, as the code has it.  A row is classified by the side of its
    action: BUY_TO_OPEN and BUY_TO_CLOSE each append one lot to the queue of
    the symbol and leave its closing records alone; SELL_TO_CLOSE and
    SELL_TO_OPEN each append one closing record and leave the queue alone;
    any other action changes neither.  Matching the closing records against
    the queue never makes the queue longer, and one closing record leaves a
    tail of the queue, its first lot possibly shrunk. *)
Theorem group_by_side (d : list (string * SymbolData.t)) (t : Transaction) :
  let before :=
    default {| SymbolData.buys := []; SymbolData.sells := [];
               SymbolData.asset_category := Asset_Category t |}
      (dict_get (Symbol t) d) in
  (exists after,
      dict_get (Symbol t) (group_step d t) = Some after /\
      (text_in (Action t) ["BUY_TO_OPEN"; "BUY_TO_CLOSE"]%string = true ->
       SymbolData.buys after = SymbolData.buys before ++ [buy_of_row t] /\
       SymbolData.sells after = SymbolData.sells before) /\
      (text_in (Action t) ["SELL_TO_CLOSE"; "SELL_TO_OPEN"]%string = true ->
       SymbolData.buys after = SymbolData.buys before /\
       SymbolData.sells after = SymbolData.sells before ++ [sell_of_row t]) /\
      (text_in (Action t) ["BUY_TO_OPEN"; "BUY_TO_CLOSE";
                           "SELL_TO_CLOSE"; "SELL_TO_OPEN"]%string = false ->
       after = before)) /\
  (forall tbl key sells buys acc,
      (length (fst (match_sells tbl key sells buys acc)) <= length buys)%nat) /\
  (forall tbl key sell r buys acc,
      exists k,
        fst (match_sell tbl key sell r buys acc) = drop k buys \/
        exists b q,
          buys !! k = Some b /\
          fst (match_sell tbl key sell r buys acc) = shrink_buy b q :: drop (S k) buys).
Proof.
  intros before.
  split; [|split; [intros; apply match_sells_length | intros; apply match_sell_front]].
  rewrite group_step_get_eq. unfold symbol_step. fold before.
  eexists. split; [reflexivity|].
  destruct (text_in (Action t) ["BUY_TO_OPEN"; "BUY_TO_CLOSE"]%string) eqn:EB.
  - split; [intros _; split; reflexivity|].
    split.
    + intros HS. rewrite (sell_action_not_buy _ HS) in EB. discriminate.
    + unfold text_in in *. simpl in *. rewrite orb_false_r in EB.
      apply orb_true_iff in EB as [E|E]; rewrite E, ?orb_true_r; discriminate.
  - split; [discriminate|].
    destruct (text_in (Action t) ["SELL_TO_CLOSE"; "SELL_TO_OPEN"]%string) eqn:ES.
    + split; [intros _; split; reflexivity|].
      unfold text_in in *. simpl in *. rewrite orb_false_r in ES.
      apply orb_true_iff in ES as [E|E]; rewrite E, ?orb_true_r; discriminate.
    + split; [discriminate | reflexivity].
Qed.

(** A BUY_TO_CLOSE row read into an empty dictionary. *)
Lemma group_by_side_witness :
  let t := buy_to_close_row in
  let d := group_step [] t in
  let before :=
    default {| SymbolData.buys := []; SymbolData.sells := [];
               SymbolData.asset_category := Asset_Category t |}
      (dict_get (Symbol t) []) in
  exists after,
    dict_get (Symbol t) (group_step [] t) = Some after /\
    SymbolData.buys after = SymbolData.buys before ++ [buy_of_row t] /\
    SymbolData.sells after = SymbolData.sells before.
Proof.
  intros t d before.
  destruct (proj1 (group_by_side [] t)) as (after & Hget & Hbuy & _).
  exists after. split; [exact Hget|]. apply Hbuy. reflexivity.
Defined.

(** C4 as stated fails for BUY_TO_CLOSE: the row is not kept among the
    closing records, it adds a lot to the queue of open lots. *)
Lemma buy_to_close_opens_a_lot :
  _group_transactions_by_symbol [buy_to_close_row]
  = [(Symbol buy_to_close_row,
      {| SymbolData.buys := [buy_of_row buy_to_close_row];
         SymbolData.sells := [];
         SymbolData.asset_category := Asset_Category buy_to_close_row |})].
Proof. reflexivity. Qed.

(** ** The query and the yearly report *)

Section DictForall.
Context {V : Type} (R : string * V -> Prop).

Lemma dict_update_Forall k f (d : list (string * V)) :
  (forall v, R (k, v) -> R (k, f v)) ->
  Forall R d -> Forall R (dict_update k f d).
Proof.
  intros Hf. induction 1 as [|[k' v] d Hx Hd IH]; simpl; [constructor|].
  destruct (String.eqb_spec k k') as [<-|N]; constructor; auto.
Qed.

Lemma dict_setdefault_Forall k v (d : list (string * V)) :
  R (k, v) -> Forall R d -> Forall R (dict_setdefault k v d).
Proof.
  intros Hv Hd. unfold dict_setdefault. destruct (dict_mem k d); [exact Hd|].
  apply Forall_app. split; [exact Hd | now constructor].
Qed.

End DictForall.

Section GroupInvariant.

(** A property [Q] of the rows that gives [I] of their lots and [J] of
    their closing records. *)
Variable Q : Transaction -> Prop.
Variable I : Buy.t -> Prop.
Variable J : Sell.t -> Prop.
Hypothesis I_row : forall t, Q t -> I (buy_of_row t).
Hypothesis J_row : forall t, Q t -> J (sell_of_row t).

Lemma group_step_ok d t :
  Q t -> Forall (data_ok I J) d -> Forall (data_ok I J) (group_step d t).
Proof.
  intros Ht Hd. unfold group_step.
  assert (Hdef : Forall (data_ok I J)
                   (dict_setdefault (Symbol t)
                      {| SymbolData.buys := []; SymbolData.sells := [];
                         SymbolData.asset_category := Asset_Category t |} d)).
  { apply dict_setdefault_Forall; [|exact Hd]. split; constructor. }
  destruct (text_in (Action t) _); [|destruct (text_in (Action t) _)]; [| |exact Hdef].
  - apply dict_update_Forall; [|exact Hdef].
    intros v [Hb Hs]. split; simpl in *; [|exact Hs].
    apply Forall_app. split; [exact Hb | constructor; [now apply I_row | constructor]].
  - apply dict_update_Forall; [|exact Hdef].
    intros v [Hb Hs]. split; simpl in *; [exact Hb|].
    apply Forall_app. split; [exact Hs | constructor; [now apply J_row | constructor]].
Qed.

Lemma group_ok rows :
  Forall Q rows -> Forall (data_ok I J) (_group_transactions_by_symbol rows).
Proof.
  unfold _group_transactions_by_symbol.
  assert (G : forall d, Forall Q rows -> Forall (data_ok I J) d ->
                        Forall (data_ok I J) (fold_left group_step rows d)).
  { induction rows as [|t rows IH]; intros d Hr Hd; simpl; [exact Hd|].
    apply Forall_cons in Hr as [Ht Hr]. apply IH; [exact Hr|].
    now apply group_step_ok. }
  intros Hr. apply G; [exact Hr | constructor].
Qed.

End GroupInvariant.

Lemma insert_by_date_Forall (Q : Transaction -> Prop) t l :
  Q t -> Forall Q l -> Forall Q (insert_by_date t l).
Proof.
  intros Ht. induction 1 as [|x l Hx Hl IH]; simpl; [now repeat constructor|].
  destruct (String.leb (Date t) (Date x)); repeat constructor; auto.
Qed.

Lemma order_by_date_Forall (Q : Transaction -> Prop) l :
  Forall Q l -> Forall Q (order_by_date l).
Proof.
  unfold order_by_date. induction 1 as [|x l Hx _ IH]; simpl; [constructor|].
  now apply insert_by_date_Forall.
Qed.

Lemma shrink_buy_date buy q : Buy.date (shrink_buy buy q) = Buy.date buy.
Proof. unfold shrink_buy. destruct (Num.ltb 0 _); reflexivity. Qed.

(** C5, as the code has it.  The year (or, for "ytd", the current year)
    restricts the rows before they are matched: the report of a year is the
    matching of the rows dated in that year alone, so every match of the
    report has both its closing date and its opening date in that year. *)
Theorem yearly_report_matches_rows_of_the_year (tbl : gmap string Qc)
    (db : list Transaction) (current_year : string)
    (symbol year : option string) (y : string) :
  year_param year current_year = Some y ->
  Report.detailed_transactions
    (calculate_realized_gains_losses tbl db current_year symbol year)
  = Gains.detailed_transactions
      (_process_fifo_gains_by_category tbl
         (_group_transactions_by_symbol
            (order_by_date
               (List.filter (_build_gains_query_conditions symbol year current_year) db))))
  /\ Forall (fun t => year_of (Date t) = y)
       (List.filter (_build_gains_query_conditions symbol year current_year) db)
  /\ Forall (fun m => year_of (Match.sell_date m) = y /\ year_of (Match.buy_date m) = y)
       (Report.detailed_transactions
          (calculate_realized_gains_losses tbl db current_year symbol year)).
Proof.
  intros Hy.
  assert (Hrows : Forall (fun t => year_of (Date t) = y)
            (List.filter (_build_gains_query_conditions symbol year current_year) db)).
  { apply Forall_forall. intros t Ht. apply list_elem_of_In, filter_In in Ht as [_ Hc].
    unfold _build_gains_query_conditions in Hc. rewrite Hy in Hc.
    apply andb_true_iff in Hc as [_ Hc]. now apply String.eqb_eq in Hc. }
  split; [reflexivity|]. split; [exact Hrows|].
  unfold calculate_realized_gains_losses. cbn [Report.detailed_transactions].
  apply (gains_detailed_inv tbl
           (fun b => year_of (Buy.date b) = y) (fun s => year_of (Sell.date s) = y)).
  - intros key buy sell q Hb Hs. split; [exact Hs | exact Hb].
  - intros buy q Hb. now rewrite shrink_buy_date.
  - apply (group_ok (fun t => year_of (Date t) = y)); [auto | auto |].
    now apply order_by_date_Forall.
Qed.

(** For the year 2024 only the closing row of 2024 is read. *)
Lemma yearly_report_matches_rows_of_the_year_witness :
  Forall (fun t => year_of (Date t) = "2024"%string)
    (List.filter (_build_gains_query_conditions None (Some "2024"%string) "2025")
       [bought_2023; sold_2024]).
Proof.
  apply (yearly_report_matches_rows_of_the_year ∅ [bought_2023; sold_2024] "2025"
           None (Some "2024"%string) "2024").
  reflexivity.
Defined.

(** C5 as stated fails: a lot bought in 2023 and closed in 2024 gives no
    match at all in the report of 2024, although the matching of all rows
    has that match, closed in 2024 with the cost basis of the 2023 lot. *)
Lemma yearly_report_drops_earlier_lot :
  Report.detailed_transactions
    (calculate_realized_gains_losses ∅ [bought_2023; sold_2024] "2025"
       None (Some "2024"%string)) = [] /\
  exists m,
    Report.detailed_transactions
      (calculate_realized_gains_losses ∅ [bought_2023; sold_2024] "2025" None None)
    = [m] /\
    Match.buy_date m = "2023-12-15"%string /\
    year_of (Match.sell_date m) = "2024"%string /\
    Match.cost_basis m = Q2Qc 1000.
Proof.
  split; [reflexivity|].
  eexists. split; [reflexivity|].
  split; [reflexivity|]. split; [reflexivity|]. qc_closed.
Qed.

(** ** Closing more than is open *)

Lemma sum_nonneg (l : list Buy.t) :
  Forall (fun b => 0 <= Buy.quantity b) l -> 0 <= Num.sum (map Buy.quantity l).
Proof.
  induction 1 as [|b l Hb _ IH]; simpl; qc_lra.
Qed.


(** The state after every lot of [buys] has been matched whole. *)
Lemma match_sell_over tbl key sell buys :
  forall r acc,
    Forall (fun b => 0 <= Buy.quantity b) buys ->
    Num.sum (map Buy.quantity buys) < r ->
    match_sell tbl key sell r buys acc
    = ([], fold_left
             (fun a b => record_match (make_match tbl key b sell (Buy.quantity b)) a)
             buys acc).
Proof.
  induction buys as [|b rest IH]; intros r acc Hnn Hlt; simpl in *; [reflexivity|].
  apply Forall_cons in Hnn as [Hb Hrest].
  pose proof (sum_nonneg rest Hrest) as Hs.
  rewrite NumFacts.ltb_true by qc_lra.
  rewrite NumFacts.leb_true by qc_lra.
  apply IH; [exact Hrest | qc_lra].
Qed.


Lemma fold_record_detailed tbl key sell buys :
  forall acc,
    Acc.detailed_transactions
      (fold_left
         (fun a b => record_match (make_match tbl key b sell (Buy.quantity b)) a)
         buys acc)
    = Acc.detailed_transactions acc
      ++ map (fun b => make_match tbl key b sell (Buy.quantity b)) buys.
Proof.
  induction buys as [|b rest IH]; intros acc; simpl; [now rewrite app_nil_r|].
  rewrite IH, record_match_detailed, <- app_assoc. reflexivity.
Qed.

Lemma whole_lot_quantities tbl key sell buys :
  Num.sum (map Match.quantity
             (map (fun b => make_match tbl key b sell (Buy.quantity b)) buys))
  = Num.sum (map Buy.quantity buys).
Proof. induction buys as [|b rest IH]; simpl; [reflexivity | now rewrite IH]. Qed.

(** The lots of the queue never have a negative quantity. *)
Lemma buy_of_row_nonneg t : 0 <= Buy.quantity (buy_of_row t).
Proof. apply NumFacts.abs_or0_nonneg. Qed.

Lemma match_sell_nonneg tbl key sell buys :
  forall r acc,
    Forall (fun b => 0 <= Buy.quantity b) buys ->
    Forall (fun b => 0 <= Buy.quantity b) (fst (match_sell tbl key sell r buys acc)).
Proof.
  induction buys as [|b rest IH]; intros r acc Hnn; simpl; [constructor|].
  pose proof Hnn as Hall. apply Forall_cons in Hnn as [Hb Hrest].
  case_num; [|exact Hall].
  case_num; [now apply IH|].
  simpl. constructor; [|exact Hrest].
  unfold shrink_buy. case_num; simpl; qc_lra.
Qed.



Lemma positive_nonneg (l : list Buy.t) :
  Forall (fun b => 0 < Buy.quantity b) l -> Forall (fun b => 0 <= Buy.quantity b) l.
Proof. intros H. eapply Forall_impl; [exact H|]. intros b Hb. simpl in Hb. qc_lra. Qed.






(** ** Matches and the rate table *)

Lemma div_one (x : Qc) : x / 1 = x.
Proof. field. qc_closed. Qed.

Lemma rate_or_one_missing tbl date :
  get_exchange_rate tbl (String.substring 0 10 date) = None -> rate_or_one tbl date = 1.
Proof. unfold rate_or_one. now intros ->. Qed.

Lemma make_match_falls_back tbl key buy sell q :
  falls_back_to_usd tbl (make_match tbl key buy sell q).
Proof.
  unfold falls_back_to_usd, make_match.
  cbn [Match.buy_date Match.sell_date Match.cost_basis_eur Match.cost_basis
       Match.buy_price_eur Match.buy_price Match.proceeds_eur Match.proceeds
       Match.sell_price_eur Match.sell_price Match.gain_loss_eur Match.gain_loss].
  split; [|split].
  - intros Hb. rewrite (rate_or_one_missing _ _ Hb), !div_one. now split.
  - intros Hs. rewrite (rate_or_one_missing _ _ Hs), !div_one. now split.
  - intros Hb Hs.
    rewrite (rate_or_one_missing _ _ Hb), (rate_or_one_missing _ _ Hs), !div_one.
    reflexivity.
Qed.

(** The USD fields and the queue do not depend on the rate table. *)
Lemma match_sell_usd tbl1 tbl2 key sell buys :
  forall r acc1 acc2,
    map usd_view (Acc.detailed_transactions acc1)
    = map usd_view (Acc.detailed_transactions acc2) ->
    fst (match_sell tbl1 key sell r buys acc1) = fst (match_sell tbl2 key sell r buys acc2)
    /\ map usd_view (Acc.detailed_transactions (snd (match_sell tbl1 key sell r buys acc1)))
       = map usd_view (Acc.detailed_transactions (snd (match_sell tbl2 key sell r buys acc2))).
Proof.
  induction buys as [|buy rest IH]; intros r acc1 acc2 Hacc; simpl; [now split|].
  destruct (Num.ltb 0 r); [|now split].
  destruct (Num.leb (Buy.quantity buy) r).
  - apply IH. rewrite !record_match_detailed, !map_app, Hacc. reflexivity.
  - simpl. split; [reflexivity|].
    rewrite !record_match_detailed, !map_app, Hacc. reflexivity.
Qed.

Lemma match_sells_usd tbl1 tbl2 key sells :
  forall buys acc1 acc2,
    map usd_view (Acc.detailed_transactions acc1)
    = map usd_view (Acc.detailed_transactions acc2) ->
    fst (match_sells tbl1 key sells buys acc1) = fst (match_sells tbl2 key sells buys acc2)
    /\ map usd_view (Acc.detailed_transactions (snd (match_sells tbl1 key sells buys acc1)))
       = map usd_view (Acc.detailed_transactions (snd (match_sells tbl2 key sells buys acc2))).
Proof.
  unfold match_sells.
  induction sells as [|sell rest IH]; intros buys acc1 acc2 Hacc; simpl; [now split|].
  destruct (match_sell_usd tbl1 tbl2 key sell buys (Sell.quantity sell) acc1 acc2 Hacc)
    as [E1 E2].
  destruct (match_sell tbl1 key sell (Sell.quantity sell) buys acc1) as [b1 a1].
  destruct (match_sell tbl2 key sell (Sell.quantity sell) buys acc2) as [b2 a2].
  simpl in *. subst b2. now apply IH.
Qed.

Lemma gains_usd tbl1 tbl2 symbol_transactions :
  map usd_view (Gains.detailed_transactions
                  (_process_fifo_gains_by_category tbl1 symbol_transactions))
  = map usd_view (Gains.detailed_transactions
                    (_process_fifo_gains_by_category tbl2 symbol_transactions)).
Proof.
  unfold _process_fifo_gains_by_category. cbn [Gains.detailed_transactions].
  assert (G : forall acc1 acc2,
             map usd_view (Acc.detailed_transactions acc1)
             = map usd_view (Acc.detailed_transactions acc2) ->
             map usd_view
               (Acc.detailed_transactions
                  (fold_left (fun acc kd => snd (process_symbol tbl1 (fst kd) (snd kd) acc))
                     symbol_transactions acc1))
             = map usd_view
                 (Acc.detailed_transactions
                    (fold_left (fun acc kd => snd (process_symbol tbl2 (fst kd) (snd kd) acc))
                       symbol_transactions acc2))).
  { induction symbol_transactions as [|kd rest IH]; intros acc1 acc2 Hacc; simpl;
      [exact Hacc|].
    apply IH. unfold process_symbol. now apply match_sells_usd. }
  now apply G.
Qed.

(** C7, as the code has it.  A date without a rate is converted at the
    rate 1.0: for every match of the output, the EUR cost basis and buy
    price are the USD numbers when the opening date has no rate, the EUR
    proceeds and sell price are the USD numbers when the closing date has
    none, and the EUR gain is the USD gain when both have none.  The USD
    fields of the matches are the same whatever the rate table holds. *)
Theorem missing_rate_converts_at_one (tbl : gmap string Qc)
    (symbol_transactions : list (string * SymbolData.t)) :
  Forall (falls_back_to_usd tbl)
    (Gains.detailed_transactions
       (_process_fifo_gains_by_category tbl symbol_transactions)) /\
  Forall (falls_back_to_usd tbl)
    (snd (_process_fifo_gains tbl symbol_transactions)) /\
  map usd_view (Gains.detailed_transactions
                  (_process_fifo_gains_by_category tbl symbol_transactions))
  = map usd_view (Gains.detailed_transactions
                    (_process_fifo_gains_by_category ∅ symbol_transactions)).
Proof.
  assert (H : Forall (falls_back_to_usd tbl)
                (Gains.detailed_transactions
                   (_process_fifo_gains_by_category tbl symbol_transactions))).
  { apply (gains_detailed_inv tbl (fun _ => True) (fun _ => True)).
    - intros. apply make_match_falls_back.
    - trivial.
    - apply Forall_forall. intros kd _. split; apply Forall_forall; trivial. }
  split; [exact H|]. split; [exact H | apply gains_usd].
Qed.

Lemma get_exchange_rate_empty d : get_exchange_rate ∅ d = None.
Proof.
  apply get_exchange_rate_absent. intros k [r Hk].
  rewrite lookup_empty in Hk. discriminate.
Qed.

(** With no rate at all, the EUR cost basis of every match of scenario A is
    its USD cost basis. *)
Lemma missing_rate_converts_at_one_witness :
  Forall (fun m => Match.cost_basis_eur m = Match.cost_basis m)
    (Gains.detailed_transactions
       (_process_fifo_gains_by_category ∅
          (_group_transactions_by_symbol [scenario_A_buy; scenario_A_sell]))).
Proof.
  eapply Forall_impl.
  - exact (proj1 (missing_rate_converts_at_one ∅
                    (_group_transactions_by_symbol [scenario_A_buy; scenario_A_sell]))).
  - intros m (Hb & _). apply Hb. apply get_exchange_rate_empty.
Defined.

(** C7 as stated fails: with an empty rate table no date has a rate, and
    the match of scenario A still carries numbers in its EUR fields, the
    USD amounts 1005, 1500 and 495, which are added to the EUR totals. *)
Lemma missing_rate_fields_are_not_absent :
  get_exchange_rate ∅ "2024-01-01" = None /\
  get_exchange_rate ∅ "2024-01-05" = None /\
  exists m,
    Gains.detailed_transactions
      (_process_fifo_gains_by_category ∅
         (_group_transactions_by_symbol [scenario_A_buy; scenario_A_sell])) = [m] /\
    Match.cost_basis m = Q2Qc 1005 /\
    Match.cost_basis_eur m = Q2Qc 1005 /\
    Match.proceeds_eur m = Q2Qc 1500 /\
    Match.gain_loss_eur m = Q2Qc 495 /\
    Gains.stock_gains_eur
      (_process_fifo_gains_by_category ∅
         (_group_transactions_by_symbol [scenario_A_buy; scenario_A_sell])) = Q2Qc 495.
Proof.
  split; [reflexivity|]. split; [reflexivity|].
  eexists. split; [reflexivity|].
  repeat split; qc_closed.
Qed.

(** ** Dividends of the lots still held *)

Lemma credit_lot_gross v T lot :
  0 < v ->
  credit_lot v T lot
  = {| ShareLot.date := ShareLot.date lot;
       ShareLot.quantity := ShareLot.quantity lot;
       ShareLot.gross_dividends :=
         ShareLot.gross_dividends lot + v * (ShareLot.quantity lot / T);
       ShareLot.source_tax := ShareLot.source_tax lot |}.
Proof. intros Hv. unfold credit_lot. now rewrite (NumFacts.ltb_true _ _ Hv). Qed.

Lemma credit_lot_tax v T lot :
  v <= 0 ->
  credit_lot v T lot
  = {| ShareLot.date := ShareLot.date lot;
       ShareLot.quantity := ShareLot.quantity lot;
       ShareLot.gross_dividends := ShareLot.gross_dividends lot;
       ShareLot.source_tax :=
         ShareLot.source_tax lot + Qcabs (v * (ShareLot.quantity lot / T)) |}.
Proof. intros Hv. unfold credit_lot. now rewrite (NumFacts.ltb_false _ _ Hv). Qed.







(** ** Rounding *)

Lemma round_half_even_near (x : Q) :
  (- (1 # 2) <= inject_Z (Num.round_half_even x) - x <= 1 # 2)%Q.
Proof.
  unfold Num.round_half_even.
  pose proof (Qfloor_le x) as Hlo. pose proof (Qlt_floor x) as Hhi.
  rewrite inject_Z_plus in Hhi. change (inject_Z 1) with 1%Q in Hhi.
  destruct (Qcompare (x - inject_Z (Qfloor x)) (1 # 2)) eqn:E.
  - apply Qeq_alt in E.
    destruct (Z.even (Qfloor x)); rewrite ?inject_Z_plus;
      change (inject_Z 1) with 1%Q; lra.
  - apply Qlt_alt in E. lra.
  - apply Qgt_alt in E. rewrite inject_Z_plus. change (inject_Z 1) with 1%Q. lra.
Qed.

Lemma this_round2 x :
  (this (Num.round2 x) == inject_Z (Num.round_half_even (this x * 100)) / 100)%Q.
Proof. unfold Num.round2, Q2Qc; cbn [this]. apply Qred_correct. Qed.

Lemma round2_near (x : Qc) :
  - Q2Qc (1 # 200) <= Num.round2 x - x /\ Num.round2 x - x <= Q2Qc (1 # 200).
Proof.
  pose proof (round_half_even_near (this x * 100)) as H.
  unfold Qcle. rewrite this_opp, this_minus, this_round2.
  change (this (Q2Qc (1 # 200))) with (1 # 200)%Q.
  remember (inject_Z (Num.round_half_even (this x * 100))) as n eqn:En.
  clear En. unfold Qdiv. change (/ 100)%Q with (1 # 100)%Q. split; lra.
Qed.

Lemma convert_rounds tbl amount date r :
  get_exchange_rate tbl date = Some r -> r <> 0 -> amount <> 0 ->
  convert_usd_to_eur tbl (Some amount) date = Some (Num.round2 (amount / r)).
Proof.
  intros Hr Hr0 Ha0. unfold convert_usd_to_eur. rewrite Hr. simpl.
  destruct (NumFacts.eqb_spec amount 0); [contradiction|].
  destruct (NumFacts.eqb_spec r 0); [contradiction|]. reflexivity.
Qed.

Lemma wire_funds_fold tbl current_date txs :
  forall usd eur,
    fold_left (wire_funds_step tbl current_date) txs (usd, eur)
    = (usd + Num.sum (map (fun t => Num.or0 (Value t)) txs),
       eur + Num.sum
               (map (fun t =>
                       Num.or0 (convert_usd_to_eur tbl (Some (Num.or0 (Value t)))
                                  (wire_date current_date t)))
                  txs)).
Proof.
  induction txs as [|t txs IH]; intros usd eur; cbn [fold_left map Num.sum].
  - f_equal; ring.
  - change (wire_funds_step tbl current_date (usd, eur) t)
      with (usd + Num.or0 (Value t),
            eur + Num.or0 (convert_usd_to_eur tbl (Some (Num.or0 (Value t)))
                             (wire_date current_date t))).
    rewrite IH. f_equal; ring.
Qed.

Lemma rate_or_one_nonzero tbl date : rate_or_one tbl date <> 0.
Proof.
  unfold rate_or_one.
  destruct (get_exchange_rate tbl (String.substring 0 10 date)) as [r|]; simpl.
  - destruct (NumFacts.eqb_spec r 0); simpl; [qc_closed | assumption].
  - qc_closed.
Qed.

Lemma make_match_unrounded tbl key buy sell q :
  eur_unrounded tbl (make_match tbl key buy sell q).
Proof.
  unfold eur_unrounded, make_match.
  cbn [Match.buy_date Match.sell_date Match.cost_basis_eur Match.cost_basis
       Match.proceeds_eur Match.proceeds Match.gain_loss_eur].
  pose proof (rate_or_one_nonzero tbl (Buy.date buy)) as Hb.
  pose proof (rate_or_one_nonzero tbl (Sell.date sell)) as Hs.
  split; [field; exact Hb|]. split; [field; exact Hs | reflexivity].
Qed.

(** C9, as the code has it.  [convert_usd_to_eur] rounds the amount it
    returns to two decimals, at every conversion, and a total such as the
    EUR total of the wire deposits adds these rounded amounts.  The EUR
    fields of the matches of the realized-gains report are exact quotients
    by the rates, and nothing rounds them or their totals. *)
Theorem eur_rounding_is_per_conversion (tbl : gmap string Qc) :
  (forall (amount : Qc) (date : string) (r : Qc),
      get_exchange_rate tbl date = Some r -> r <> 0 -> amount <> 0 ->
      convert_usd_to_eur tbl (Some amount) date = Some (Num.round2 (amount / r)) /\
      - Q2Qc (1 # 200) <= Num.round2 (amount / r) - amount / r /\
      Num.round2 (amount / r) - amount / r <= Q2Qc (1 # 200)) /\
  (forall (current_date : string) (txs : list Transaction),
      snd (wire_funds_totals tbl current_date txs)
      = Num.sum
          (map (fun t =>
                  Num.or0 (convert_usd_to_eur tbl (Some (Num.or0 (Value t)))
                             (wire_date current_date t)))
             txs)) /\
  (forall symbol_transactions : list (string * SymbolData.t),
      Forall (eur_unrounded tbl)
        (Gains.detailed_transactions
           (_process_fifo_gains_by_category tbl symbol_transactions))).
Proof.
  split; [|split].
  - intros amount date r Hr Hr0 Ha0.
    split; [now apply convert_rounds | apply round2_near].
  - intros current_date txs. unfold wire_funds_totals.
    rewrite wire_funds_fold. cbn [snd]. ring.
  - intros st.
    apply (gains_detailed_inv tbl (fun _ => True) (fun _ => True)).
    + intros. apply make_match_unrounded.
    + trivial.
    + apply Forall_forall. intros kd _. split; apply Forall_forall; trivial.
Qed.

(** The conversion of 1.16 USD at the rate 1.10 of 2024-01-01. *)
Lemma eur_rounding_is_per_conversion_witness :
  convert_usd_to_eur rates_2024 (Some (Q2Qc 1.16)) "2024-01-01"
  = Some (Num.round2 (Q2Qc 1.16 / Q2Qc 1.10)).
Proof.
  apply (proj1 (eur_rounding_is_per_conversion rates_2024)
           (Q2Qc 1.16) "2024-01-01"%string (Q2Qc 1.10)).
  - reflexivity.
  - qc_closed.
  - qc_closed.
Defined.

(** C9 as stated fails both ways.  Two deposits of 1.16 USD at the rate
    1.10 are rounded to 1.05 each before they are added, which gives 2.10,
    while the total converted and rounded once is 2.11; and the EUR gain of
    the realized-gains report, 1500/1.08 - 1005/1.10, is returned with all
    its decimals. *)
Lemma eur_values_rounded_early_or_never :
  snd (wire_funds_totals rates_2024 "2024-06-01" two_deposits) = Q2Qc 2.10 /\
  Num.round2 (fst (wire_funds_totals rates_2024 "2024-06-01" two_deposits) / Q2Qc 1.10)
  = Q2Qc 2.11 /\
  Report.stock_gains_eur
    (calculate_realized_gains_losses rates_2024
       [scenario_A_buy; scenario_A_sell_later] "2024" None None)
  = Q2Qc 1500 / Q2Qc 1.08 - Q2Qc 1005 / Q2Qc 1.10 /\
  Report.stock_gains_eur
    (calculate_realized_gains_losses rates_2024
       [scenario_A_buy; scenario_A_sell_later] "2024" None None)
  <> Num.round2
       (Report.stock_gains_eur
          (calculate_realized_gains_losses rates_2024
             [scenario_A_buy; scenario_A_sell_later] "2024" None None)).
Proof.
  split; [qc_closed|]. split; [qc_closed|]. split; [qc_closed|]. qc_closed.
Qed.

(** ** Open lots: sell by sell, or all at once *)











(** * Further properties of the modelled code *)

(** ** Order facts for products and quotients *)

Module NumOrder.

Lemma this_mult a b : (this (a * b) == this a * this b)%Q.
Proof. unfold Qcmult, Q2Qc; cbn [this]. apply Qred_correct. Qed.

Lemma this_inv a : (this (/ a) == / this a)%Q.
Proof. unfold Qcinv, Q2Qc; cbn [this]. apply Qred_correct. Qed.

Lemma mult_nonneg a b : 0 <= a -> 0 <= b -> 0 <= a * b.
Proof.
  intros Ha Hb. replace 0 with (0 * b) by ring.
  now apply Qcmult_le_compat_r.
Qed.

Lemma inv_pos b : 0 < b -> 0 < / b.
Proof.
  intros Hb. unfold Qclt in *. rewrite this_inv.
  change (this 0) with 0%Q in *. now apply Qinv_lt_0_compat.
Qed.

Lemma div_nonneg a b : 0 <= a -> 0 < b -> 0 <= a / b.
Proof.
  intros Ha Hb. unfold Qcdiv. apply mult_nonneg; [exact Ha|].
  apply Qclt_le_weak. now apply inv_pos.
Qed.

Lemma div_le_one a b : a <= b -> 0 < b -> a / b <= 1.
Proof.
  intros Hab Hb.
  assert (Hb0 : b <> 0) by qc_lra.
  replace 1 with (b / b) by (field; exact Hb0).
  unfold Qcdiv. apply Qcmult_le_compat_r; [exact Hab|].
  apply Qclt_le_weak. now apply inv_pos.
Qed.

Lemma mult_le_self a f : 0 <= a -> f <= 1 -> a * f <= a.
Proof.
  intros Ha Hf. replace (a * f) with (f * a) by ring.
  replace a with (1 * a) at 2 by ring.
  now apply Qcmult_le_compat_r.
Qed.

End NumOrder.

(** ** What the matching loop accounts for *)

Lemma sum_app (l1 l2 : list Qc) : Num.sum (l1 ++ l2) = Num.sum l1 + Num.sum l2.
Proof. induction l1 as [|x l1 IH]; simpl; [ring|]. rewrite IH. ring. Qed.

(** One closing record: the matches it appends, the quantity they take from
    the queue, the share of the proceeds each carries and, when the lots
    have positive quantities, the cost they take with them. *)
Lemma match_sell_accounts tbl key sell buys :
  forall r acc,
    exists ms,
      Acc.detailed_transactions (snd (match_sell tbl key sell r buys acc))
      = Acc.detailed_transactions acc ++ ms /\
      Num.sum (map Buy.quantity (fst (match_sell tbl key sell r buys acc)))
      + Num.sum (map Match.quantity ms)
      = Num.sum (map Buy.quantity buys) /\
      Forall (fun m =>
                Match.proceeds m
                = (if Num.ltb 0 (Sell.quantity sell)
                   then Match.quantity m / Sell.quantity sell * Sell.total_proceeds sell
                   else 0)) ms /\
      (Forall (fun b => 0 < Buy.quantity b) buys ->
       Forall (fun b => 0 < Buy.quantity b) (fst (match_sell tbl key sell r buys acc)) /\
       Num.sum (map (fun b => Buy.total_cost b + Buy.fees b)
                  (fst (match_sell tbl key sell r buys acc)))
       + Num.sum (map Match.cost_basis ms)
       = Num.sum (map (fun b => Buy.total_cost b + Buy.fees b) buys)).
Proof.
  induction buys as [|b rest IH]; intros r acc.
  - exists []. simpl. rewrite app_nil_r.
    split; [reflexivity|]. split; [ring|]. split; [apply Forall_nil_2|].
    intros _. split; [apply Forall_nil_2 | ring].
  - cbn [match_sell].
    destruct (NumFacts.ltb_spec 0 r) as [Hr|Hr].
    + destruct (NumFacts.leb_spec (Buy.quantity b) r) as [Hle|Hgt].
      * destruct (IH (r - Buy.quantity b)
                    (record_match (make_match tbl key b sell (Buy.quantity b)) acc))
          as (ms & E & HQ & HP & HC).
        exists (make_match tbl key b sell (Buy.quantity b) :: ms).
        split; [rewrite E, record_match_detailed, <- app_assoc; reflexivity|].
        split; [simpl; rewrite <- HQ; ring|].
        split; [constructor; [reflexivity | exact HP]|].
        intros Hpos. apply Forall_cons in Hpos as [Hb Hrest].
        destruct (HC Hrest) as [HF HS]. split; [exact HF|].
        simpl. rewrite <- HS.
        unfold _calculate_fifo_match. cbn [MatchResult.cost_basis].
        rewrite (NumFacts.ltb_true _ _ Hb).
        assert (Buy.quantity b <> 0) by qc_lra.
        field. assumption.
      * exists [make_match tbl key b sell r]. cbn [fst snd].
        split; [now rewrite record_match_detailed|].
        split.
        { simpl. unfold shrink_buy. destruct (Num.ltb 0 (Buy.quantity b - r)); simpl; ring. }
        split; [constructor; [reflexivity | constructor]|].
        intros Hpos. apply Forall_cons in Hpos as [Hb Hrest].
        assert (Hlt : r < Buy.quantity b) by (apply Qcnot_le_lt; exact Hgt).
        rewrite shrink_buy_partial by assumption.
        split; [constructor; [simpl; qc_lra | exact Hrest]|].
        simpl. unfold _calculate_fifo_match. cbn [MatchResult.cost_basis].
        rewrite (NumFacts.ltb_true _ _ Hb).
        assert (Buy.quantity b <> 0) by qc_lra.
        field. assumption.
    + exists []. cbn [fst snd]. rewrite app_nil_r.
      split; [reflexivity|]. split; [simpl; ring|]. split; [apply Forall_nil_2|].
      intros Hpos. split; [exact Hpos | simpl; ring].
Qed.

Lemma match_sells_accounts tbl key sells :
  forall buys acc,
    exists ms,
      Acc.detailed_transactions (snd (match_sells tbl key sells buys acc))
      = Acc.detailed_transactions acc ++ ms /\
      Num.sum (map Buy.quantity (fst (match_sells tbl key sells buys acc)))
      + Num.sum (map Match.quantity ms)
      = Num.sum (map Buy.quantity buys) /\
      (Forall (fun b => 0 < Buy.quantity b) buys ->
       Forall (fun b => 0 < Buy.quantity b) (fst (match_sells tbl key sells buys acc)) /\
       Num.sum (map (fun b => Buy.total_cost b + Buy.fees b)
                  (fst (match_sells tbl key sells buys acc)))
       + Num.sum (map Match.cost_basis ms)
       = Num.sum (map (fun b => Buy.total_cost b + Buy.fees b) buys)).
Proof.
  unfold match_sells.
  induction sells as [|sell rest IH]; intros buys acc; cbn [fold_left fst snd].
  - exists []. rewrite app_nil_r.
    split; [reflexivity|]. split; [simpl; ring|].
    intros Hpos. split; [exact Hpos | simpl; ring].
  - destruct (match_sell_accounts tbl key sell buys (Sell.quantity sell) acc)
      as (ms1 & E1 & Q1 & _ & C1).
    destruct (match_sell tbl key sell (Sell.quantity sell) buys acc) as [buys1 acc1].
    cbn [fst snd] in *.
    destruct (IH buys1 acc1) as (ms2 & E2 & Q2 & C2).
    exists (ms1 ++ ms2).
    split; [rewrite E2, E1, <- app_assoc; reflexivity|].
    split.
    { rewrite map_app, sum_app. rewrite <- Q1, <- Q2. ring. }
    intros Hpos. destruct (C1 Hpos) as [F1 S1]. destruct (C2 F1) as [F2 S2].
    split; [exact F2|].
    rewrite map_app, sum_app. rewrite <- S1, <- S2. ring.
Qed.

(** X1.  Matching the closing rows of a symbol neither creates nor loses
    quantity: what is left in the queue plus what the appended matches
    carry is what the lots held before, whatever the rows are. *)
Theorem matching_conserves_quantity (tbl : gmap string Qc) (key : string)
    (data : SymbolData.t) (acc : Acc.t) :
  exists ms,
    Acc.detailed_transactions (snd (process_symbol tbl key data acc))
    = Acc.detailed_transactions acc ++ ms /\
    Num.sum (map Buy.quantity (fst (process_symbol tbl key data acc)))
    + Num.sum (map Match.quantity ms)
    = Num.sum (map Buy.quantity (SymbolData.buys data)).
Proof.
  unfold process_symbol.
  destruct (match_sells_accounts tbl key (SymbolData.sells data)
              (SymbolData.buys data) acc) as (ms & E & HQ & _).
  exists ms. now split.
Qed.

(** X2.  When every lot of a symbol has a positive quantity, matching
    splits the cost of the lots without loss: the cost and fees left in the
    queue plus the cost bases of the appended matches are the cost and fees
    the lots had before, and the lots left still have positive quantities. *)
Theorem matching_conserves_cost (tbl : gmap string Qc) (key : string)
    (data : SymbolData.t) (acc : Acc.t) :
  Forall (fun b => 0 < Buy.quantity b) (SymbolData.buys data) ->
  exists ms,
    Acc.detailed_transactions (snd (process_symbol tbl key data acc))
    = Acc.detailed_transactions acc ++ ms /\
    Forall (fun b => 0 < Buy.quantity b) (fst (process_symbol tbl key data acc)) /\
    Num.sum (map (fun b => Buy.total_cost b + Buy.fees b)
               (fst (process_symbol tbl key data acc)))
    + Num.sum (map Match.cost_basis ms)
    = Num.sum (map (fun b => Buy.total_cost b + Buy.fees b) (SymbolData.buys data)).
Proof.
  intros Hpos. unfold process_symbol.
  destruct (match_sells_accounts tbl key (SymbolData.sells data)
              (SymbolData.buys data) acc) as (ms & E & _ & HC).
  destruct (HC Hpos) as [HF HS].
  exists ms. now repeat split.
Qed.

(** Lots of 100 and 50 and a close of 40. *)
Lemma matching_conserves_cost_witness :
  let data := {| SymbolData.buys := [buy_of_row lot_100; buy_of_row lot_50];
                 SymbolData.sells := [sell_of_row close_40];
                 SymbolData.asset_category := None |} in
  exists ms,
    Acc.detailed_transactions (snd (process_symbol ∅ "AAPL" data Acc.init)) = [] ++ ms /\
    Forall (fun b => 0 < Buy.quantity b) (fst (process_symbol ∅ "AAPL" data Acc.init)) /\
    Num.sum (map (fun b => Buy.total_cost b + Buy.fees b)
               (fst (process_symbol ∅ "AAPL" data Acc.init)))
    + Num.sum (map Match.cost_basis ms)
    = Num.sum (map (fun b => Buy.total_cost b + Buy.fees b) (SymbolData.buys data)).
Proof.
  intros data.
  apply (matching_conserves_cost ∅ "AAPL" data Acc.init).
  repeat constructor; qc_closed.
Defined.

Lemma proceeds_sum (sell : Sell.t) ms :
  0 < Sell.quantity sell ->
  Forall (fun m =>
            Match.proceeds m
            = (if Num.ltb 0 (Sell.quantity sell)
               then Match.quantity m / Sell.quantity sell * Sell.total_proceeds sell
               else 0)) ms ->
  Num.sum (map Match.proceeds ms)
  = Num.sum (map Match.quantity ms) / Sell.quantity sell * Sell.total_proceeds sell.
Proof.
  intros Hs. rewrite (NumFacts.ltb_true _ _ Hs).
  assert (Hs0 : Sell.quantity sell <> 0) by qc_lra.
  induction 1 as [|m ms Hm _ IH]; simpl.
  - field. exact Hs0.
  - rewrite IH, Hm. field. exact Hs0.
Qed.

(** X3.  The proceeds of a closing record of positive quantity are split
    over its matches by quantity.  When the lots hold at least its
    quantity, the proceeds of its matches add up to its total proceeds;
    when they hold less, the matches carry only the share of the proceeds
    that the open quantity is of the closing quantity, and the rest of the
    proceeds appears in no match. *)
Theorem close_proceeds_follow_matched_quantity (tbl : gmap string Qc)
    (key : string) (sell : Sell.t) (buys : list Buy.t) (acc : Acc.t) :
  0 < Sell.quantity sell ->
  exists ms,
    Acc.detailed_transactions
      (snd (match_sell tbl key sell (Sell.quantity sell) buys acc))
    = Acc.detailed_transactions acc ++ ms /\
    (Sell.quantity sell <= Num.sum (map Buy.quantity buys) ->
     Num.sum (map Match.proceeds ms) = Sell.total_proceeds sell) /\
    (Forall (fun b => 0 <= Buy.quantity b) buys ->
     Num.sum (map Buy.quantity buys) < Sell.quantity sell ->
     Num.sum (map Match.proceeds ms)
     = Num.sum (map Buy.quantity buys) / Sell.quantity sell * Sell.total_proceeds sell).
Proof.
  intros Hs.
  assert (Hs0 : Sell.quantity sell <> 0) by qc_lra.
  destruct (match_sell_accounts tbl key sell buys (Sell.quantity sell) acc)
    as (ms & E & HQ & HP & _).
  exists ms. split; [exact E|].
  rewrite (proceeds_sum sell ms Hs HP). split.
  - intros Hcov.
    destruct (match_sell_quantity tbl key sell buys (Sell.quantity sell) acc)
      as (ms' & E' & S'); [qc_lra | exact Hcov |].
    rewrite E in E'. apply app_inv_head in E'. subst ms'. rewrite S'.
    field. exact Hs0.
  - intros Hnn Hover.
    pose proof (match_sell_over tbl key sell buys (Sell.quantity sell) acc Hnn Hover) as Hst.
    rewrite Hst in E. cbn [snd] in E. rewrite fold_record_detailed in E.
    apply app_inv_head in E. subst ms. now rewrite whole_lot_quantities.
Qed.

(** Fifteen sold for 300 against a lot of ten: the match carries 200. *)
Lemma close_proceeds_follow_matched_quantity_witness :
  exists ms,
    Acc.detailed_transactions
      (snd (match_sell ∅ "MSFT" (sell_of_row sold_15)
              (Sell.quantity (sell_of_row sold_15)) [buy_of_row bought_10] Acc.init))
    = [] ++ ms /\
    Num.sum (map Match.proceeds ms)
    = Num.sum (map Buy.quantity [buy_of_row bought_10])
      / Sell.quantity (sell_of_row sold_15) * Sell.total_proceeds (sell_of_row sold_15).
Proof.
  destruct (close_proceeds_follow_matched_quantity ∅ "MSFT" (sell_of_row sold_15)
              [buy_of_row bought_10] Acc.init) as (ms & E & _ & Hover).
  - qc_closed.
  - exists ms. split; [exact E|]. apply Hover.
    + repeat constructor. qc_closed.
    + qc_closed.
Defined.

(** ** The totals of the realized-gains report *)

Section AccInvariant.

(** A property of the running totals that recording a match keeps. *)
Variable tbl : gmap string Qc.
Variable Inv : Acc.t -> Prop.
Hypothesis Inv_record : forall m acc, Inv acc -> Inv (record_match m acc).

Lemma match_sell_acc key sell buys :
  forall r acc, Inv acc -> Inv (snd (match_sell tbl key sell r buys acc)).
Proof.
  induction buys as [|b rest IH]; intros r acc H; simpl; [exact H|].
  destruct (Num.ltb 0 r); [|exact H].
  destruct (Num.leb (Buy.quantity b) r); [|simpl]; auto.
Qed.

Lemma match_sells_acc key sells :
  forall buys acc, Inv acc -> Inv (snd (match_sells tbl key sells buys acc)).
Proof.
  unfold match_sells.
  induction sells as [|sell rest IH]; intros buys acc H; simpl; [exact H|].
  pose proof (match_sell_acc key sell buys (Sell.quantity sell) acc H) as H1.
  destruct (match_sell tbl key sell (Sell.quantity sell) buys acc) as [b1 a1].
  now apply IH.
Qed.

Lemma process_all_acc symbol_transactions :
  forall acc,
    Inv acc ->
    Inv (fold_left (fun acc kd => snd (process_symbol tbl (fst kd) (snd kd) acc))
           symbol_transactions acc).
Proof.
  induction symbol_transactions as [|kd rest IH]; intros acc H; simpl; [exact H|].
  apply IH. unfold process_symbol. now apply match_sells_acc.
Qed.

End AccInvariant.

Lemma stock_not_option x : is_text x "Stock" = true -> is_text x "Option" = false.
Proof. intros H. apply is_text_eq in H. now subst x. Qed.

Lemma record_match_consistent m acc :
  totals_consistent acc -> totals_consistent (record_match m acc).
Proof.
  unfold totals_consistent.
  intros (HG & HL & HN & G1 & G2 & G3 & L1 & L2 & L3).
  unfold record_match.
  destruct (NumFacts.ltb_spec 0 (Match.gain_loss m)) as [Hpos|Hneg];
    cbn [Acc.total_gains Acc.total_losses Acc.stock_gains Acc.stock_losses
         Acc.option_gains Acc.option_losses Acc.other_gains Acc.other_losses
         Acc.detailed_transactions];
    rewrite map_app, sum_app; cbn [map Num.sum].
  - destruct (is_text (Match.asset_category m) "Stock") eqn:ES; cbn [negb andb];
      [|destruct (is_text (Match.asset_category m) "Option") eqn:EO; cbn [negb andb]];
      repeat split; try assumption; qc_lra.
  - assert (Hle : Match.gain_loss m <= 0) by (apply Qcnot_lt_le; exact Hneg).
    rewrite (Qcabs_neg _ Hle).
    destruct (is_text (Match.asset_category m) "Stock") eqn:ES; cbn [negb andb];
      [|destruct (is_text (Match.asset_category m) "Option") eqn:EO; cbn [negb andb]];
      repeat split; try assumption; qc_lra.
Qed.

Lemma init_consistent : totals_consistent Acc.init.
Proof.
  unfold totals_consistent, Acc.init. simpl.
  repeat split; try ring; qc_closed.
Qed.

(** X4.  In the realized-gains report the gains are the sum of the stock,
    option and other gains, the losses the sum of the three kinds of
    losses, none of the six is negative, and the net gain is the sum of the
    gains and losses of the matches listed in the report. *)
Theorem report_totals_are_consistent (tbl : gmap string Qc)
    (db : list Transaction) (current_year : string) (symbol year : option string) :
  let r := calculate_realized_gains_losses tbl db current_year symbol year in
  Report.total_gains r
  = Report.stock_gains r + Report.option_gains r + Report.other_gains r /\
  Report.total_losses r
  = Report.stock_losses r + Report.option_losses r + Report.other_losses r /\
  Report.net_gain_loss r
  = Num.sum (map Match.gain_loss (Report.detailed_transactions r)) /\
  Report.net_gain_loss r
  = Report.stock_net_gain_loss r + Report.option_net_gain_loss r
    + Report.other_net_gain_loss r /\
  0 <= Report.stock_gains r /\ 0 <= Report.option_gains r /\ 0 <= Report.other_gains r /\
  0 <= Report.stock_losses r /\ 0 <= Report.option_losses r /\ 0 <= Report.other_losses r.
Proof.
  intros r. subst r. unfold calculate_realized_gains_losses, _process_fifo_gains_by_category.
  cbn [Report.total_gains Report.total_losses Report.net_gain_loss
       Report.detailed_transactions Report.stock_gains Report.stock_losses
       Report.option_gains Report.option_losses Report.other_gains Report.other_losses
       Report.stock_net_gain_loss Report.option_net_gain_loss Report.other_net_gain_loss
       Gains.total_gains Gains.total_losses Gains.detailed_transactions
       Gains.stock_gains Gains.stock_losses Gains.option_gains Gains.option_losses
       Gains.other_gains Gains.other_losses].
  match goal with
  | |- context [fold_left ?f ?l Acc.init] =>
      pose proof (process_all_acc tbl totals_consistent record_match_consistent
                    l Acc.init init_consistent) as H;
      set (acc := fold_left f l Acc.init) in *
  end.
  destruct H as (HG & HL & HN & G1 & G2 & G3 & L1 & L2 & L3).
  repeat split; try assumption.
  rewrite HG, HL. ring.
Qed.

Lemma sum_where_cons p f (m : Match.t) l :
  sum_where p f (m :: l) = (if p m then f m else 0) + sum_where p f l.
Proof.
  unfold sum_where. simpl. destruct (p m); simpl; ring.
Qed.

Lemma sum_where_nonneg p f l :
  (forall m, p m = true -> 0 <= f m) -> 0 <= sum_where p f l.
Proof.
  intros H. induction l as [|m l IH]; [unfold sum_where; simpl; qc_closed|].
  rewrite sum_where_cons. destruct (p m) eqn:E; [specialize (H m E)|]; qc_lra.
Qed.

(** Gains less losses of a category are the signed sum over the category. *)
Lemma signed_split (c : Match.t -> bool) (f : Match.t -> Qc) l :
  sum_where (fun m => c m && Num.ltb 0 (f m)) f l
  - sum_where (fun m => c m && Num.ltb (f m) 0) (fun m => Qcabs (f m)) l
  = sum_where c f l.
Proof.
  induction l as [|m l IH]; [unfold sum_where; simpl; ring|].
  rewrite !sum_where_cons, <- IH.
  destruct (c m); cbn [andb]; [|ring].
  destruct (NumFacts.ltb_spec 0 (f m)) as [P|NP];
    destruct (NumFacts.ltb_spec (f m) 0) as [N|NN].
  - exfalso. qc_lra.
  - ring.
  - rewrite Qcabs_neg by qc_lra. ring.
  - assert (f m = 0) as -> by qc_lra. ring.
Qed.

Lemma category_split (f : Match.t -> Qc) l :
  sum_where (fun m => is_text (Match.asset_category m) "Stock") f l
  + sum_where (fun m => is_text (Match.asset_category m) "Option") f l
  + sum_where is_other f l
  = Num.sum (map f l).
Proof.
  induction l as [|m l IH]; [unfold sum_where; simpl; ring|].
  rewrite !sum_where_cons. cbn [map Num.sum]. rewrite <- IH.
  unfold is_other.
  destruct (is_text (Match.asset_category m) "Stock") eqn:ES.
  - rewrite (stock_not_option _ ES). cbn [orb negb]. ring.
  - destruct (is_text (Match.asset_category m) "Option"); cbn [orb negb]; ring.
Qed.

(** X5.  The EUR net realized gain of the tax summary is the sum of the
    EUR gains and losses of the matches of the report, each converted at
    its own rates; the six EUR category totals are not negative.  A match
    counts as a gain or a loss by the sign of its EUR amount. *)
Theorem eur_net_is_sum_of_match_amounts (tbl : gmap string Qc)
    (db : list Transaction) (current_year : string) (symbol year : option string) :
  let r := calculate_realized_gains_losses tbl db current_year symbol year in
  net_realized_gain_loss_eur r
  = Num.sum (map Match.gain_loss_eur (Report.detailed_transactions r)) /\
  0 <= Report.stock_gains_eur r /\ 0 <= Report.stock_losses_eur r /\
  0 <= Report.option_gains_eur r /\ 0 <= Report.option_losses_eur r /\
  0 <= Report.other_gains_eur r /\ 0 <= Report.other_losses_eur r.
Proof.
  intros r. subst r.
  unfold net_realized_gain_loss_eur, realized_gains_eur, realized_losses_eur,
    calculate_realized_gains_losses, _process_fifo_gains_by_category.
  cbn [Report.detailed_transactions Report.stock_gains_eur Report.stock_losses_eur
       Report.option_gains_eur Report.option_losses_eur Report.other_gains_eur
       Report.other_losses_eur Gains.detailed_transactions Gains.stock_gains_eur
       Gains.stock_losses_eur Gains.option_gains_eur Gains.option_losses_eur
       Gains.other_gains_eur Gains.other_losses_eur Num.sum].
  match goal with
  | |- context [Acc.detailed_transactions ?a] =>
      set (dt := Acc.detailed_transactions a)
  end.
  split.
  - rewrite <- (category_split Match.gain_loss_eur dt).
    rewrite <- (signed_split (fun m => is_text (Match.asset_category m) "Stock")),
            <- (signed_split (fun m => is_text (Match.asset_category m) "Option")),
            <- (signed_split is_other).
    ring.
  - repeat split; apply sum_where_nonneg; intros m Hm;
      apply andb_true_iff in Hm as [_ Hm];
      try apply Qcabs_nonneg;
      destruct (NumFacts.ltb_spec 0 (Match.gain_loss_eur m)); try discriminate; qc_lra.
Qed.

(** ** What grouping keeps of the rows *)

Lemma symbol_step_fold rows :
  forall d,
    fold_left symbol_step rows (Some d)
    = Some {| SymbolData.buys :=
                SymbolData.buys d ++ map buy_of_row (List.filter is_buy_row rows);
              SymbolData.sells :=
                SymbolData.sells d ++ map sell_of_row (List.filter is_sell_row rows);
              SymbolData.asset_category := SymbolData.asset_category d |}.
Proof.
  induction rows as [|t rows IH]; intros d; simpl.
  - rewrite !app_nil_r. now destruct d.
  - unfold symbol_step at 2. cbn [default]. unfold is_buy_row, is_sell_row.
    destruct (text_in (Action t) ["BUY_TO_OPEN"; "BUY_TO_CLOSE"]%string) eqn:EB.
    + assert (ES : text_in (Action t) ["SELL_TO_CLOSE"; "SELL_TO_OPEN"]%string = false).
      { destruct (text_in (Action t) ["SELL_TO_CLOSE"; "SELL_TO_OPEN"]%string) eqn:E;
          [|reflexivity].
        rewrite (sell_action_not_buy _ E) in EB. discriminate. }
      rewrite ES, IH. simpl. now rewrite <- app_assoc.
    + destruct (text_in (Action t) ["SELL_TO_CLOSE"; "SELL_TO_OPEN"]%string) eqn:ES;
        rewrite IH; simpl; [now rewrite <- app_assoc | reflexivity].
Qed.

(** X6.  The entry of a symbol holds, as lots, all its BUY_TO_OPEN and
    BUY_TO_CLOSE rows in the order of the rows and, as closing records, all
    its SELL_TO_CLOSE and SELL_TO_OPEN rows in that order; its category is
    the category of the first row of the symbol, whatever that row is; a
    symbol has an entry exactly when it has a row.  How the rows of the two
    sides are interleaved plays no part, so a closing row is matched
    against lots that were opened after it. *)
Theorem group_entry_by_side (db : list Transaction) (s : string) :
  dict_get s (_group_transactions_by_symbol db)
  = match rows_of s db with
    | [] => None
    | t :: _ =>
        Some {| SymbolData.buys :=
                  map buy_of_row (List.filter is_buy_row (rows_of s db));
                SymbolData.sells :=
                  map sell_of_row (List.filter is_sell_row (rows_of s db));
                SymbolData.asset_category := Asset_Category t |}
    end.
Proof.
  unfold _group_transactions_by_symbol. rewrite group_get. cbn [dict_get].
  destruct (rows_of s db) as [|t rows]; [reflexivity|].
  cbn [fold_left]. unfold symbol_step at 2. cbn [default].
  cbn [List.filter map]. fold (is_buy_row t) (is_sell_row t).
  destruct (is_buy_row t) eqn:EB.
  - assert (ES : is_sell_row t = false).
    { destruct (is_sell_row t) eqn:E; [|reflexivity].
      unfold is_buy_row, is_sell_row in *.
      rewrite (sell_action_not_buy _ E) in EB. discriminate. }
    rewrite ES, symbol_step_fold. reflexivity.
  - destruct (is_sell_row t) eqn:ES; rewrite symbol_step_fold; reflexivity.
Qed.

(** ** Where a match comes from *)

Section KeyedInvariant.

(** As in [MatcherInvariant], with properties that know the symbol under
    which a lot or a closing record is kept. *)
Variable tbl : gmap string Qc.
Variable I : string -> Buy.t -> Prop.
Variable J : string -> Sell.t -> Prop.
Variable P : Match.t -> Prop.
Hypothesis P_make :
  forall key buy sell q, I key buy -> J key sell -> P (make_match tbl key buy sell q).
Hypothesis I_shrink : forall key buy q, I key buy -> I key (shrink_buy buy q).

Lemma match_sell_keyed key sell (Hs : J key sell) buys :
  forall r acc,
    Forall (I key) buys -> Forall P (Acc.detailed_transactions acc) ->
    Forall (I key) (fst (match_sell tbl key sell r buys acc)) /\
    Forall P (Acc.detailed_transactions (snd (match_sell tbl key sell r buys acc))).
Proof.
  induction buys as [|buy rest IH]; intros r acc HI HP; simpl; [now split|].
  apply Forall_cons in HI as [Hb Hrest].
  destruct (Num.ltb 0 r); [|split; [now constructor | exact HP]].
  destruct (Num.leb (Buy.quantity buy) r).
  - apply IH; [exact Hrest|].
    rewrite record_match_detailed. apply Forall_app. split; [exact HP|].
    constructor; [now apply P_make | constructor].
  - simpl. split.
    + constructor; [now apply I_shrink | exact Hrest].
    + rewrite record_match_detailed. apply Forall_app. split; [exact HP|].
      constructor; [now apply P_make | constructor].
Qed.

Lemma match_sells_keyed key sells :
  forall buys acc,
    Forall (J key) sells -> Forall (I key) buys ->
    Forall P (Acc.detailed_transactions acc) ->
    Forall (I key) (fst (match_sells tbl key sells buys acc)) /\
    Forall P (Acc.detailed_transactions (snd (match_sells tbl key sells buys acc))).
Proof.
  unfold match_sells.
  induction sells as [|sell rest IH]; intros buys acc HJ HI HP; simpl; [now split|].
  apply Forall_cons in HJ as [Hs Hrest].
  destruct (match_sell_keyed key sell Hs buys (Sell.quantity sell) acc HI HP) as [HI' HP'].
  destruct (match_sell tbl key sell (Sell.quantity sell) buys acc) as [buys' acc'].
  now apply IH.
Qed.

Lemma process_all_keyed symbol_transactions :
  forall acc,
    Forall (keyed_data_ok I J) symbol_transactions ->
    Forall P (Acc.detailed_transactions acc) ->
    Forall P (Acc.detailed_transactions
                (fold_left (fun acc kd => snd (process_symbol tbl (fst kd) (snd kd) acc))
                   symbol_transactions acc)).
Proof.
  induction symbol_transactions as [|[key data] rest IH]; intros acc Hok HP; simpl;
    [exact HP|].
  apply Forall_cons in Hok as [[Hb Hs] Hrest]. simpl in Hb, Hs.
  apply IH; [exact Hrest|].
  unfold process_symbol. now apply match_sells_keyed.
Qed.

Variable Q : Transaction -> Prop.
Hypothesis I_row : forall t, Q t -> is_buy_row t = true -> I (Symbol t) (buy_of_row t).
Hypothesis J_row : forall t, Q t -> is_sell_row t = true -> J (Symbol t) (sell_of_row t).

Lemma group_step_keyed d t :
  Q t -> Forall (keyed_data_ok I J) d -> Forall (keyed_data_ok I J) (group_step d t).
Proof.
  intros Ht Hd. unfold group_step.
  assert (Hdef : Forall (keyed_data_ok I J)
                   (dict_setdefault (Symbol t)
                      {| SymbolData.buys := []; SymbolData.sells := [];
                         SymbolData.asset_category := Asset_Category t |} d)).
  { apply dict_setdefault_Forall; [|exact Hd]. split; constructor. }
  fold (is_buy_row t) (is_sell_row t).
  destruct (is_buy_row t) eqn:EB; [|destruct (is_sell_row t) eqn:ES]; [| |exact Hdef].
  - apply dict_update_Forall; [|exact Hdef].
    intros v [Hb Hs]. split; simpl in *; [|exact Hs].
    apply Forall_app. split; [exact Hb | constructor; [now apply I_row | constructor]].
  - apply dict_update_Forall; [|exact Hdef].
    intros v [Hb Hs]. split; simpl in *; [exact Hb|].
    apply Forall_app. split; [exact Hs | constructor; [now apply J_row | constructor]].
Qed.

Lemma group_keyed rows :
  Forall Q rows -> Forall (keyed_data_ok I J) (_group_transactions_by_symbol rows).
Proof.
  unfold _group_transactions_by_symbol.
  assert (G : forall d, Forall Q rows -> Forall (keyed_data_ok I J) d ->
                        Forall (keyed_data_ok I J) (fold_left group_step rows d)).
  { induction rows as [|t rows IH]; intros d Hr Hd; simpl; [exact Hd|].
    apply Forall_cons in Hr as [Ht Hr]. apply IH; [exact Hr|].
    now apply group_step_keyed. }
  intros Hr. apply G; [exact Hr | constructor].
Qed.

End KeyedInvariant.

Lemma shrink_buy_price buy q : Buy.price (shrink_buy buy q) = Buy.price buy.
Proof. unfold shrink_buy. destruct (Num.ltb 0 _); reflexivity. Qed.

Lemma shrink_buy_category buy q :
  Buy.asset_category (shrink_buy buy q) = Buy.asset_category buy.
Proof. unfold shrink_buy. destruct (Num.ltb 0 _); reflexivity. Qed.

(** X7.  Every match of the realized-gains report pairs one buy-side row
    with one sell-side row of the table, both selected by the query and
    both of the symbol of the match: lots of one symbol are never closed
    by rows of another.  The dates and unit prices of the match are those
    of the two rows, and its category is that of the buy-side row, also
    when the sell-side row carries another one. *)
Theorem matches_pair_rows_of_one_symbol (tbl : gmap string Qc)
    (db : list Transaction) (current_year : string)
    (symbol year : option string) :
  Forall (match_from_rows db (_build_gains_query_conditions symbol year current_year))
    (Report.detailed_transactions
       (calculate_realized_gains_losses tbl db current_year symbol year)).
Proof.
  set (cond := _build_gains_query_conditions symbol year current_year).
  unfold calculate_realized_gains_losses. cbn [Report.detailed_transactions].
  unfold _process_fifo_gains_by_category. cbn [Gains.detailed_transactions].
  fold cond.
  apply (process_all_keyed tbl
           (fun key b => exists t, In t db /\ cond t = true /\ Symbol t = key /\
                                   is_buy_row t = true /\ Buy.date b = Date t /\
                                   Buy.asset_category b = Asset_Category t /\
                                   Buy.price b = abs_or0 (Average_Price t))
           (fun key s => exists t, In t db /\ cond t = true /\ Symbol t = key /\
                                   is_sell_row t = true /\ Sell.date s = Date t /\
                                   Sell.price s = abs_or0 (Average_Price t))).
  - intros key buy sell q (tb & Hb1 & Hb2 & Hb3 & Hb4 & Hb5 & Hb6 & Hb7)
      (ts & Hs1 & Hs2 & Hs3 & Hs4 & Hs5 & Hs6).
    exists tb, ts. cbn. repeat split; assumption.
  - intros key buy q (t & H). exists t.
    rewrite shrink_buy_date, shrink_buy_price, shrink_buy_category. exact H.
  - apply (group_keyed _ _ (fun t => In t db /\ cond t = true)).
    + intros t [H1 H2] HB. exists t. repeat split; assumption.
    + intros t [H1 H2] HS. exists t. repeat split; assumption.
    + apply order_by_date_Forall. apply Forall_forall. intros t Ht.
      apply list_elem_of_In, filter_In in Ht. exact Ht.
  - constructor.
Qed.

(** ** The report and rates of later dates *)

(** The lookup reads the table at and before the requested date only. *)
Lemma get_exchange_rate_ext (tbl1 tbl2 : gmap string Qc) (d : string) :
  (forall k, date_le k d -> tbl1 !! k = tbl2 !! k) ->
  get_exchange_rate tbl1 d = get_exchange_rate tbl2 d.
Proof.
  intros Hagree.
  destruct (tbl1 !! d) as [r|] eqn:Hd.
  - rewrite (get_exchange_rate_exact tbl1 d r Hd). symmetry.
    apply get_exchange_rate_exact. rewrite <- Hagree; [exact Hd | apply date_le_refl].
  - assert (Hd2 : tbl2 !! d = None).
    { rewrite <- Hagree; [exact Hd | apply date_le_refl]. }
    unfold get_exchange_rate at 1. rewrite Hd.
    destruct (closest_previous tbl1 d) as [[kb rb]|] eqn:E.
    + apply closest_previous_Some in E as (Hb & Hbd & Hbmax). simpl in *.
      symmetry. apply (get_exchange_rate_previous tbl2 d kb rb Hd2).
      * rewrite <- Hagree; assumption.
      * destruct (date_le_lt_or_eq _ _ Hbd) as [L| ->]; [exact L|congruence].
      * intros k' [r' Hk'] Hlt.
        apply (Hbmax k' r'); [|now apply date_lt_le].
        rewrite Hagree; [exact Hk' | now apply date_lt_le].
    + simpl. symmetry. apply get_exchange_rate_absent.
      intros k [r Hk] Hkd.
      apply (closest_previous_None _ _ E k r); [|exact Hkd].
      rewrite Hagree; assumption.
Qed.

Lemma get_exchange_rate_insert_later (tbl : gmap string Qc) (k d : string) (r : Qc) :
  date_lt d k -> get_exchange_rate (<[k := r]> tbl) d = get_exchange_rate tbl d.
Proof.
  intros Hlt. apply get_exchange_rate_ext. intros k' Hle.
  apply lookup_insert_ne. intros ->.
  apply (date_lt_not_le _ _ Hlt Hle).
Qed.

Section RateAgreement.

(** Two tables that give the same rate on the dates [D]. *)
Variables tbl1 tbl2 : gmap string Qc.
Variable D : string -> Prop.
Hypothesis agree : forall d, D d -> rate_or_one tbl1 d = rate_or_one tbl2 d.

Lemma make_match_agree key buy sell q :
  D (Buy.date buy) -> D (Sell.date sell) ->
  make_match tbl1 key buy sell q = make_match tbl2 key buy sell q.
Proof. intros Hb Hs. unfold make_match. now rewrite (agree _ Hb), (agree _ Hs). Qed.

Lemma match_sell_agree key sell (Hs : D (Sell.date sell)) buys :
  forall r acc,
    Forall (fun b => D (Buy.date b)) buys ->
    match_sell tbl1 key sell r buys acc = match_sell tbl2 key sell r buys acc.
Proof.
  induction buys as [|buy rest IH]; intros r acc HI; simpl; [reflexivity|].
  apply Forall_cons in HI as [Hb Hrest].
  rewrite !(make_match_agree key buy sell _ Hb Hs).
  destruct (Num.ltb 0 r); [|reflexivity].
  destruct (Num.leb (Buy.quantity buy) r); [|reflexivity].
  now apply IH.
Qed.

Lemma match_sells_agree key sells :
  forall buys acc,
    Forall (fun s => D (Sell.date s)) sells ->
    Forall (fun b => D (Buy.date b)) buys ->
    match_sells tbl1 key sells buys acc = match_sells tbl2 key sells buys acc.
Proof.
  unfold match_sells.
  induction sells as [|sell rest IH]; intros buys acc HJ HI; simpl; [reflexivity|].
  apply Forall_cons in HJ as [Hs Hrest].
  rewrite (match_sell_agree key sell Hs buys _ acc HI).
  destruct (match_sell_inv tbl2 (fun b => D (Buy.date b)) (fun _ => True) (fun _ => True)
              ltac:(auto) ltac:(intros b q Hb; cbv beta; now rewrite shrink_buy_date)
              key sell I buys (Sell.quantity sell) acc HI
              ltac:(apply Forall_forall; auto)) as [HI' _].
  destruct (match_sell tbl2 key sell (Sell.quantity sell) buys acc) as [buys' acc'].
  now apply IH.
Qed.

Lemma process_all_agree symbol_transactions :
  forall acc,
    Forall (data_ok (fun b => D (Buy.date b)) (fun s => D (Sell.date s)))
      symbol_transactions ->
    fold_left (fun acc kd => snd (process_symbol tbl1 (fst kd) (snd kd) acc))
      symbol_transactions acc
    = fold_left (fun acc kd => snd (process_symbol tbl2 (fst kd) (snd kd) acc))
        symbol_transactions acc.
Proof.
  induction symbol_transactions as [|kd rest IH]; intros acc Hok; simpl; [reflexivity|].
  apply Forall_cons in Hok as [[Hb Hs] Hrest].
  unfold process_symbol at 2 4. rewrite (match_sells_agree _ _ _ acc Hs Hb).
  now apply IH.
Qed.

End RateAgreement.

(** X8.  The realized-gains report reads the rate table at and before the
    dates of the rows only: storing a rate under a date later than the day
    of every row, new or in place of an old one, leaves the whole report as
    it was, the EUR figures included. *)
Theorem report_ignores_later_rates (tbl : gmap string Qc) (db : list Transaction)
    (current_year : string) (symbol year : option string) (k : string) (r : Qc) :
  Forall (fun t => date_lt (String.substring 0 10 (Date t)) k) db ->
  calculate_realized_gains_losses (<[k := r]> tbl) db current_year symbol year
  = calculate_realized_gains_losses tbl db current_year symbol year.
Proof.
  intros Hdb.
  unfold calculate_realized_gains_losses, _process_fifo_gains_by_category.
  rewrite (process_all_agree (<[k := r]> tbl) tbl
             (fun d => date_lt (String.substring 0 10 d) k)); [reflexivity| |].
  - intros d Hd. unfold rate_or_one. now rewrite get_exchange_rate_insert_later.
  - apply (group_ok (fun t => date_lt (String.substring 0 10 (Date t)) k));
      [auto | auto |].
    apply order_by_date_Forall. apply Forall_forall. intros t Ht.
    apply list_elem_of_In, filter_In in Ht as [Ht _].
    rewrite Forall_forall in Hdb. apply Hdb. now apply list_elem_of_In.
Qed.

(** A rate stored for 2025 does not touch the report of a lot bought in 2023
    and closed in 2024. *)
Lemma report_ignores_later_rates_witness :
  calculate_realized_gains_losses (<["2025-01-02" := Q2Qc 1.2]> rates_2024)
    [bought_2023; sold_2024] "2025" None None
  = calculate_realized_gains_losses rates_2024 [bought_2023; sold_2024] "2025" None None.
Proof.
  apply (report_ignores_later_rates rates_2024 [bought_2023; sold_2024] "2025"
           None None "2025-01-02" (Q2Qc 1.2)).
  repeat constructor.
Defined.

(** ** How far the rounded EUR total can drift *)

Lemma half_cents_S n : half_cents (S n) = half_cents n + Q2Qc (1 # 200).
Proof.
  unfold half_cents. apply Qc_is_canon. rewrite this_plus.
  unfold Q2Qc; cbn [this]. rewrite !Qred_correct.
  unfold Qeq, Qplus; cbn [Qnum Qden]. lia.
Qed.

Lemma wire_eur_near tbl current_date t :
  let e := Num.or0 (convert_usd_to_eur tbl (Some (Num.or0 (Value t)))
                      (wire_date current_date t)) in
  - Q2Qc (1 # 200) <= e - wire_eur_exact tbl current_date t /\
  e - wire_eur_exact tbl current_date t <= Q2Qc (1 # 200).
Proof.
  cbv zeta. unfold wire_eur_exact, convert_usd_to_eur.
  set (a := Num.or0 (Value t)).
  set (rate := get_exchange_rate tbl (wire_date current_date t)).
  cbn [Num.truthy]. destruct (NumFacts.eqb_spec a 0) as [Ha|Ha]; cbn [negb].
  - rewrite Ha. destruct (Num.truthy rate); cbn [Num.or0].
    + replace (0 - 0 / Num.or0 rate) with 0 by (unfold Qcdiv; ring).
      split; qc_closed.
    + replace (0 - 0) with 0 by ring. split; qc_closed.
  - destruct (Num.truthy rate); cbn [Num.or0].
    + apply round2_near.
    + replace (0 - 0) with 0 by ring. split; qc_closed.
Qed.

(** X9.  The EUR total of the wire deposits shown on the dashboard lies
    within half a cent per deposit of the total of the exact quotients
    USD / rate of the deposit days, whatever the amounts.  A deposit for
    whose day no usable rate is found adds its amount to the USD total and
    nothing to the EUR total. *)
Theorem wire_funds_eur_total_drift (tbl : gmap string Qc) (current_date : string)
    (txs : list Transaction) :
  let exact := Num.sum (map (wire_eur_exact tbl current_date) txs) in
  fst (wire_funds_totals tbl current_date txs)
  = Num.sum (map (fun t => Num.or0 (Value t)) txs) /\
  - half_cents (length txs) <= snd (wire_funds_totals tbl current_date txs) - exact /\
  snd (wire_funds_totals tbl current_date txs) - exact <= half_cents (length txs).
Proof.
  cbv zeta. unfold wire_funds_totals. rewrite wire_funds_fold. cbn [fst snd].
  split; [ring|].
  induction txs as [|t txs IH]; cbn [map Num.sum length].
  - split; qc_closed.
  - rewrite half_cents_S.
    pose proof (wire_eur_near tbl current_date t) as Ht. cbv zeta in Ht.
    destruct Ht as [Ht1 Ht2]. destruct IH as [IH1 IH2].
    split; qc_lra.
Qed.

(** ** Dividends of held lots, over the whole history of a symbol *)

Lemma lots_ok_sums lots :
  Forall lot_ok lots ->
  0 <= Num.sum (map ShareLot.quantity lots) /\
  0 <= Num.sum (map ShareLot.gross_dividends lots) /\
  0 <= Num.sum (map ShareLot.source_tax lots).
Proof.
  induction 1 as [|lot lots (Hq & Hg & Hs) _ (IHq & IHg & IHs)]; simpl.
  - repeat split; qc_closed.
  - repeat split; qc_lra.
Qed.

Lemma kept_fraction r q : 0 < r -> r < q -> 0 <= 1 - r / q /\ 1 - r / q <= 1.
Proof.
  intros Hr Hlt.
  assert (Hq : 0 < q) by qc_lra.
  pose proof (NumOrder.div_nonneg r q (Qclt_le_weak _ _ Hr) Hq) as H1.
  pose proof (NumOrder.div_le_one r q (Qclt_le_weak _ _ Hlt) Hq) as H2.
  split; qc_lra.
Qed.

(** A sale keeps the lots well formed and takes dividends away, never adds. *)
Lemma sell_shares_bound lots :
  forall r,
    Forall lot_ok lots ->
    Forall lot_ok (sell_shares r lots) /\
    Num.sum (map ShareLot.gross_dividends (sell_shares r lots))
    <= Num.sum (map ShareLot.gross_dividends lots) /\
    Num.sum (map ShareLot.source_tax (sell_shares r lots))
    <= Num.sum (map ShareLot.source_tax lots).
Proof.
  induction lots as [|lot rest IH]; intros r Hok; simpl.
  - repeat split; [constructor | apply Qcle_refl | apply Qcle_refl].
  - pose proof Hok as Hall.
    apply Forall_cons in Hok as [(Hq & Hg & Hs) Hrest].
    destruct (NumFacts.ltb_spec 0 r) as [Hr|Hr].
    + destruct (NumFacts.leb_spec (ShareLot.quantity lot) r) as [Hle|Hnle].
      * destruct (IH (r - ShareLot.quantity lot) Hrest) as (Hok' & Hg' & Hs').
        split; [exact Hok'|]. split; qc_lra.
      * apply Qcnot_le_lt in Hnle.
        destruct (kept_fraction r (ShareLot.quantity lot) Hr Hnle) as [Hf0 Hf1].
        pose proof (NumOrder.mult_nonneg _ _ Hg Hf0) as Hg0.
        pose proof (NumOrder.mult_nonneg _ _ Hs Hf0) as Hs0.
        pose proof (NumOrder.mult_le_self _ _ Hg Hf1) as Hg1.
        pose proof (NumOrder.mult_le_self _ _ Hs Hf1) as Hs1.
        simpl. split.
        { constructor; [|exact Hrest]. repeat split; simpl; [qc_lra | exact Hg0 | exact Hs0]. }
        split; qc_lra.
    + split; [exact Hall|]. split; apply Qcle_refl.
Qed.

Lemma credited_sums v T lots :
  0 < T -> Forall lot_ok lots ->
  Forall lot_ok (map (credit_lot v T) lots) /\
  Num.sum (map ShareLot.gross_dividends (map (credit_lot v T) lots))
  = Num.sum (map ShareLot.gross_dividends lots)
    + (if Num.ltb 0 v then v else 0) * (Num.sum (map ShareLot.quantity lots) / T) /\
  Num.sum (map ShareLot.source_tax (map (credit_lot v T) lots))
  = Num.sum (map ShareLot.source_tax lots)
    + (if Num.ltb 0 v then 0 else Qcabs v) * (Num.sum (map ShareLot.quantity lots) / T).
Proof.
  intros HT. induction 1 as [|lot lots (Hq & Hg & Hs) _ (IHok & IHg & IHs)]; simpl.
  - split; [constructor|]. split; unfold Qcdiv; ring.
  - pose proof (NumOrder.div_nonneg _ _ Hq HT) as Hshare.
    rewrite IHg, IHs.
    destruct (NumFacts.ltb_spec 0 v) as [Hv|Hv];
      [rewrite (credit_lot_gross v T lot Hv)
      | apply Qcnot_lt_le in Hv; rewrite (credit_lot_tax v T lot Hv)]; simpl.
    + split.
      * constructor; [|exact IHok]. repeat split; simpl; [exact Hq | | exact Hs].
        pose proof (NumOrder.mult_nonneg _ _ (Qclt_le_weak _ _ Hv) Hshare). qc_lra.
      * split; unfold Qcdiv; ring.
    + split.
      * constructor; [|exact IHok]. repeat split; simpl; [exact Hq | exact Hg |].
        pose proof (Qcabs_nonneg (v * (ShareLot.quantity lot / T))). qc_lra.
      * rewrite Qcabs_Qcmult, (Qcabs_pos _ Hshare).
        split; unfold Qcdiv; ring.
Qed.

Lemma pay_dividend_bound v lots :
  Forall lot_ok lots ->
  Forall lot_ok (pay_dividend v lots) /\
  Num.sum (map ShareLot.gross_dividends (pay_dividend v lots))
  <= Num.sum (map ShareLot.gross_dividends lots) + (if Num.ltb 0 v then v else 0) /\
  Num.sum (map ShareLot.source_tax (pay_dividend v lots))
  <= Num.sum (map ShareLot.source_tax lots) + (if Num.ltb 0 v then 0 else Qcabs v).
Proof.
  intros Hok. unfold pay_dividend.
  assert (Hpos : 0 <= (if Num.ltb 0 v then v else 0)).
  { destruct (NumFacts.ltb_spec 0 v); [qc_lra | apply Qcle_refl]. }
  assert (Habs : 0 <= (if Num.ltb 0 v then 0 else Qcabs v)).
  { destruct (Num.ltb 0 v); [apply Qcle_refl | apply Qcabs_nonneg]. }
  destruct (NumFacts.ltb_spec 0 (Num.sum (map ShareLot.quantity lots))) as [HT|HT].
  - destruct (credited_sums v _ lots HT Hok) as (Hok' & Hg & Hs).
    split; [exact Hok'|]. rewrite Hg, Hs.
    assert (E : Num.sum (map ShareLot.quantity lots)
                / Num.sum (map ShareLot.quantity lots) = 1).
    { field. qc_lra. }
    rewrite E, !Qcmult_1_r. split; apply Qcle_refl.
  - split; [exact Hok|]. split; qc_lra.
Qed.

Lemma trade_is_no_dividend t :
  String.eqb (Type_ t) "Trade" = true -> is_dividend_row t = false.
Proof.
  intros H. apply String.eqb_eq in H. unfold is_dividend_row. now rewrite H.
Qed.

Lemma dividend_step_bound lots t :
  Forall lot_ok lots ->
  Forall lot_ok (dividend_step lots t) /\
  Num.sum (map ShareLot.gross_dividends (dividend_step lots t))
  <= Num.sum (map ShareLot.gross_dividends lots) + dividend_received t /\
  Num.sum (map ShareLot.source_tax (dividend_step lots t))
  <= Num.sum (map ShareLot.source_tax lots) + tax_withheld t.
Proof.
  intros Hok. unfold dividend_step, dividend_received, tax_withheld.
  destruct (String.eqb (Type_ t) "Trade") eqn:ET.
  - rewrite (trade_is_no_dividend t ET). cbn [andb].
    destruct (is_text (Action t) "BUY_TO_OPEN").
    + rewrite !map_app, !sum_app. simpl. split.
      * apply Forall_app. split; [exact Hok|]. constructor; [|constructor].
        repeat split; simpl; [apply NumFacts.abs_or0_nonneg | apply Qcle_refl | apply Qcle_refl].
      * split; qc_lra.
    + destruct (is_text (Action t) "SELL_TO_CLOSE").
      * destruct (sell_shares_bound lots (abs_or0 (Quantity t)) Hok) as (H1 & H2 & H3).
        split; [exact H1|]. split; qc_lra.
      * split; [exact Hok|]. split; qc_lra.
  - fold (is_dividend_row t). destruct (is_dividend_row t); cbn [andb].
    + destruct (pay_dividend_bound (Num.or0 (Value t)) lots Hok) as (H1 & H2 & H3).
      split; [exact H1|].
      destruct (Num.ltb 0 (Num.or0 (Value t))); cbn [negb]; split; assumption.
    + split; [exact Hok|]. split; qc_lra.
Qed.

Lemma open_share_lots_bound txs :
  forall lots,
    Forall lot_ok lots ->
    Forall lot_ok (fold_left dividend_step txs lots) /\
    Num.sum (map ShareLot.gross_dividends (fold_left dividend_step txs lots))
    <= Num.sum (map ShareLot.gross_dividends lots) + Num.sum (map dividend_received txs) /\
    Num.sum (map ShareLot.source_tax (fold_left dividend_step txs lots))
    <= Num.sum (map ShareLot.source_tax lots) + Num.sum (map tax_withheld txs).
Proof.
  induction txs as [|t txs IH]; intros lots Hok; simpl.
  - split; [exact Hok|]. split; qc_lra.
  - destruct (dividend_step_bound lots t Hok) as (H1 & H2 & H3).
    destruct (IH _ H1) as (H4 & H5 & H6).
    split; [exact H4|]. split; qc_lra.
Qed.

(** X10.  Over any history of a symbol, the lots still held have
    quantities, gross dividends and source tax that are not negative, and
    the figures reported for the symbol are bounded by what was paid: the
    gross dividends by the sum of the positive dividend values, the source
    tax by the sum of the absolute values of the others, the net figure
    being their difference.  When no entry is reported the held lots carry
    neither gross dividends nor source tax. *)
Theorem held_dividends_are_bounded (txs : list Transaction) :
  Forall lot_ok (open_share_lots txs) /\
  match symbol_dividends txs with
  | Some e =>
      0 <= DividendEntry.gross_dividends e /\
      DividendEntry.gross_dividends e <= Num.sum (map dividend_received txs) /\
      0 <= DividendEntry.source_tax e /\
      DividendEntry.source_tax e <= Num.sum (map tax_withheld txs) /\
      DividendEntry.net_dividends e
      = DividendEntry.gross_dividends e - DividendEntry.source_tax e /\
      (0 < DividendEntry.gross_dividends e \/ 0 < DividendEntry.source_tax e)
  | None =>
      Num.sum (map ShareLot.gross_dividends (open_share_lots txs)) = 0 /\
      Num.sum (map ShareLot.source_tax (open_share_lots txs)) = 0
  end.
Proof.
  destruct (open_share_lots_bound txs [] (Forall_nil_2 _)) as (Hok & Hg & Hs).
  fold (open_share_lots txs) in Hok, Hg, Hs. simpl in Hg, Hs.
  destruct (lots_ok_sums _ Hok) as (_ & Hg0 & Hs0).
  split; [exact Hok|]. unfold symbol_dividends.
  destruct (NumFacts.ltb_spec 0 (Num.sum (map ShareLot.gross_dividends (open_share_lots txs))))
    as [G|G];
    destruct (NumFacts.ltb_spec 0 (Num.sum (map ShareLot.source_tax (open_share_lots txs))))
      as [S|S]; cbn [orb DividendEntry.gross_dividends DividendEntry.source_tax
                     DividendEntry.net_dividends].
  - repeat split; try reflexivity; qc_lra.
  - repeat split; try reflexivity; qc_lra.
  - repeat split; try reflexivity; qc_lra.
  - split; qc_lra.
Qed.

(** ** The valuation of the open positions *)











(** ** The quantity of an open position *)

Section DictKeys.
Context {V : Type}.
Implicit Types (d : list (string * V)) (k : string).

Lemma dict_get_None k d : dict_get k d = None -> k ∉ map fst d.
Proof.
  induction d as [|[k' v] d IH]; simpl; intros H Hin.
  - inversion Hin.
  - destruct (String.eqb_spec k k') as [->|N]; [discriminate|].
    apply elem_of_cons in Hin as [E|Hin]; [congruence | now apply IH].
Qed.

Lemma dict_get_elem k d v : dict_get k d = Some v -> (k, v) ∈ d.
Proof.
  induction d as [|[k' w] d IH]; simpl; [discriminate|].
  destruct (String.eqb_spec k k') as [->|N].
  - intros [= ->]. apply elem_of_cons. now left.
  - intros H. apply elem_of_cons. right. now apply IH.
Qed.

Lemma elem_key k v d : (k, v) ∈ d -> k ∈ map fst d.
Proof.
  induction d as [|[k' w] d IH]; intros H; [inversion H|].
  apply elem_of_cons in H as [[= -> ->]|H]; simpl; apply elem_of_cons;
    [now left | right; now apply IH].
Qed.

Lemma dict_get_unique k v d : NoDup (map fst d) -> (k, v) ∈ d -> dict_get k d = Some v.
Proof.
  induction d as [|[k' w] d IH]; simpl; intros Hnd Hin; [inversion Hin|].
  apply NoDup_cons in Hnd as [Hk' Hnd].
  apply elem_of_cons in Hin as [[= -> ->]|Hin].
  - now rewrite String.eqb_refl.
  - destruct (String.eqb_spec k k') as [->|N]; [|now apply IH].
    exfalso. apply Hk'. now apply (elem_key _ v).
Qed.

Lemma dict_update_keys k f d : map fst (dict_update k f d) = map fst d.
Proof.
  induction d as [|[k' w] d IH]; simpl; [reflexivity|].
  destruct (String.eqb k k'); simpl; [reflexivity | now rewrite IH].
Qed.

Lemma dict_setdefault_keys k v d :
  NoDup (map fst d) -> NoDup (map fst (dict_setdefault k v d)).
Proof.
  intros Hnd. unfold dict_setdefault, dict_mem.
  destruct (dict_get k d) as [w|] eqn:E; [exact Hnd|].
  rewrite map_app. apply NoDup_app. split; [exact Hnd|]. split.
  - intros x Hx Hin. simpl in Hin. apply list_elem_of_singleton in Hin. subst x.
    now apply (dict_get_None k d E).
  - simpl. apply NoDup_singleton.
Qed.

End DictKeys.

















(** ** The tax service *)

Lemma book_ok symbol buy sell q c acc :
  symbol_realized_ok acc -> symbol_realized_ok (TaxService.book symbol buy sell q c acc).
Proof.
  intros (H1 & H2 & H3 & H4 & H5 & H6). unfold TaxService.book, symbol_realized_ok.
  destruct (NumFacts.ltb_spec 0 (q * Lot.price sell - c)) as [Hg|Hg];
    cbn [SymbolRealized.gains_eur SymbolRealized.gains_usd SymbolRealized.losses_eur
         SymbolRealized.losses_usd SymbolRealized.transactions];
    rewrite map_app, sum_app; cbn [map Num.sum Realized.gain_loss_eur].
  - split; [now rewrite H1|]. split; [exact H2|]. split; [qc_lra|]. split; [exact H4|].
    split; [rewrite <- H5; ring|].
    apply Forall_app. split; [exact H6|]. constructor; [|constructor].
    now repeat split.
  - apply Qcnot_lt_le in Hg.
    split; [exact H1|]. split; [now rewrite H2|]. split; [exact H3|]. split; [qc_lra|].
    split; [rewrite <- H5; ring|].
    apply Forall_app. split; [exact H6|]. constructor; [|constructor].
    now repeat split.
Qed.

Lemma sell_realized_ok symbol sell buys :
  forall r acc,
    symbol_realized_ok acc ->
    symbol_realized_ok (snd (TaxService.sell_realized symbol sell r buys acc)).
Proof.
  induction buys as [|buy rest IH]; intros r acc Hacc; simpl; [exact Hacc|].
  destruct (Num.ltb 0 r); [|exact Hacc].
  destruct (Num.leb (Lot.quantity buy) r).
  - apply IH. now apply book_ok.
  - simpl. now apply book_ok.
Qed.

Lemma sell_steps_ok current_year symbol year sells :
  forall st,
    symbol_realized_ok (snd st) ->
    symbol_realized_ok
      (snd (fold_left (TaxService.sell_step current_year symbol year) sells st)).
Proof.
  induction sells as [|sell sells IH]; intros st Hst; simpl; [exact Hst|].
  apply IH. unfold TaxService.sell_step.
  destruct (TaxService.year_given year
            && negb (TaxService._is_transaction_in_period current_year (Lot.date sell) year));
    [exact Hst | now apply sell_realized_ok].
Qed.

Lemma init_realized_ok : symbol_realized_ok SymbolRealized.init.
Proof.
  unfold symbol_realized_ok, SymbolRealized.init. simpl.
  repeat split; try apply Qcle_refl; try constructor.
Qed.

Lemma add_symbol_ok a acc :
  symbol_realized_ok a -> symbol_realized_ok acc ->
  symbol_realized_ok (TaxService.add_symbol a acc).
Proof.
  intros (A1 & A2 & A3 & A4 & A5 & A6) (H1 & H2 & H3 & H4 & H5 & H6).
  unfold TaxService.add_symbol, symbol_realized_ok.
  cbn [SymbolRealized.gains_eur SymbolRealized.gains_usd SymbolRealized.losses_eur
       SymbolRealized.losses_usd SymbolRealized.transactions].
  rewrite map_app, sum_app, <- A5, <- H5.
  split; [now rewrite A1, H1|]. split; [now rewrite A2, H2|].
  split; [qc_lra|]. split; [qc_lra|]. split; [ring|].
  apply Forall_app. now split.
Qed.

Lemma separate_None upper rows :
  Service._separate_buy_sell_transactions upper rows = None <->
  Exists (fun t => Action t = None) rows.
Proof.
  induction rows as [|t rows IH]; simpl.
  - split; [discriminate | intros H; inversion H].
  - destruct (Action t) as [a|] eqn:Ea.
    + destruct (Service._separate_buy_sell_transactions upper rows) as [[buys sells]|].
      * split.
        -- intros H. repeat case_match; discriminate H.
        -- intros H. apply Exists_cons in H as [H|H]; [congruence|].
           apply IH in H. discriminate.
      * split; [|reflexivity]. intros _. apply Exists_cons. right. now apply IH.
    + split; [|reflexivity]. intros _. apply Exists_cons. now left.
Qed.

Lemma tax_over_symbols_ok upper current_year year groups :
  forall acc,
    symbol_realized_ok acc ->
    match TaxService.over_symbols upper current_year year groups acc with
    | Some totals =>
        symbol_realized_ok totals /\
        Forall (fun kd => Forall (fun t => Action t <> None) (snd kd)) groups
    | None => Exists (fun kd => Exists (fun t => Action t = None) (snd kd)) groups
    end.
Proof.
  induction groups as [|[symbol rows] groups IH]; intros acc Hacc; simpl.
  - split; [exact Hacc | constructor].
  - unfold TaxService._calculate_symbol_realized_gains.
    destruct (Service._separate_buy_sell_transactions upper rows) as [[buys sells]|] eqn:E.
    + assert (Hrows : Forall (fun t => Action t <> None) rows).
      { apply Forall_forall. intros t Ht Hnone.
        assert (Hex : Exists (fun t => Action t = None) rows).
        { apply Exists_exists. exists t. split; [exact Ht | exact Hnone]. }
        apply (proj2 (separate_None upper rows)) in Hex. congruence. }
      specialize (IH (TaxService.add_symbol
                        (snd (fold_left (TaxService.sell_step current_year symbol year) sells
                                (buys, SymbolRealized.init))) acc)).
      match type of IH with ?P -> _ => assert (Hnew : P) end.
      { apply add_symbol_ok; [|exact Hacc].
        apply sell_steps_ok. exact init_realized_ok. }
      specialize (IH Hnew).
      destruct (TaxService.over_symbols upper current_year year groups _).
      * destruct IH as [H1 H2]. split; [exact H1 | constructor; assumption].
      * apply Exists_cons. now right.
    + apply Exists_cons. left. simpl. exact (proj1 (separate_None upper rows) E).
Qed.

Section ServiceGroups.

Lemma service_group_step_get_eq d t :
  dict_get (Symbol t) (Service.group_step d t)
  = Some (default [] (dict_get (Symbol t) d) ++ [t]).
Proof.
  unfold Service.group_step.
  now rewrite dict_get_update_eq, dict_get_setdefault_eq.
Qed.

Lemma service_group_step_get_ne d t s :
  Symbol t <> s -> dict_get s (Service.group_step d t) = dict_get s d.
Proof.
  intros Hne. unfold Service.group_step.
  rewrite dict_get_update_ne by exact Hne. now apply dict_get_setdefault_ne.
Qed.

(** The group of a symbol is the list of its rows, in order. *)
Lemma service_group_get s rows :
  forall d,
    dict_get s (fold_left Service.group_step rows d)
    = match rows_of s rows with
      | [] => dict_get s d
      | l => Some (default [] (dict_get s d) ++ l)
      end.
Proof.
  induction rows as [|t rows IH]; intros d; simpl; [reflexivity|].
  rewrite IH. destruct (String.eqb_spec (Symbol t) s) as [<-|N].
  - rewrite service_group_step_get_eq. cbn [default].
    destruct (rows_of (Symbol t) rows) as [|t' l]; [reflexivity|].
    unfold id. f_equal. now rewrite <- app_assoc.
  - now rewrite service_group_step_get_ne.
Qed.

Lemma service_group_step_keys d t :
  NoDup (map fst d) -> NoDup (map fst (Service.group_step d t)).
Proof.
  intros Hnd. unfold Service.group_step.
  rewrite dict_update_keys. now apply dict_setdefault_keys.
Qed.

Lemma service_groups_keys rows :
  NoDup (map fst (Service._group_transactions_by_symbol rows)).
Proof.
  unfold Service._group_transactions_by_symbol.
  assert (G : forall d, NoDup (map fst d) ->
                        NoDup (map fst (fold_left Service.group_step rows d))).
  { induction rows as [|t rows IH]; intros d Hd; simpl; [exact Hd|].
    apply IH. now apply service_group_step_keys. }
  apply G. apply NoDup_nil_2.
Qed.

(** Every group holds rows of the list, and every row is in a group. *)
Lemma service_groups_rows rows :
  Forall (fun kd => snd kd = rows_of (fst kd) rows)
    (Service._group_transactions_by_symbol rows) /\
  forall t, In t rows ->
    exists l, In (Symbol t, l) (Service._group_transactions_by_symbol rows) /\ In t l.
Proof.
  split.
  - apply Forall_forall. intros [k l] Hin. simpl.
    pose proof (dict_get_unique k l _ (service_groups_keys rows) Hin) as Hget.
    unfold Service._group_transactions_by_symbol in Hget.
    rewrite service_group_get in Hget. simpl in Hget.
    destruct (rows_of k rows); [discriminate | congruence].
  - intros t Ht.
    assert (Hin : In t (rows_of (Symbol t) rows)).
    { apply filter_In. split; [exact Ht | apply String.eqb_refl]. }
    exists (rows_of (Symbol t) rows). split; [|exact Hin].
    apply list_elem_of_In, dict_get_elem.
    unfold Service._group_transactions_by_symbol. rewrite service_group_get. simpl.
    destruct (rows_of (Symbol t) rows); [destruct Hin | reflexivity].
Qed.

End ServiceGroups.

Lemma insert_by_date_In x t l : In x (insert_by_date t l) <-> x = t \/ In x l.
Proof.
  induction l as [|y l IH]; simpl; [intuition congruence|].
  destruct (String.leb (Date t) (Date y)); simpl; [intuition congruence|].
  rewrite IH. intuition congruence.
Qed.

Lemma order_by_date_In x l : In x (order_by_date l) <-> In x l.
Proof.
  unfold order_by_date. induction l as [|y l IH]; simpl; [reflexivity|].
  rewrite insert_by_date_In, IH. intuition congruence.
Qed.

(** X13.  [TaxService.calculate_realized_gains_losses] converts nothing:
    when it returns, the EUR and USD figures of every match and of the
    three totals are the same numbers; the gain of a match is quantity
    times the unit price of the sell less the cost basis; gains and losses
    are not negative, the net figure is gains less losses and is the sum
    of the gains and losses of the listed matches, and no row it read has
    a NULL action.  It raises exactly when some trade row of the period
    has a NULL action. *)
Theorem tax_service_reports_usd_as_eur (upper : string -> string)
    (current_year : string) (db : list Transaction) (year : option string) :
  let rows := List.filter (Service.trade_query year current_year) db in
  match TaxService.calculate_realized_gains_losses upper current_year db year with
  | Some r =>
      TaxReport.realized_gains_eur r = TaxReport.realized_gains_usd r /\
      TaxReport.realized_losses_eur r = TaxReport.realized_losses_usd r /\
      TaxReport.net_realized_eur r = TaxReport.net_realized_usd r /\
      0 <= TaxReport.realized_gains_eur r /\
      0 <= TaxReport.realized_losses_eur r /\
      TaxReport.net_realized_eur r
      = TaxReport.realized_gains_eur r - TaxReport.realized_losses_eur r /\
      TaxReport.net_realized_eur r
      = Num.sum (map Realized.gain_loss_eur (TaxReport.transactions r)) /\
      Forall realized_ok (TaxReport.transactions r) /\
      Forall (fun t => Action t <> None) rows
  | None => Exists (fun t => Action t = None) rows
  end.
Proof.
  cbv zeta. unfold TaxService.calculate_realized_gains_losses.
  set (rows := List.filter (Service.trade_query year current_year) db).
  pose proof (tax_over_symbols_ok upper current_year year
                (Service._group_transactions_by_symbol (order_by_date rows))
                SymbolRealized.init init_realized_ok) as H.
  destruct (service_groups_rows (order_by_date rows)) as [Hsub Hall].
  destruct (TaxService.over_symbols upper current_year year _ SymbolRealized.init)
    as [totals|].
  - destruct H as [(H1 & H2 & H3 & H4 & H5 & H6) Hact].
    cbn [TaxReport.realized_gains_eur TaxReport.realized_gains_usd
         TaxReport.realized_losses_eur TaxReport.realized_losses_usd
         TaxReport.net_realized_eur TaxReport.net_realized_usd TaxReport.transactions].
    split; [exact H1|]. split; [now rewrite H2|]. split; [now rewrite H1, H2|].
    split; [exact H3|]. split; [apply Qcabs_nonneg|].
    split; [rewrite (Qcabs_neg _ H4); ring|].
    split; [exact H5|]. split; [exact H6|].
    apply Forall_forall. intros t Ht. apply list_elem_of_In in Ht.
    apply order_by_date_In in Ht.
    destruct (Hall t Ht) as (l & Hl & Htl).
    rewrite Forall_forall in Hact.
    specialize (Hact (Symbol t, l) ltac:(now apply list_elem_of_In)). simpl in Hact.
    rewrite Forall_forall in Hact. apply Hact. now apply list_elem_of_In.
  - apply Exists_exists in H as ([k l] & Hkl & Hex). simpl in Hex.
    apply Exists_exists in Hex as (t & Ht & Hnone).
    apply Exists_exists. exists t. split; [|exact Hnone].
    rewrite Forall_forall in Hsub. specialize (Hsub _ Hkl). simpl in Hsub.
    rewrite Hsub in Ht. apply list_elem_of_In, filter_In in Ht as [Ht _].
    apply list_elem_of_In. now apply order_by_date_In.
Qed.

Lemma query_in_period year current_year t :
  Service.trade_query year current_year t = true ->
  TaxService._is_transaction_in_period current_year (Date t) year = true.
Proof.
  unfold Service.trade_query, TaxService._is_transaction_in_period, year_param.
  intros H. apply andb_true_iff in H as [_ H].
  destruct year as [y|]; [|reflexivity].
  destruct (String.eqb y ""); [reflexivity|].
  destruct (String.eqb y "ytd"); exact H.
Qed.

Lemma separate_dates (P : string -> Prop) upper rows :
  forall buys sells,
    Forall (fun t => P (Date t)) rows ->
    Service._separate_buy_sell_transactions upper rows = Some (buys, sells) ->
    Forall (fun l => P (Lot.date l)) buys /\ Forall (fun l => P (Lot.date l)) sells.
Proof.
  induction rows as [|t rows IH]; intros buys sells Hrows; simpl.
  - intros [= <- <-]. split; constructor.
  - apply Forall_cons in Hrows as [Ht Hrows].
    destruct (Action t) as [a|]; [|discriminate].
    destruct (Service._separate_buy_sell_transactions upper rows) as [[bs ss]|];
      [|discriminate].
    destruct (IH bs ss Hrows eq_refl) as [Hb Hs].
    intros H. repeat case_match; injection H as <- <-; split;
      try assumption; constructor; assumption.
Qed.

Lemma sell_steps_in_period current_year symbol year sells :
  forall st,
    Forall (fun sell =>
              TaxService._is_transaction_in_period current_year (Lot.date sell) year = true)
      sells ->
    fold_left (TaxService.sell_step current_year symbol year) sells st
    = fold_left (TaxService.sell_step current_year symbol None) sells st.
Proof.
  induction sells as [|sell sells IH]; intros st Hall; simpl; [reflexivity|].
  apply Forall_cons in Hall as [Hs Hall].
  rewrite IH by exact Hall. f_equal.
  unfold TaxService.sell_step. rewrite Hs. cbn [negb TaxService.year_given].
  now rewrite andb_false_r.
Qed.

Lemma tax_over_symbols_in_period upper current_year year groups :
  forall acc,
    Forall (fun kd => Forall (fun t => Service.trade_query year current_year t = true)
                        (snd kd)) groups ->
    TaxService.over_symbols upper current_year year groups acc
    = TaxService.over_symbols upper current_year None groups acc.
Proof.
  induction groups as [|[symbol rows] groups IH]; intros acc Hall; simpl; [reflexivity|].
  apply Forall_cons in Hall as [Hrows Hall]. simpl in Hrows.
  unfold TaxService._calculate_symbol_realized_gains.
  destruct (Service._separate_buy_sell_transactions upper rows) as [[buys sells]|] eqn:E;
    [|reflexivity].
  destruct (separate_dates
              (fun d => TaxService._is_transaction_in_period current_year d year = true)
              upper rows buys sells) as [_ Hs]; [|exact E|].
  - eapply Forall_impl; [exact Hrows|]. intros t Ht. now apply query_in_period.
  - rewrite (sell_steps_in_period current_year symbol year sells _ Hs).
    now apply IH.
Qed.

Lemma symbol_realized_in_period upper current_year year symbol rows :
  Forall (fun t => Service.trade_query year current_year t = true) rows ->
  TaxService._calculate_symbol_realized_gains upper current_year symbol rows year
  = TaxService._calculate_symbol_realized_gains upper current_year symbol rows None.
Proof.
  intros Hrows. unfold TaxService._calculate_symbol_realized_gains.
  destruct (Service._separate_buy_sell_transactions upper rows) as [[buys sells]|] eqn:E;
    [|reflexivity].
  destruct (separate_dates
              (fun d => TaxService._is_transaction_in_period current_year d year = true)
              upper rows buys sells) as [_ Hs]; [|exact E|].
  - eapply Forall_impl; [exact Hrows|]. intros t Ht. now apply query_in_period.
  - now rewrite (sell_steps_in_period current_year symbol year sells _ Hs).
Qed.

(** X14.  In a call of [TaxService.calculate_realized_gains_losses] the
    period check inside the matching loop never skips a sell: every sell it
    sees was already selected by the query of the same year.  For every
    symbol group of the call, [_calculate_symbol_realized_gains] gives with
    the year what it gives without, and so does the loop over the
    symbols. *)
Theorem tax_service_period_check_never_skips (upper : string -> string)
    (current_year : string) (db : list Transaction) (year : option string)
    (acc : SymbolRealized.t) :
  let groups :=
    Service._group_transactions_by_symbol
      (order_by_date (List.filter (Service.trade_query year current_year) db)) in
  Forall (fun kd =>
            TaxService._calculate_symbol_realized_gains upper current_year
              (fst kd) (snd kd) year
            = TaxService._calculate_symbol_realized_gains upper current_year
                (fst kd) (snd kd) None) groups /\
  TaxService.over_symbols upper current_year year groups acc
  = TaxService.over_symbols upper current_year None groups acc.
Proof.
  cbv zeta.
  assert (Hq : Forall (fun kd : string * list Transaction =>
                         Forall (fun t => Service.trade_query year current_year t = true)
                           (snd kd))
                 (Service._group_transactions_by_symbol
                    (order_by_date
                       (List.filter (Service.trade_query year current_year) db)))).
  { destruct (service_groups_rows
                (order_by_date (List.filter (Service.trade_query year current_year) db)))
      as [Hsub _].
    eapply Forall_impl; [exact Hsub|]. intros [k l] Hl. simpl in *. subst l.
    apply Forall_forall. intros t Ht.
    apply list_elem_of_In, filter_In in Ht as [Ht _].
    apply order_by_date_In, filter_In in Ht as [_ Ht]. exact Ht. }
  split; [|now apply tax_over_symbols_in_period].
  eapply Forall_impl; [exact Hq|]. intros [k l] Hl. simpl in *.
  now apply symbol_realized_in_period.
Qed.

(** ** The portfolio service *)





(** ** Actions the services do not read *)

Lemma separate_unread upper rows :
  Forall (fun t => unread_action upper t = true) rows ->
  Service._separate_buy_sell_transactions upper rows = Some ([], []).
Proof.
  induction 1 as [|t rows Ht _ IH]; simpl; [reflexivity|].
  unfold unread_action in Ht. destruct (Action t) as [a|]; [|discriminate].
  rewrite IH. apply negb_true_iff in Ht. simpl in Ht.
  apply orb_false_iff in Ht as [H1 Ht]. apply orb_false_iff in Ht as [H2 Ht].
  apply orb_false_iff in Ht as [H3 Ht]. apply orb_false_iff in Ht as [H4 _].
  simpl. now rewrite H1, H2, H3, H4.
Qed.

Lemma tax_over_symbols_unread upper current_year year groups :
  forall acc,
    Forall (fun kd => Forall (fun t => unread_action upper t = true) (snd kd)) groups ->
    exists totals,
      TaxService.over_symbols upper current_year year groups acc = Some totals /\
      SymbolRealized.transactions totals = SymbolRealized.transactions acc /\
      SymbolRealized.gains_eur totals = SymbolRealized.gains_eur acc /\
      SymbolRealized.gains_usd totals = SymbolRealized.gains_usd acc /\
      SymbolRealized.losses_eur totals = SymbolRealized.losses_eur acc /\
      SymbolRealized.losses_usd totals = SymbolRealized.losses_usd acc.
Proof.
  induction groups as [|[symbol rows] groups IH]; intros acc Hall; simpl.
  - exists acc. now repeat split.
  - apply Forall_cons in Hall as [Hrows Hall]. simpl in Hrows.
    unfold TaxService._calculate_symbol_realized_gains.
    rewrite (separate_unread upper rows Hrows). cbn [fold_left snd].
    destruct (IH (TaxService.add_symbol SymbolRealized.init acc) Hall)
      as (totals & E & H1 & H2 & H3 & H4 & H5).
    exists totals. split; [exact E|].
    rewrite H1, H2, H3, H4, H5. unfold TaxService.add_symbol, SymbolRealized.init.
    cbn [SymbolRealized.transactions SymbolRealized.gains_eur SymbolRealized.gains_usd
         SymbolRealized.losses_eur SymbolRealized.losses_usd].
    rewrite app_nil_r. repeat split; ring.
Qed.

Lemma portfolio_over_symbols_unread upper cached db_price db fetch groups :
  forall st,
    Forall (fun kd => Forall (fun t => unread_action upper t = true) (snd kd)) groups ->
    PortfolioService.over_symbols upper cached db_price db fetch groups st = Some st.
Proof.
  induction groups as [|[symbol rows] groups IH]; intros [[ps tc] tv] Hall;
    cbn [PortfolioService.over_symbols]; [reflexivity|].
  apply Forall_cons in Hall as [Hrows Hall]. simpl in Hrows.
  unfold PortfolioService._calculate_symbol_position.
  rewrite (separate_unread upper rows Hrows). cbn. now apply IH.
Qed.

(** X16.  The services read a trade row as a buy only if its upper-cased
    action is BUY or DEPOSIT and as a sell only if it is SELL or
    WITHDRAWAL.  When every trade row has another action, as the rows with
    the action names [BUY_TO_OPEN], [SELL_TO_CLOSE], ... that [app.py]
    matches, both services return without a single match or position and
    with all totals zero. *)
Theorem services_read_other_action_names (upper : string -> string)
    (cached db_price : string -> option Qc) (current_year : string)
    (db : list Transaction) (year : option string) (fetch_current_prices : bool) :
  Forall (fun t => String.eqb (Type_ t) "Trade" = true -> unread_action upper t = true) db ->
  (exists r,
      TaxService.calculate_realized_gains_losses upper current_year db year = Some r /\
      TaxReport.transactions r = [] /\
      TaxReport.realized_gains_eur r = 0 /\ TaxReport.realized_gains_usd r = 0 /\
      TaxReport.realized_losses_eur r = 0 /\ TaxReport.realized_losses_usd r = 0 /\
      TaxReport.net_realized_eur r = 0 /\ TaxReport.net_realized_usd r = 0) /\
  (exists r,
      PortfolioService.calculate_unrealized_gains_losses upper cached db_price db
        fetch_current_prices = Some r /\
      PortfolioReport.positions r = [] /\
      PortfolioReport.total_cost_basis r = 0 /\
      PortfolioReport.total_current_value r = 0 /\
      PortfolioReport.total_unrealized_gain_loss r = 0).
Proof.
  intros Hdb.
  assert (Hgroups : forall q : Transaction -> bool,
             (forall t, q t = true -> String.eqb (Type_ t) "Trade" = true) ->
             Forall (fun kd : string * list Transaction =>
                       Forall (fun t => unread_action upper t = true) (snd kd))
               (Service._group_transactions_by_symbol
                  (order_by_date (List.filter q db)))).
  { intros q Hq.
    destruct (service_groups_rows (order_by_date (List.filter q db))) as [Hsub _].
    eapply Forall_impl; [exact Hsub|]. intros [k l] Hl. simpl in *. subst l.
    apply Forall_forall. intros t Ht.
    apply list_elem_of_In, filter_In in Ht as [Ht _].
    apply order_by_date_In, filter_In in Ht as [Ht Hqt].
    rewrite Forall_forall in Hdb. apply (Hdb t); [now apply list_elem_of_In|].
    now apply Hq. }
  split.
  - unfold TaxService.calculate_realized_gains_losses.
    destruct (tax_over_symbols_unread upper current_year year _ SymbolRealized.init
                (Hgroups (Service.trade_query year current_year)
                   ltac:(intros t Ht; unfold Service.trade_query in Ht;
                         now apply andb_true_iff in Ht as [Ht _])))
      as (totals & E & H1 & H2 & H3 & H4 & H5).
    rewrite E. eexists. split; [reflexivity|].
    cbn [TaxReport.transactions TaxReport.realized_gains_eur TaxReport.realized_gains_usd
         TaxReport.realized_losses_eur TaxReport.realized_losses_usd
         TaxReport.net_realized_eur TaxReport.net_realized_usd].
    rewrite H1, H2, H3, H4, H5. unfold SymbolRealized.init.
    cbn [SymbolRealized.transactions SymbolRealized.gains_eur SymbolRealized.gains_usd
         SymbolRealized.losses_eur SymbolRealized.losses_usd].
    repeat split; try reflexivity; try ring; apply Qcabs_pos, Qcle_refl.
  - unfold PortfolioService.calculate_unrealized_gains_losses.
    rewrite (portfolio_over_symbols_unread upper cached db_price db fetch_current_prices _
               ([], 0, 0)
               (Hgroups (fun t => String.eqb (Type_ t) "Trade") ltac:(auto))).
    eexists. split; [reflexivity|]. simpl. repeat split; ring.
Qed.

(** With the identity for [upper], the rows of [two_symbols], whose
    actions are BUY_TO_OPEN and SELL_TO_CLOSE, give empty reports. *)
Lemma services_read_other_action_names_witness :
  (exists r,
      TaxService.calculate_realized_gains_losses (fun a => a) "2025" two_symbols None
      = Some r /\ TaxReport.transactions r = []) /\
  (exists r,
      PortfolioService.calculate_unrealized_gains_losses (fun a => a)
        (fun _ => None) (fun _ => None) two_symbols false = Some r /\
      PortfolioReport.positions r = []).
Proof.
  destruct (services_read_other_action_names (fun a => a) (fun _ => None) (fun _ => None)
              "2025" two_symbols None false) as [(r & E & H & _) (r' & E' & H' & _)].
  - repeat (constructor; [intros _; reflexivity|]). constructor.
  - split; [exists r | exists r']; split; assumption.
Defined.

(** ** Fees and dividends of the tax summary *)

Lemma add_eur_fold tbl (f : Transaction -> Qc) rows :
  forall acc,
    fold_left (fun total t => add_eur tbl (Date t) (f t) total) rows acc
    = acc + Num.sum (map (fun t => eur_or_nothing tbl (Date t) (f t)) rows).
Proof.
  induction rows as [|t rows IH]; intros acc; simpl; [ring|].
  rewrite IH. unfold add_eur, eur_or_nothing.
  destruct (Num.truthy (get_exchange_rate tbl (Date t))); ring.
Qed.

Lemma sum_filter {A : Type} (p : A -> bool) (f : A -> Qc) (l : list A) :
  Num.sum (map f (List.filter p l))
  = Num.sum (map (fun x => if p x then f x else 0) l).
Proof.
  induction l as [|x l IH]; simpl; [reflexivity|].
  destruct (p x); simpl; rewrite IH; ring.
Qed.

Lemma sum_ext {A : Type} (f g : A -> Qc) (l : list A) :
  (forall x, f x = g x) -> Num.sum (map f l) = Num.sum (map g l).
Proof. intros H. induction l as [|x l IH]; simpl; [reflexivity|]. now rewrite H, IH. Qed.

Lemma eur_or_nothing_zero tbl d : eur_or_nothing tbl d 0 = 0.
Proof.
  unfold eur_or_nothing. destruct (Num.truthy _); [|reflexivity]. unfold Qcdiv. ring.
Qed.

Lemma eur_or_nothing_minus tbl d a b :
  eur_or_nothing tbl d a - eur_or_nothing tbl d b = eur_or_nothing tbl d (a - b).
Proof.
  unfold eur_or_nothing. destruct (Num.truthy _); unfold Qcdiv; ring.
Qed.

Lemma inv_antitone x y : 0 < x -> x <= y -> / y <= / x.
Proof.
  intros Hx Hxy.
  assert (Hy : 0 < y) by qc_lra.
  assert (Hx0 : x <> 0) by qc_lra. assert (Hy0 : y <> 0) by qc_lra.
  assert (Hk : 0 <= / x * / y).
  { apply NumOrder.mult_nonneg; apply Qclt_le_weak; now apply NumOrder.inv_pos. }
  assert (E1 : / y = x * (/ x * / y)) by (field; now split).
  assert (E2 : / x = y * (/ x * / y)) by (field; now split).
  set (k := / x * / y) in *. rewrite E1, E2.
  now apply Qcmult_le_compat_r.
Qed.

Lemma div_antitone a x y : 0 <= a -> 0 < x -> x <= y -> a / y <= a / x.
Proof.
  intros Ha Hx Hxy. unfold Qcdiv.
  rewrite (Qcmult_comm a (/ y)), (Qcmult_comm a (/ x)).
  apply Qcmult_le_compat_r; [now apply inv_antitone | exact Ha].
Qed.

Lemma row_fees_nonneg t : 0 <= row_fees t.
Proof.
  unfold row_fees.
  pose proof (NumFacts.abs_or0_nonneg (Fees t)).
  pose proof (NumFacts.abs_or0_nonneg (Commissions t)). qc_lra.
Qed.

Lemma fees_closed_form tbl current_year db year :
  FeesData.total_fees (get_fees_data tbl current_year db year)
  = Num.sum (map row_fees (List.filter (in_year year current_year) db)) /\
  FeesData.total_fees_eur (get_fees_data tbl current_year db year)
  = Num.sum (map (fun t => eur_or_nothing tbl (Date t) (row_fees t))
               (List.filter (in_year year current_year) db)).
Proof.
  unfold get_fees_data. cbn [FeesData.total_fees FeesData.total_fees_eur].
  set (rows := List.filter (in_year year current_year) db). split.
  - unfold row_fees. clear. induction rows as [|t rows IH]; simpl; [ring|].
    rewrite <- IH. ring.
  - rewrite (add_eur_fold tbl row_fees), sum_filter.
    replace (0 + Num.sum (map (fun x => if not_null (Fees x) || not_null (Commissions x)
                                        then eur_or_nothing tbl (Date x) (row_fees x)
                                        else 0) rows))
      with (Num.sum (map (fun x => if not_null (Fees x) || not_null (Commissions x)
                                   then eur_or_nothing tbl (Date x) (row_fees x)
                                   else 0) rows)) by ring.
    apply sum_ext. intros t.
    destruct (Fees t) as [f|] eqn:Ef; [reflexivity|].
    destruct (Commissions t) as [c|] eqn:Ec; [reflexivity|]. simpl.
    assert (E0 : row_fees t = 0).
    { unfold row_fees, abs_or0. rewrite Ef, Ec. simpl. apply Qc_is_canon. reflexivity. }
    now rewrite E0, eur_or_nothing_zero.
Qed.

(** X17.  The fees of the tax summary: the USD total is the sum of the
    absolute fees and commissions of the rows of the period and is not
    negative.  When the rate found for the date of every row lies between
    two positive bounds, the EUR total lies between the USD total divided
    by the upper bound and the USD total divided by the lower bound; with
    one rate for all rows it is the USD total divided by that rate. *)
Theorem fees_in_eur_within_rate_bounds (tbl : gmap string Qc) (current_year : string)
    (db : list Transaction) (year : option string) (lo hi : Qc) :
  0 < lo ->
  Forall (rate_between tbl lo hi) db ->
  let f := get_fees_data tbl current_year db year in
  FeesData.total_fees f
  = Num.sum (map row_fees (List.filter (in_year year current_year) db)) /\
  0 <= FeesData.total_fees f /\
  FeesData.total_fees f / hi <= FeesData.total_fees_eur f /\
  FeesData.total_fees_eur f <= FeesData.total_fees f / lo.
Proof.
  intros Hlo Hall. cbv zeta.
  destruct (fees_closed_form tbl current_year db year) as [-> ->].
  assert (Hrows : Forall (rate_between tbl lo hi)
                    (List.filter (in_year year current_year) db)).
  { apply Forall_forall. intros t Ht. apply list_elem_of_In, filter_In in Ht as [Ht _].
    rewrite Forall_forall in Hall. apply Hall. now apply list_elem_of_In. }
  clear Hall. split; [reflexivity|].
  induction Hrows as [|t rows Ht _ (IH0 & IH1 & IH2)]; cbn [map Num.sum].
  - replace (0 / hi) with 0 by (unfold Qcdiv; ring).
    replace (0 / lo) with 0 by (unfold Qcdiv; ring).
    repeat split; apply Qcle_refl.
  - pose proof (row_fees_nonneg t) as Ha.
    unfold rate_between in Ht. unfold eur_or_nothing at 1 3.
    destruct (get_exchange_rate tbl (Date t)) as [r|]; [|contradiction].
    destruct Ht as [Hlr Hrh].
    assert (Hr : 0 < r) by qc_lra.
    cbn [Num.truthy Num.or0].
    destruct (NumFacts.eqb_spec r 0) as [E|_]; [rewrite E in Hr; qc_lra|]. cbn [negb].
    pose proof (div_antitone (row_fees t) r hi Ha Hr Hrh) as H1.
    pose proof (div_antitone (row_fees t) lo r Ha Hlo Hlr) as H2.
    replace ((row_fees t + Num.sum (map row_fees rows)) / hi)
      with (row_fees t / hi + Num.sum (map row_fees rows) / hi) by (unfold Qcdiv; ring).
    replace ((row_fees t + Num.sum (map row_fees rows)) / lo)
      with (row_fees t / lo + Num.sum (map row_fees rows) / lo) by (unfold Qcdiv; ring).
    repeat split; qc_lra.
Qed.

(** Fees of 0.11 + 1.10 and 0.22 on 2024-01-05, when the rate found is
    the 1.10 of 2024-01-01. *)
Lemma fees_in_eur_within_rate_bounds_witness :
  FeesData.total_fees (get_fees_data rates_2024 "2025" fee_rows None) / Q2Qc 1.10
  <= FeesData.total_fees_eur (get_fees_data rates_2024 "2025" fee_rows None) /\
  FeesData.total_fees_eur (get_fees_data rates_2024 "2025" fee_rows None)
  <= FeesData.total_fees (get_fees_data rates_2024 "2025" fee_rows None) / Q2Qc 1.10.
Proof.
  pose proof (fees_in_eur_within_rate_bounds rates_2024 "2025" fee_rows None
                (Q2Qc 1.10) (Q2Qc 1.10)) as H.
  cbv zeta in H. apply H.
  - qc_closed.
  - unfold fee_rows.
    constructor; [|constructor; [|constructor]];
      vm_compute; split; discriminate.
Defined.

(** X18.  The dividend totals of the tax summary split the dividend rows
    of the period by the sign of their value and lose nothing: both totals
    are not negative, the dividends less the source tax are the sum of the
    values of all dividend rows, and the same holds in EUR over the rows
    for whose date a usable rate is found, each at its own rate.  A row
    without a usable rate counts in USD and not in EUR. *)
Theorem dividend_totals_split_by_sign (tbl : gmap string Qc) (current_year : string)
    (db : list Transaction) (year : option string) :
  let d := get_dividend_data tbl current_year db year in
  let rows := List.filter (dividend_query year current_year) db in
  0 <= DividendData.total_dividends d /\
  0 <= DividendData.total_source_tax d /\
  DividendData.total_dividends d - DividendData.total_source_tax d
  = Num.sum (map (fun t => Num.or0 (Value t)) rows) /\
  DividendData.total_dividends_eur d - DividendData.total_source_tax_eur d
  = Num.sum (map (fun t => eur_or_nothing tbl (Date t) (Num.or0 (Value t))) rows).
Proof.
  cbv zeta. unfold get_dividend_data.
  cbn [DividendData.total_dividends DividendData.total_dividends_eur
       DividendData.total_source_tax DividendData.total_source_tax_eur].
  set (rows := List.filter (dividend_query year current_year) db).
  rewrite (add_eur_fold tbl (fun t => Num.or0 (Value t))),
    (add_eur_fold tbl (fun t => Qcabs (Num.or0 (Value t)))), !sum_filter.
  assert (Hsign : forall t : Transaction,
             0 <= (if value_positive t then Num.or0 (Value t) else 0) /\
             0 <= (if value_negative t then Qcabs (Num.or0 (Value t)) else 0) /\
             (if value_positive t then Num.or0 (Value t) else 0)
             - (if value_negative t then Qcabs (Num.or0 (Value t)) else 0)
             = Num.or0 (Value t) /\
             (if value_positive t
              then eur_or_nothing tbl (Date t) (Num.or0 (Value t)) else 0)
             - (if value_negative t
                then eur_or_nothing tbl (Date t) (Qcabs (Num.or0 (Value t))) else 0)
             = eur_or_nothing tbl (Date t) (Num.or0 (Value t))).
  { intros t. unfold value_positive, value_negative.
    destruct (Value t) as [v|]; cbn [Num.or0].
    - destruct (NumFacts.ltb_spec 0 v) as [Hp|Hp];
        destruct (NumFacts.ltb_spec v 0) as [Hn|Hn].
      + exfalso. qc_lra.
      + repeat split; first [qc_lra | ring].
      + rewrite (Qcabs_neg v) by qc_lra.
        repeat split; try qc_lra.
        replace (0 - eur_or_nothing tbl (Date t) (- v))
          with (eur_or_nothing tbl (Date t) 0 - eur_or_nothing tbl (Date t) (- v))
          by (rewrite eur_or_nothing_zero; ring).
        rewrite eur_or_nothing_minus. f_equal. ring.
      + assert (v = 0) as -> by qc_lra.
        rewrite eur_or_nothing_zero. repeat split; first [qc_lra | ring].
    - rewrite eur_or_nothing_zero. repeat split; first [qc_lra | ring]. }
  clearbody rows.
  induction rows as [|t rows (IH1 & IH2 & IH3 & IH4)]; cbn [map Num.sum].
  - repeat split; first [apply Qcle_refl | ring].
  - destruct (Hsign t) as (H1 & H2 & H3 & H4).
    split; [qc_lra|]. split; [qc_lra|]. split; qc_lra.
Qed.

(** ** The years offered for the tax report *)

Lemma range_down_In start stop y :
  In y (range_down start stop) <-> (stop < y)%Z /\ (y <= start)%Z.
Proof.
  unfold range_down. rewrite in_map_iff. split.
  - intros (i & <- & Hi). apply in_seq in Hi. lia.
  - intros [H1 H2]. exists (Z.to_nat (start - y)). split; [lia|].
    apply in_seq. lia.
Qed.

Lemma range_down_descending start stop : descending (range_down start stop).
Proof.
  unfold range_down.
  generalize 0%nat as k. induction (Z.to_nat (start - stop)) as [|n IH]; intros k;
    simpl; [exact Logic.I|].
  split; [|apply IH].
  apply Forall_forall. intros y Hy. apply list_elem_of_In, in_map_iff in Hy as (i & <- & Hi).
  apply in_seq in Hi. lia.
Qed.

Lemma filter_descending (p : Z -> bool) l : descending l -> descending (List.filter p l).
Proof.
  induction l as [|x l IH]; simpl; [auto|]. intros [Hx Hl].
  destruct (p x); simpl; [|now apply IH]. split; [|now apply IH].
  apply Forall_forall. intros y Hy. apply list_elem_of_In, filter_In in Hy as [Hy _].
  rewrite Forall_forall in Hx. apply Hx. now apply list_elem_of_In.
Qed.

Lemma fold_min_spec l :
  forall y,
    (fold_left Z.min l y <= y)%Z /\
    Forall (fun z => (fold_left Z.min l y <= z)%Z) l /\
    (fold_left Z.min l y = y \/ In (fold_left Z.min l y) l).
Proof.
  induction l as [|x l IH]; intros y; simpl.
  - split; [lia|]. split; [constructor | now left].
  - destruct (IH (Z.min y x)) as (H1 & H2 & H3).
    split; [lia|]. split.
    + constructor; [lia | exact H2].
    + destruct H3 as [H3|H3]; [|now right; right].
      destruct (Z.min_spec y x) as [[_ E]|[_ E]]; rewrite E in *.
      * now left.
      * right. left. now symmetry.
Qed.

(** X19.  The years offered for the tax report are listed in strictly
    descending order.  A year is offered exactly when it lies in the
    window of [max_years] years ending with the current year and is either
    a year of the data or the current year itself, the latter only if the
    data are empty or have a year that is not after the current year.  So
    with [max_years] below one, or with data of future years only, not even
    the current year is offered. *)
Theorem offered_tax_years (current_year : Z) (transaction_years : list Z)
    (max_years : Z) :
  descending (get_available_tax_years current_year transaction_years max_years) /\
  forall y,
    In y (get_available_tax_years current_year transaction_years max_years) <->
    (current_year - max_years < y)%Z /\ (y <= current_year)%Z /\
    (In y transaction_years \/
     (y = current_year /\
      (transaction_years = [] \/ Exists (fun z => (z <= current_year)%Z) transaction_years))).
Proof.
  unfold get_available_tax_years. split.
  - apply filter_descending, range_down_descending.
  - intros y. rewrite filter_In, range_down_In, orb_true_iff, Z.eqb_eq, existsb_exists.
    assert (Hin : (exists x, In x transaction_years /\ (y =? x)%Z = true)
                  <-> In y transaction_years).
    { split; [intros (x & Hx & E); apply Z.eqb_eq in E; now subst|].
      intros H. exists y. split; [exact H | apply Z.eqb_refl]. }
    rewrite Hin. clear Hin.
    destruct transaction_years as [|y0 others].
    + simpl. split.
      * intros [[H1 H2] [->|[]]]. split; [lia|]. split; [lia|]. right. split; auto.
      * intros (H1 & H2 & [[]|[-> _]]). split; [lia | now left].
    + destruct (fold_min_spec others y0) as (Hle & Hall & Hmem).
      set (e := fold_left Z.min others y0) in *.
      assert (Hlow : forall z, In z (y0 :: others) -> (e <= z)%Z).
      { intros z [<-|Hz]; [exact Hle|].
        rewrite Forall_forall in Hall. apply Hall. now apply list_elem_of_In. }
      assert (He : In e (y0 :: others)).
      { destruct Hmem as [->|H]; [now left | now right]. }
      split.
      * intros [[H1 H2] H3]. split; [lia|]. split; [lia|].
        destruct H3 as [->|H3]; [|now left].
        right. split; [reflexivity|]. right.
        apply Exists_exists. exists e. split; [now apply list_elem_of_In | lia].
      * intros (H1 & H2 & H3). split; [|destruct H3 as [H3|[-> _]]; [now right | now left]].
        split; [|exact H2].
        destruct H3 as [H3|[-> [E|Hex]]].
        -- specialize (Hlow y H3). lia.
        -- discriminate E.
        -- apply Exists_exists in Hex as (z & Hz & Hzc).
           apply list_elem_of_In in Hz. specialize (Hlow z Hz). lia.
Qed.

(** ** [sanitize_input] *)

Lemma lstrip_sublist is_space value : sublist (lstrip is_space value) value.
Proof.
  induction value as [|c rest IH]; simpl; [constructor|].
  destruct (is_space c); [now apply sublist_cons | reflexivity].
Qed.

Lemma sublist_rev (l k : list N) : sublist l k -> sublist (rev l) (rev k).
Proof.
  induction 1 as [|x l k _ IH|x l k _ IH]; simpl.
  - constructor.
  - now apply sublist_app.
  - rewrite <- (app_nil_r (rev l)). apply sublist_app; [exact IH | apply sublist_nil_l].
Qed.

Lemma strip_sublist is_space value : sublist (strip is_space value) value.
Proof.
  unfold strip. rewrite <- (rev_involutive value) at 2.
  apply sublist_rev. etransitivity; [apply lstrip_sublist|].
  apply sublist_rev, lstrip_sublist.
Qed.

Lemma remove_char_sublist value char : sublist (remove_char value char) value.
Proof.
  unfold remove_char. induction value as [|c rest IH]; simpl; [constructor|].
  destruct (negb (c =? char)%N); [now apply sublist_skip | now apply sublist_cons].
Qed.

Lemma remove_chars_spec chars :
  forall value,
    sublist (fold_left remove_char chars value) value /\
    Forall (fun c => ~ In c chars) (fold_left remove_char chars value).
Proof.
  induction chars as [|char chars IH]; intros value; simpl.
  - split; [reflexivity|]. apply Forall_forall. intros c _ [].
  - destruct (IH (remove_char value char)) as [Hsub Hall]. split.
    + etransitivity; [exact Hsub | apply remove_char_sublist].
    + apply Forall_forall. intros c Hc [<-|Hin].
      * assert (Hc' : In char (remove_char value char)).
        { apply list_elem_of_In. eapply elem_of_sublist; [exact Hc | exact Hsub]. }
        unfold remove_char in Hc'. apply filter_In in Hc' as [_ Hc'].
        rewrite N.eqb_refl in Hc'. discriminate.
      * rewrite Forall_forall in Hall. now apply (Hall c Hc).
Qed.

(** X20.  Whatever the text, what [sanitize_input] returns has none of
    the ten characters it removes (angle brackets, double and single
    quote, ampersand, semicolon, braces and square brackets) and at most
    500 characters, and it is the input with some characters left out, in
    the same order: nothing is added, replaced or escaped. *)
Theorem sanitize_input_removes_and_truncates (is_space : N -> bool) (value : list N) :
  Forall (fun c => ~ In c dangerous_chars) (sanitize_input is_space value) /\
  (length (sanitize_input is_space value) <= 500)%nat /\
  sublist (sanitize_input is_space value) value.
Proof.
  unfold sanitize_input. destruct value as [|c0 rest].
  - split; [constructor|]. split; [simpl; lia | reflexivity].
  - set (value := c0 :: rest).
    destruct (remove_chars_spec dangerous_chars (strip is_space value)) as [Hsub Hall].
    set (v := fold_left remove_char dangerous_chars (strip is_space value)) in *.
    assert (Hval : sublist v value).
    { etransitivity; [exact Hsub | apply strip_sublist]. }
    destruct (Nat.ltb_spec 500 (length v)) as [Hlong|Hshort].
    + split; [|split].
      * apply Forall_forall. intros c Hc.
        rewrite Forall_forall in Hall. apply Hall.
        eapply elem_of_sublist; [exact Hc | apply sublist_take].
      * rewrite length_take. lia.
      * etransitivity; [apply sublist_take | exact Hval].
    + split; [exact Hall|]. split; [exact Hshort | exact Hval].
Qed.

(** ** The symbols of the dividend report *)

Lemma distinct_In x l : In x (distinct l) <-> In x l.
Proof.
  induction l as [|y l IH]; simpl; [reflexivity|].
  rewrite filter_In, IH. split.
  - intros [->|[H _]]; auto.
  - intros [->|H]; [now left|].
    destruct (String.eqb_spec y x) as [->|N]; [now left | right; now split].
Qed.

Lemma distinct_NoDup l : NoDup (distinct l).
Proof.
  induction l as [|y l IH]; simpl; [apply NoDup_nil_2|].
  apply NoDup_cons. split.
  - intros Hin. apply list_elem_of_In, filter_In in Hin as [_ Hin].
    rewrite String.eqb_refl in Hin. discriminate.
  - clear -IH. induction IH as [|x k Hx _ IH']; simpl; [apply NoDup_nil_2|].
    destruct (negb (y =? x)%string); [|exact IH'].
    apply NoDup_cons. split; [|exact IH'].
    intros Hin. apply Hx. apply list_elem_of_In, filter_In in Hin as [Hin _].
    now apply list_elem_of_In.
Qed.

Lemma dividend_entries_spec (f : string -> option DividendEntry.t) symbols :
  NoDup symbols ->
  NoDup (map fst (flat_map (fun symbol =>
                              match f symbol with
                              | Some e => [(symbol, e)]
                              | None => []
                              end) symbols)) /\
  forall s e,
    In (s, e) (flat_map (fun symbol =>
                           match f symbol with
                           | Some e => [(symbol, e)]
                           | None => []
                           end) symbols)
    <-> In s symbols /\ f s = Some e.
Proof.
  induction 1 as [|x l Hx Hl [IH1 IH2]]; simpl.
  - split; [apply NoDup_nil_2|]. intros s e. split; [intros [] | intros [[] _]].
  - split.
    + destruct (f x) as [e|]; simpl; [|exact IH1].
      apply NoDup_cons. split; [|exact IH1].
      intros Hin. apply Hx. apply list_elem_of_In, in_map_iff in Hin as ([s e'] & <- & Hin).
      apply IH2 in Hin as [Hin _]. now apply list_elem_of_In.
    + intros s e. rewrite in_app_iff, IH2. split.
      * intros [H|[H1 H2]]; [|split; [now right | exact H2]].
        destruct (f x) as [e'|] eqn:E; simpl in H; [|destruct H].
        destruct H as [[= <- <-]|[]]. split; [now left | exact E].
      * intros [[->|H1] H2]; [|right; now split].
        left. rewrite H2. now left.
Qed.

(** X21.  The dividend report by symbol has at most one entry per symbol,
    and only for symbols that have a trade row: a symbol has an entry
    exactly when some row of type Trade carries it and the lots it still
    holds, taken over all its rows in date order, carry gross dividends or
    source tax; the entry is then that figure.  Dividends of a symbol that
    was never traded are not reported. *)
Theorem dividend_report_symbols (db : list Transaction) :
  NoDup (map fst (get_net_dividends_by_symbol db)) /\
  forall s e,
    In (s, e) (get_net_dividends_by_symbol db) <->
    Exists (fun t => Type_ t = "Trade"%string /\ Symbol t = s) db /\
    symbol_dividends (order_by_date (rows_of s db)) = Some e.
Proof.
  unfold get_net_dividends_by_symbol, rows_of.
  destruct (dividend_entries_spec
              (fun symbol =>
                 symbol_dividends
                   (order_by_date (List.filter (fun t => String.eqb (Symbol t) symbol) db)))
              _ (distinct_NoDup
                   (map Symbol (List.filter (fun t => String.eqb (Type_ t) "Trade") db))))
    as [H1 H2].
  split; [exact H1|]. intros s e. rewrite H2, distinct_In, in_map_iff.
  split; intros [Hs He]; (split; [|exact He]).
  - destruct Hs as (t & <- & Ht). apply filter_In in Ht as [Ht Htype].
    apply Exists_exists. exists t. split; [now apply list_elem_of_In|].
    split; [now apply String.eqb_eq | reflexivity].
  - apply Exists_exists in Hs as (t & Ht & Htype & <-).
    exists t. split; [reflexivity|]. apply filter_In.
    split; [now apply list_elem_of_In | now apply String.eqb_eq].
Qed.

(** ** The unit cost of a lot *)

(** [b'] is [b] with a smaller quantity and the same cost and fees per
    unit. *)
Lemma reduce_lot_same_unit_cost b r :
  0 < r -> r < Lot.quantity b ->
  Lot.date (reduce_lot b r) = Lot.date b /\
  Lot.price (reduce_lot b r) = Lot.price b /\
  0 < Lot.quantity (reduce_lot b r) /\
  Lot.quantity (reduce_lot b r) < Lot.quantity b /\
  Lot.total_cost (reduce_lot b r) * Lot.quantity b
  = Lot.total_cost b * Lot.quantity (reduce_lot b r) /\
  Lot.fees (reduce_lot b r) * Lot.quantity b
  = Lot.fees b * Lot.quantity (reduce_lot b r).
Proof.
  intros Hr Hlt. assert (Hq : Lot.quantity b <> 0) by qc_lra.
  unfold reduce_lot. cbn [Lot.date Lot.price Lot.quantity Lot.total_cost Lot.fees].
  split; [reflexivity|]. split; [reflexivity|]. split; [qc_lra|]. split; [qc_lra|].
  assert (E : Lot.quantity b - r + r = Lot.quantity b) by ring.
  rewrite E. split; field; exact Hq.
Qed.

(** X22.  Removing sold units from the queue of lots, as the two
    unrealized-gains functions do, leaves a tail of the queue: every
    remaining lot but the first is a lot of the queue unchanged, and the
    first is a lot of the queue either unchanged or with a smaller,
    positive quantity and with its cost and its fees still the same per
    unit.  A partial sale never changes the unit cost of a lot. *)
Theorem partial_sale_keeps_unit_cost (r : Qc) (buys : list Lot.t) :
  match remove_sold r buys with
  | [] => True
  | first :: others =>
      exists sold b,
        buys = sold ++ b :: others /\
        Lot.date first = Lot.date b /\ Lot.price first = Lot.price b /\
        Lot.quantity first <= Lot.quantity b /\
        Lot.total_cost first * Lot.quantity b = Lot.total_cost b * Lot.quantity first /\
        Lot.fees first * Lot.quantity b = Lot.fees b * Lot.quantity first
  end.
Proof.
  revert r. induction buys as [|b rest IH]; intros r; cbn [remove_sold]; [exact Logic.I|].
  destruct (NumFacts.ltb_spec 0 r) as [Hr|Hr].
  - destruct (NumFacts.leb_spec (Lot.quantity b) r) as [Hle|Hnle].
    + specialize (IH (r - Lot.quantity b)).
      destruct (remove_sold (r - Lot.quantity b) rest) as [|first others]; [exact Logic.I|].
      destruct IH as (sold & b' & E & H).
      exists (b :: sold), b'. split; [now rewrite E | exact H].
    + apply Qcnot_le_lt in Hnle.
      destruct (reduce_lot_same_unit_cost b r Hr Hnle) as (H1 & H2 & H3 & H4 & H5 & H6).
      exists [], b. split; [reflexivity|].
      split; [exact H1|]. split; [exact H2|]. split; [qc_lra|]. now split.
  - exists [], b. split; [reflexivity|].
    split; [reflexivity|]. split; [reflexivity|]. split; [apply Qcle_refl|].
    split; ring.
Qed.

(** ** The report of one symbol and the report of all *)

Lemma insert_by_date_head t l :
  Forall (fun y => date_le (Date t) (Date y)) l -> insert_by_date t l = t :: l.
Proof.
  destruct l as [|x r]; [reflexivity|]. intros H. apply Forall_cons in H as [H _].
  simpl. unfold date_le in H. now rewrite H.
Qed.

Lemma insert_by_date_sorted t l :
  sorted_by_date l -> sorted_by_date (insert_by_date t l).
Proof.
  induction l as [|x r IH]; simpl; [intros _; split; [constructor | exact Logic.I]|].
  intros [Hx Hr]. destruct (String.leb (Date t) (Date x)) eqn:E.
  - simpl. split; [|split; assumption].
    constructor; [exact E|].
    eapply Forall_impl; [exact Hx|]. intros y Hy. simpl in Hy.
    eapply date_le_trans; [exact E | exact Hy].
  - simpl. split; [|now apply IH].
    apply Forall_forall. intros y Hy.
    apply list_elem_of_In, insert_by_date_In in Hy as [->|Hy].
    + destruct (date_le_total (Date x) (Date t)) as [H|H]; [exact H|].
      unfold date_le in H. congruence.
    + rewrite Forall_forall in Hx. apply Hx. now apply list_elem_of_In.
Qed.

Lemma order_by_date_sorted l : sorted_by_date (order_by_date l).
Proof.
  unfold order_by_date. induction l as [|x l IH]; simpl; [exact Logic.I|].
  now apply insert_by_date_sorted.
Qed.

Lemma filter_insert_by_date (p : Transaction -> bool) t l :
  sorted_by_date l ->
  List.filter p (insert_by_date t l)
  = if p t then insert_by_date t (List.filter p l) else List.filter p l.
Proof.
  induction l as [|x r IH]; simpl.
  - intros _. now destruct (p t).
  - intros [Hx Hr]. destruct (String.leb (Date t) (Date x)) eqn:E.
    + simpl. destruct (p t) eqn:Ept; [|reflexivity].
      destruct (p x) eqn:Epx.
      * simpl. now rewrite E.
      * symmetry. apply insert_by_date_head.
        apply Forall_forall. intros y Hy.
        apply list_elem_of_In, filter_In in Hy as [Hy _].
        rewrite Forall_forall in Hx.
        eapply date_le_trans; [exact E|]. apply Hx. now apply list_elem_of_In.
    + simpl. rewrite (IH Hr). destruct (p x) eqn:Epx; destruct (p t) eqn:Ept;
        simpl; rewrite ?E; reflexivity.
Qed.

(** Selecting rows and sorting them by date commute. *)
Lemma filter_order_by_date (p : Transaction -> bool) l :
  List.filter p (order_by_date l) = order_by_date (List.filter p l).
Proof.
  unfold order_by_date. induction l as [|x l IH]; simpl; [reflexivity|].
  rewrite filter_insert_by_date by apply order_by_date_sorted.
  fold (order_by_date l). unfold order_by_date at 1 2. rewrite IH.
  now destruct (p x).
Qed.

Lemma filter_all {A : Type} (p : A -> bool) l :
  Forall (fun x => p x = true) l -> List.filter p l = l.
Proof. induction 1 as [|x l Hx _ IH]; simpl; [reflexivity|]. now rewrite Hx, IH. Qed.

Lemma filter_none {A : Type} (p : A -> bool) l :
  Forall (fun x => p x = false) l -> List.filter p l = [].
Proof. induction 1 as [|x l Hx _ IH]; simpl; [reflexivity|]. now rewrite Hx. Qed.

Lemma filter_filter_and {A : Type} (p q : A -> bool) l :
  List.filter p (List.filter q l) = List.filter (fun x => q x && p x) l.
Proof.
  induction l as [|x l IH]; simpl; [reflexivity|].
  destruct (q x); simpl; [destruct (p x)|]; now rewrite IH.
Qed.

Lemma filter_same {A : Type} (p q : A -> bool) l :
  (forall x, p x = q x) -> List.filter p l = List.filter q l.
Proof. intros H. induction l as [|x l IH]; simpl; [reflexivity|]. now rewrite H, IH. Qed.

(** The matcher appends to the totals it is given what it finds from
    empty totals, and leaves the same queue. *)
Lemma match_sell_from_init tbl key sell buys :
  forall r acc,
    fst (match_sell tbl key sell r buys acc)
    = fst (match_sell tbl key sell r buys Acc.init) /\
    Acc.detailed_transactions (snd (match_sell tbl key sell r buys acc))
    = Acc.detailed_transactions acc
      ++ Acc.detailed_transactions (snd (match_sell tbl key sell r buys Acc.init)).
Proof.
  induction buys as [|buy rest IH]; intros r acc; simpl.
  - split; [reflexivity | now rewrite app_nil_r].
  - destruct (Num.ltb 0 r); [|split; [reflexivity | simpl; now rewrite app_nil_r]].
    destruct (Num.leb (Buy.quantity buy) r).
    + set (m := make_match tbl key buy sell (Buy.quantity buy)).
      destruct (IH (r - Buy.quantity buy) (record_match m acc)) as [F1 D1].
      destruct (IH (r - Buy.quantity buy) (record_match m Acc.init)) as [F2 D2].
      split; [congruence|]. rewrite D1, D2, !record_match_detailed. simpl.
      now rewrite <- app_assoc.
    + simpl. split; [reflexivity|]. now rewrite !record_match_detailed.
Qed.

Lemma match_sells_from_init tbl key sells :
  forall buys acc,
    fst (match_sells tbl key sells buys acc) = fst (match_sells tbl key sells buys Acc.init) /\
    Acc.detailed_transactions (snd (match_sells tbl key sells buys acc))
    = Acc.detailed_transactions acc
      ++ Acc.detailed_transactions (snd (match_sells tbl key sells buys Acc.init)).
Proof.
  unfold match_sells.
  induction sells as [|sell rest IH]; intros buys acc; simpl.
  - split; [reflexivity | now rewrite app_nil_r].
  - destruct (match_sell_from_init tbl key sell buys (Sell.quantity sell) acc) as [F D].
    destruct (match_sell tbl key sell (Sell.quantity sell) buys acc) as [b1 a1].
    destruct (match_sell tbl key sell (Sell.quantity sell) buys Acc.init) as [b1' a1'].
    simpl in F, D. subst b1'.
    destruct (IH b1 a1) as [F1 D1]. destruct (IH b1 a1') as [F2 D2].
    split; [congruence|]. rewrite D1, D2, D. now rewrite <- app_assoc.
Qed.

Lemma process_all_concat tbl groups :
  forall acc,
    Acc.detailed_transactions
      (fold_left (fun acc kd => snd (process_symbol tbl (fst kd) (snd kd) acc)) groups acc)
    = Acc.detailed_transactions acc ++ concat (map (symbol_matches tbl) groups).
Proof.
  induction groups as [|kd groups IH]; intros acc; simpl; [now rewrite app_nil_r|].
  rewrite IH. unfold process_symbol at 1.
  rewrite (proj2 (match_sells_from_init tbl (fst kd) _ _ acc)).
  unfold symbol_matches at 2, process_symbol. now rewrite <- app_assoc.
Qed.

Lemma symbol_matches_symbol tbl kd :
  Forall (fun m => Match.symbol m = fst kd) (symbol_matches tbl kd).
Proof.
  unfold symbol_matches, process_symbol.
  apply (match_sells_keyed tbl (fun k _ => k = fst kd) (fun k _ => k = fst kd)
           (fun m => Match.symbol m = fst kd)).
  - intros key buy sell q Hk _. exact Hk.
  - intros key buy q Hk. exact Hk.
  - apply Forall_forall. reflexivity.
  - apply Forall_forall. reflexivity.
  - constructor.
Qed.

Lemma group_step_keys d t : NoDup (map fst d) -> NoDup (map fst (group_step d t)).
Proof.
  intros Hnd. unfold group_step.
  destruct (text_in (Action t) ["BUY_TO_OPEN"; "BUY_TO_CLOSE"]%string);
    [|destruct (text_in (Action t) ["SELL_TO_CLOSE"; "SELL_TO_OPEN"]%string)];
    rewrite ?dict_update_keys; now apply dict_setdefault_keys.
Qed.

Lemma group_keys rows : NoDup (map fst (_group_transactions_by_symbol rows)).
Proof.
  unfold _group_transactions_by_symbol.
  assert (G : forall d, NoDup (map fst d) -> NoDup (map fst (fold_left group_step rows d))).
  { induction rows as [|t rows IH]; intros d Hd; simpl; [exact Hd|].
    apply IH. now apply group_step_keys. }
  apply G. apply NoDup_nil_2.
Qed.

Lemma dict_get_absent {V : Type} k (d : list (string * V)) :
  k ∉ map fst d -> dict_get k d = None.
Proof.
  intros Hk. destruct (dict_get k d) as [v|] eqn:E; [|reflexivity].
  exfalso. apply Hk. apply (elem_key k v). now apply dict_get_elem.
Qed.

(** Of the matches of all symbols, those of one symbol are the matches of
    its entry. *)
Lemma matches_of_symbol tbl s (groups : list (string * SymbolData.t)) :
  NoDup (map fst groups) ->
  List.filter (fun m => String.eqb (Match.symbol m) s)
    (concat (map (symbol_matches tbl) groups))
  = match dict_get s groups with
    | Some d => symbol_matches tbl (s, d)
    | None => []
    end.
Proof.
  induction groups as [|[k d] groups IH]; simpl; intros Hnd; [reflexivity|].
  apply NoDup_cons in Hnd as [Hk Hnd].
  rewrite List.filter_app, (IH Hnd).
  pose proof (symbol_matches_symbol tbl (k, d)) as Hsym. simpl in Hsym.
  destruct (String.eqb_spec s k) as [->|N].
  - rewrite (dict_get_absent k groups Hk), app_nil_r.
    apply filter_all. eapply Forall_impl; [exact Hsym|].
    intros m Hm. simpl in Hm. rewrite Hm. apply String.eqb_refl.
  - rewrite (filter_none _ (symbol_matches tbl (k, d))); [reflexivity|].
    eapply Forall_impl; [exact Hsym|].
    intros m Hm. simpl in Hm. rewrite Hm. apply String.eqb_neq. congruence.
Qed.

(** The grouping of rows that all carry one symbol has at most the entry
    of that symbol. *)
Lemma group_of_one_symbol s rows :
  Forall (fun t => Symbol t = s) rows ->
  _group_transactions_by_symbol rows
  = match dict_get s (_group_transactions_by_symbol rows) with
    | Some d => [(s, d)]
    | None => []
    end.
Proof.
  intros Hrows.
  pose proof (group_keys rows) as Hnd.
  assert (Hkey : forall k v, (k, v) ∈ _group_transactions_by_symbol rows -> k = s).
  { intros k v Hin.
    pose proof (dict_get_unique k v _ Hnd Hin) as Hget.
    unfold _group_transactions_by_symbol in Hget. rewrite group_get in Hget.
    destruct (String.eqb_spec k s) as [E|N]; [exact E|].
    unfold rows_of in Hget. rewrite filter_none in Hget; [discriminate|].
    eapply Forall_impl; [exact Hrows|]. intros t Ht. simpl in Ht. rewrite Ht.
    apply String.eqb_neq. congruence. }
  destruct (_group_transactions_by_symbol rows) as [|[k v] [|[k' v'] rest]].
  - reflexivity.
  - assert (k = s) as -> by (apply (Hkey k v); apply elem_of_cons; now left).
    simpl. now rewrite String.eqb_refl.
  - exfalso.
    assert (k = s) as -> by (apply (Hkey k v); apply elem_of_cons; now left).
    assert (k' = s) as ->.
    { apply (Hkey k' v'). apply elem_of_cons. right. apply elem_of_cons. now left. }
    simpl in Hnd. apply NoDup_cons in Hnd as [Hk _]. apply Hk.
    apply elem_of_cons. now left.
Qed.

(** The report asked for one symbol lists the matches that the report of
    all symbols lists for that symbol. *)
Lemma report_matches_of_symbol (tbl : gmap string Qc)
    (db : list Transaction) (current_year : string) (s : string)
    (year : option string) :
  s <> ""%string ->
  Report.detailed_transactions
    (calculate_realized_gains_losses tbl db current_year (Some s) year)
  = List.filter (fun m => String.eqb (Match.symbol m) s)
      (Report.detailed_transactions
         (calculate_realized_gains_losses tbl db current_year None year)).
Proof.
  intros Hs.
  unfold calculate_realized_gains_losses, _process_fifo_gains_by_category.
  cbn [Report.detailed_transactions Gains.detailed_transactions].
  rewrite !process_all_concat. cbn [Acc.init Acc.detailed_transactions app].
  set (all := order_by_date
                (List.filter (_build_gains_query_conditions None year current_year) db)).
  set (one := order_by_date
                (List.filter (_build_gains_query_conditions (Some s) year current_year) db)).
  assert (Hone : rows_of s all = one).
  { unfold rows_of, all, one. rewrite filter_order_by_date, filter_filter_and. f_equal.
    apply filter_same. intros t. unfold _build_gains_query_conditions.
    destruct (String.eqb_spec s "") as [E|_]; [contradiction|].
    destruct (String.eqb (Type_ t) "Trade" || String.eqb (Type_ t) "Receive Deliver");
      destruct (String.eqb (Symbol t) s);
      destruct (match year_param year current_year with
                | Some y => String.eqb (String.substring 0 4 (Date t)) y
                | None => true
                end); reflexivity. }
  assert (Hrows : Forall (fun t => Symbol t = s) one).
  { rewrite <- Hone. apply Forall_forall. intros t Ht.
    apply list_elem_of_In, filter_In in Ht as [_ Ht]. now apply String.eqb_eq. }
  assert (Hself : rows_of s one = one).
  { unfold rows_of. apply filter_all. eapply Forall_impl; [exact Hrows|].
    intros t Ht. simpl in Ht. rewrite Ht. apply String.eqb_refl. }
  assert (Hget : dict_get s (_group_transactions_by_symbol one)
                 = dict_get s (_group_transactions_by_symbol all)).
  { unfold _group_transactions_by_symbol. rewrite !group_get. now rewrite Hself, Hone. }
  rewrite (matches_of_symbol tbl s _ (group_keys all)), <- Hget.
  rewrite (group_of_one_symbol s one Hrows).
  destruct (dict_get s (_group_transactions_by_symbol one)) as [d|]; simpl;
    [now rewrite String.eqb_refl, app_nil_r | reflexivity].
Qed.

Lemma sum_where_snoc p f (l : list Match.t) m :
  sum_where p f (l ++ [m]) = sum_where p f l + (if p m then f m else 0).
Proof.
  unfold sum_where. rewrite List.filter_app, map_app, sum_app. simpl.
  destruct (p m); simpl; ring.
Qed.

Lemma record_match_closed m acc : totals_closed acc -> totals_closed (record_match m acc).
Proof.
  unfold totals_closed. intros [HG HL].
  rewrite record_match_detailed, !sum_where_snoc, <- HG, <- HL.
  unfold record_match.
  destruct (Num.ltb 0 (Match.gain_loss m));
    cbn [Acc.total_gains Acc.total_losses negb]; split; ring.
Qed.

Lemma init_closed : totals_closed Acc.init.
Proof. unfold totals_closed, Acc.init, sum_where. simpl. now split. Qed.

Lemma report_totals_closed tbl db current_year symbol year :
  let r := calculate_realized_gains_losses tbl db current_year symbol year in
  Report.total_gains r
  = sum_where (fun m => Num.ltb 0 (Match.gain_loss m)) Match.gain_loss
      (Report.detailed_transactions r) /\
  Report.total_losses r
  = sum_where (fun m => negb (Num.ltb 0 (Match.gain_loss m)))
      (fun m => Qcabs (Match.gain_loss m)) (Report.detailed_transactions r).
Proof.
  cbv zeta. unfold calculate_realized_gains_losses, _process_fifo_gains_by_category.
  cbn [Report.total_gains Report.total_losses Report.detailed_transactions
       Gains.total_gains Gains.total_losses Gains.detailed_transactions].
  apply (process_all_acc tbl totals_closed record_match_closed _ Acc.init init_closed).
Qed.

(** X23.  The realized-gains report asked for one symbol is the part of
    the report of all symbols, for the same year, that belongs to that
    symbol: it lists exactly the matches that the full report lists for the
    symbol, in the same order, and its gains and losses are the sums of the
    positive gains, and of the absolute values of the others, over those
    matches.  The matches of a symbol depend on the rows of that symbol
    alone. *)
Theorem symbol_report_is_part_of_full_report (tbl : gmap string Qc)
    (db : list Transaction) (current_year : string) (s : string)
    (year : option string) :
  s <> ""%string ->
  let one := calculate_realized_gains_losses tbl db current_year (Some s) year in
  let part :=
    List.filter (fun m => String.eqb (Match.symbol m) s)
      (Report.detailed_transactions
         (calculate_realized_gains_losses tbl db current_year None year)) in
  Report.detailed_transactions one = part /\
  Report.total_gains one
  = sum_where (fun m => Num.ltb 0 (Match.gain_loss m)) Match.gain_loss part /\
  Report.total_losses one
  = sum_where (fun m => negb (Num.ltb 0 (Match.gain_loss m)))
      (fun m => Qcabs (Match.gain_loss m)) part /\
  Report.net_gain_loss one = Num.sum (map Match.gain_loss part).
Proof.
  intros Hs. cbv zeta.
  pose proof (report_matches_of_symbol tbl db current_year s year Hs) as Hm.
  destruct (report_totals_closed tbl db current_year (Some s) year) as [HG HL].
  cbv zeta in HG, HL. rewrite Hm in HG, HL.
  split; [exact Hm|]. split; [exact HG|]. split; [exact HL|].
  rewrite <- Hm.
  unfold calculate_realized_gains_losses, _process_fifo_gains_by_category.
  cbn [Report.net_gain_loss Report.detailed_transactions Gains.total_gains
       Gains.total_losses Gains.detailed_transactions].
  match goal with
  | |- context [fold_left ?f ?l Acc.init] =>
      destruct (process_all_acc tbl totals_consistent record_match_consistent
                  l Acc.init init_consistent) as (_ & _ & HN & _)
  end.
  exact HN.
Qed.

(** The report of AAPL among the rows of two symbols. *)
Lemma symbol_report_is_part_of_full_report_witness :
  Report.detailed_transactions
    (calculate_realized_gains_losses rates_2024 two_symbols "2025" (Some "AAPL"%string) None)
  = List.filter (fun m => String.eqb (Match.symbol m) "AAPL")
      (Report.detailed_transactions
         (calculate_realized_gains_losses rates_2024 two_symbols "2025" None None)).
Proof.
  apply (symbol_report_is_part_of_full_report rates_2024 two_symbols "2025" "AAPL" None).
  discriminate.
Defined.

(** ** The pages of the transaction list *)

Lemma firstn_plus {A : Type} (a b : nat) (l : list A) :
  firstn (a + b) l = firstn a l ++ firstn b (skipn a l).
Proof.
  revert l. induction a as [|a IH]; intros l; simpl; [reflexivity|].
  destruct l as [|x l]; simpl; [now destruct b | now rewrite IH].
Qed.

Lemma pages_concat {A : Type} (rows : list A) (per_page : Z) (k : nat) :
  (1 <= per_page)%Z ->
  concat (map (fun i => page_rows rows (Z.of_nat i) per_page) (seq 1 k))
  = firstn (k * Z.to_nat per_page) rows.
Proof.
  intros Hpp. induction k as [|k IH]; [reflexivity|].
  rewrite seq_S, map_app, concat_app, IH. cbn [map concat]. rewrite app_nil_r.
  unfold page_rows. destruct (Z.ltb_spec per_page 0) as [H|_]; [lia|].
  replace (Z.to_nat ((Z.of_nat (1 + k) - 1) * per_page)) with (k * Z.to_nat per_page)%nat
    by nia.
  replace (S k * Z.to_nat per_page)%nat with (k * Z.to_nat per_page + Z.to_nat per_page)%nat
    by lia.
  now rewrite firstn_plus.
Qed.

(** X24.  With at least one row per page, the transaction list is cut
    into pages without gap or repetition: the pages 1 to k, one after the
    other, are the first k * per_page rows, and the pages 1 to
    [total_pages] are all rows.  [total_pages] is the least number of pages
    that hold all rows, [has_next] is set exactly when rows lie beyond the
    page shown, and [has_prev] exactly when the page number is above 1. *)
Theorem pages_cover_all_rows {A : Type} (rows : list A) (page per_page : Z) :
  (1 <= per_page)%Z ->
  let total_records := Z.of_nat (length rows) in
  exists p,
    pagination total_records page per_page = Some p /\
    (total_records <= Pagination.total_pages p * per_page)%Z /\
    (Pagination.total_pages p * per_page < total_records + per_page)%Z /\
    (Pagination.has_next p = true <-> (page * per_page < total_records)%Z) /\
    (Pagination.has_prev p = true <-> (1 < page)%Z) /\
    (forall k : nat,
        concat (map (fun i => page_rows rows (Z.of_nat i) per_page) (seq 1 k))
        = firstn (k * Z.to_nat per_page) rows) /\
    concat (map (fun i => page_rows rows (Z.of_nat i) per_page)
              (seq 1 (Z.to_nat (Pagination.total_pages p))))
    = rows.
Proof.
  intros Hpp. cbv zeta. unfold pagination.
  destruct (Z.eqb_spec per_page 0) as [E|_]; [lia|].
  set (total := Z.of_nat (length rows)).
  set (tp := ((total + per_page - 1) / per_page)%Z).
  assert (Hdiv : (total + per_page - 1 = per_page * tp + (total + per_page - 1) mod per_page)%Z)
    by (apply Z.div_mod; lia).
  assert (Hmod : (0 <= (total + per_page - 1) mod per_page < per_page)%Z)
    by (apply Z.mod_pos_bound; lia).
  assert (Htot : (0 <= total)%Z) by (unfold total; lia).
  assert (Hlo : (total <= tp * per_page)%Z) by lia.
  assert (Hhi : (tp * per_page < total + per_page)%Z) by lia.
  eexists. split; [reflexivity|].
  cbn [Pagination.total_pages Pagination.has_next Pagination.has_prev].
  split; [exact Hlo|]. split; [exact Hhi|]. split; [|split; [|split]].
  - rewrite Z.ltb_lt. split; intros H; nia.
  - now rewrite Z.ltb_lt.
  - intros k. now apply pages_concat.
  - rewrite pages_concat by exact Hpp.
    apply firstn_all2. unfold total in *. nia.
Qed.

(** Three rows shown two per page: page 1 has a next page. *)
Lemma pages_cover_all_rows_witness :
  exists p,
    pagination 3 1 2 = Some p /\ Pagination.has_next p = true /\
    Pagination.total_pages p = 2%Z.
Proof.
  destruct (pages_cover_all_rows [1; 2; 3]%Z 1 2 ltac:(lia))
    as (p & E & H1 & H2 & H3 & _).
  exists p. split; [exact E|]. split; [apply H3; reflexivity|].
  cbv zeta in H1, H2. simpl in H1, H2. lia.
Defined.
